(** * DKTools.IO: directory traversal and web storage

    A shallow embedding of [DKTools.IO.Directory] (IO Directory.js) and
    [DKTools.IO.WebStorage] (IO WebStorage.js), followed by the properties
    of the bounded recursive search, the enumeration primitives, the
    mutating directory operations and the key-value wrapper. *)

From Stdlib Require Import ZArith QArith Qround List String Ascii Bool Lia
  Permutation.
From stdpp Require Import base gmap strings list.

Local Open Scope Z_scope.

(** ** Status vocabulary and JavaScript values *)

(** The status codes of [DKTools.IO].  Their numeric values are declared
    outside the modelled files; only their identity matters here. *)
Inductive status : Type :=
  | OK
  | WAIT_FOR_ASYNC_OPERATION
  | ERROR_NOT_LOCAL_MODE
  | ERROR_PATH_DOES_NOT_EXIST
  | ERROR_CALLBACK_IS_NOT_AVAILABLE
  | ERROR_OPTIONS_IS_NOT_AVAILABLE
  | ERROR_DIRECTORY_ALREADY_EXISTS
  | ERROR_DIRECTORY_IS_NOT_EMPTY
  | ERROR_OVERWRITING_IS_NOT_AVAILABLE
  | ERROR_DECOMPRESSING_DATA
  | ERROR_PARSING_DATA.

Definition status_eqb (a b : status) : bool :=
  match a, b with
  | OK, OK
  | WAIT_FOR_ASYNC_OPERATION, WAIT_FOR_ASYNC_OPERATION
  | ERROR_NOT_LOCAL_MODE, ERROR_NOT_LOCAL_MODE
  | ERROR_PATH_DOES_NOT_EXIST, ERROR_PATH_DOES_NOT_EXIST
  | ERROR_CALLBACK_IS_NOT_AVAILABLE, ERROR_CALLBACK_IS_NOT_AVAILABLE
  | ERROR_OPTIONS_IS_NOT_AVAILABLE, ERROR_OPTIONS_IS_NOT_AVAILABLE
  | ERROR_DIRECTORY_ALREADY_EXISTS, ERROR_DIRECTORY_ALREADY_EXISTS
  | ERROR_DIRECTORY_IS_NOT_EMPTY, ERROR_DIRECTORY_IS_NOT_EMPTY
  | ERROR_OVERWRITING_IS_NOT_AVAILABLE, ERROR_OVERWRITING_IS_NOT_AVAILABLE
  | ERROR_DECOMPRESSING_DATA, ERROR_DECOMPRESSING_DATA
  | ERROR_PARSING_DATA, ERROR_PARSING_DATA => true
  | _, _ => false
  end.

(** The JavaScript values that reach the modelled code as a template or as
    data to store.  Numbers are the integral ones.  A RegExp without the
    [g] and [y] flags is its [test] method, which keeps no position
    between calls.  A RegExp with the [g] or the [y] flag is its matcher,
    which from a position in a string gives the end of the match it finds,
    if it finds one (a search from the position on for [g], a match at the
    position for [y]), with the value of its [lastIndex] property. *)
#[local] Unset Elimination Schemes.
Inductive jsval : Type :=
  | JUndefined
  | JNull
  | JBool (b : bool)
  | JNum (z : Z)
  | JStr (s : string)
  | JRegExp (test : string -> bool)
  | JRegExpGY (exec : nat -> string -> option nat) (lastIndex : nat)
  | JArr (items : list jsval)
  | JObj (fields : list (string * jsval)).
#[local] Set Elimination Schemes.

(** ToBoolean, as applied by [!x], [x || y] and [if (x)]. *)
Definition truthy (v : jsval) : bool :=
  match v with
  | JUndefined | JNull => false
  | JBool b => b
  | JNum z => negb (z =? 0)
  | JStr s => negb (String.eqb s EmptyString)
  | JRegExp _ | JRegExpGY _ _ | JArr _ | JObj _ => true
  end.

(** [DKTools.Utils.isString]. *)
Definition isString (v : jsval) : bool :=
  match v with JStr _ => true | _ => false end.

(** [v instanceof RegExp]. *)
Definition isRegExp (v : jsval) : bool :=
  match v with JRegExp _ | JRegExpGY _ _ => true | _ => false end.

(** [name === v] for a string [name]. *)
Definition strict_eq_string (name : string) (v : jsval) : bool :=
  match v with JStr s => String.eqb name s | _ => false end.

(** ** DKTools.IO.WebStorage *)

Module WebStorage.

(** [localStorage]: a string-keyed store of strings, without quota. *)
Abbreviation storage := (gmap string string).

Record envelope : Type := Envelope { data : jsval; st : status }.

Record save_options : Type := SaveOptions {
  overwrite : option bool;   (* absent: _.defaultTo gives true *)
  stringify : bool;
  compress : bool
}.

Record load_options : Type := LoadOptions {
  decompress : bool;
  parse : bool
}.

(** What the host page provides, taken as given.  JSON and LZString are
    its libraries; [None] stands for a thrown exception, and the stages
    are called without replacer, space or reviver.  [render] is the string
    [setItem] stores for a value that is not a string.  [inherited] tells
    the names of the members [localStorage] inherits from
    [Storage.prototype] and [Object.prototype] ([length], [getItem],
    [hasOwnProperty], ...): a key of such a name can be stored and read
    with [getItem], but it is no own property of [localStorage]. *)
Record Codecs : Type := MkCodecs {
  JSON_stringify : jsval -> jsval;
  JSON_parse : jsval -> option jsval;
  compressToBase64 : jsval -> string;
  decompressFromBase64 : string -> option jsval;
  render : jsval -> string;
  inherited : string -> bool
}.

Definition ToString (c : Codecs) (v : jsval) : string :=
  match v with JStr s => s | _ => render c v end.

(** [localStorage.hasOwnProperty(key)]: the key is stored and its name
    is not that of an inherited member. *)
Definition exists_ (c : Codecs) (ls : storage) (key : string) : bool :=
  bool_decide (is_Some (ls !! key)) && negb (inherited c key).

Definition getItem (ls : storage) (key : string) : jsval :=
  match ls !! key with Some s => JStr s | None => JNull end.

Definition setItem (c : Codecs) (ls : storage) (key : string) (v : jsval)
  : storage :=
  <[key := ToString c v]> ls.

Definition removeItem (ls : storage) (key : string) : storage :=
  delete key ls.

Definition load (c : Codecs) (ls : storage) (key : string)
    (object : load_options) : envelope :=
  if negb (exists_ c ls key) then Envelope JNull ERROR_PATH_DOES_NOT_EXIST
  else
    let data0 := getItem ls key in
    if truthy data0 then
      let stage1 :=
        if decompress object then
          match data0 with
          | JStr s => decompressFromBase64 c s
          | _ => Some data0
          end
        else Some data0 in
      match stage1 with
      | None => Envelope JNull ERROR_DECOMPRESSING_DATA
      | Some data1 =>
          if parse object then
            match JSON_parse c data1 with
            | None => Envelope JNull ERROR_PARSING_DATA
            | Some data2 => Envelope data2 OK
            end
          else Envelope data1 OK
      end
    else Envelope data0 OK.

Definition remove (c : Codecs) (ls : storage) (key : string)
  : status * storage :=
  if negb (exists_ c ls key) then (ERROR_PATH_DOES_NOT_EXIST, ls)
  else (OK, removeItem ls key).

Definition rename (c : Codecs) (ls : storage) (oldKey newKey : string)
    (ow : bool) : status * storage :=
  if negb (exists_ c ls oldKey) then (ERROR_PATH_DOES_NOT_EXIST, ls)
  else if negb ow && exists_ c ls newKey
  then (ERROR_OVERWRITING_IS_NOT_AVAILABLE, ls)
  else
    let data0 := getItem ls oldKey in
    let ls1 := setItem c ls newKey data0 in
    let ls2 := removeItem ls1 oldKey in
    (OK, ls2).

Definition save (c : Codecs) (ls : storage) (key : string) (data0 : jsval)
    (object : option save_options) : status * storage :=
  let object :=
    match object with
    | Some o => o
    | None => SaveOptions None false false
    end in
  let ow := match overwrite object with Some b => b | None => true end in
  if negb ow && exists_ c ls key
  then (ERROR_OVERWRITING_IS_NOT_AVAILABLE, ls)
  else
    let data1 := if stringify object then JSON_stringify c data0 else data0 in
    let data2 :=
      if compress object then JStr (compressToBase64 c data1) else data1 in
    (OK, setItem c ls key data2).

(** A value is JSON-serializable when [JSON.stringify] gives a string
    from which [JSON.parse] rebuilds the value. *)
Definition json_serializable (c : Codecs) (v : jsval) : Prop :=
  exists s, JSON_stringify c v = JStr s /\ JSON_parse c (JStr s) = Some v.

(** The contract of LZString on strings: the compressed text is never
    empty and decompresses to the original. *)
Definition lz_roundtrip (c : Codecs) : Prop :=
  forall s,
    compressToBase64 c (JStr s) <> EmptyString /\
    decompressFromBase64 c (compressToBase64 c (JStr s)) = Some (JStr s).

End WebStorage.

(** ** DKTools.IO.Directory *)

Module Directory.

(** *** Paths, entities and the host file system *)

(** Modelled from the spec: the getters of [DKTools.IO.Entity] are
    declared outside the modelled files.  A normalized path is its list of
    segments, and the full name of an entity is the last segment of its
    path.  For a name the host lists in [dir], which is one segment, the
    path [dir + '/' + name] is [dir ++ [name]].  [DKTools.IO.normalizePath]
    is declared outside the modelled files as well; where it is applied to
    a name the caller gives, it is a parameter of the operation. *)
Abbreviation path := (list string).

Fixpoint path_eqb (p q : path) : bool :=
  match p, q with
  | [], [] => true
  | a :: p', b :: q' => String.eqb a b && path_eqb p' q'
  | _, _ => false
  end.

(** What the host's stat call says of an existing path. *)
Inductive kind : Type := KFile | KDirectory | KOther.

(** Instances of [DKTools.IO.File] and [DKTools.IO.Directory]. *)
Inductive entity : Type :=
  | File (fullPath : path)
  | Directory (fullPath : path).

Definition getFullPath (e : entity) : path :=
  match e with File p | Directory p => p end.

Definition getFullName (e : entity) : string := List.last (getFullPath e) EmptyString.

(** Modelled from the spec: [Entity.isFile] and [Entity.isDirectory] are
    declared outside the modelled files; they are mutually exclusive
    classifications.  An entity built by getAll has the class the host's
    stat gave its path, and the host does not change during a search, so
    the class of the entity decides. *)
Definition isFile (e : entity) : bool :=
  match e with File _ => true | Directory _ => false end.

Definition isDirectory (e : entity) : bool :=
  match e with File _ => false | Directory _ => true end.

(** Modelled from the spec: the host, that is the trust-level gate
    [DKTools.IO.isLocalMode] and the file system behind [DKTools.IO.fs],
    with [DKTools.IO.isFile] and [DKTools.IO.isDirectory] reading its stat.
    [stat] is [None] for a path that does not exist; [readdir] is [None]
    when the host reports an I/O error and lists the names of the children
    otherwise. *)
Record Host : Type := MkHost {
  localMode : bool;
  stat : path -> option kind;
  readdir : path -> option (list string)
}.

(** Calls of host file-system primitives made by the Directory class
    itself.  [ExistsSync] is the one existence check of [Entity.exists]. *)
Inductive hostcall : Type :=
  | ExistsSync (p : path)
  | ReaddirSync (p : path)
  | Readdir (p : path)
  | MkdirSync (p : path)
  | Mkdir (p : path)
  | RmdirSync (p : path)
  | Rmdir (p : path).

Inductive exn : Type :=
  | HostError (c : hostcall)
  | TypeError.

Inductive outcome (A : Type) : Type :=
  | Returned (a : A)
  | Threw (e : exn).
Arguments Returned {A} a.
Arguments Threw {A} e.

(** What a call does: its result and the host calls it made, in order. *)
Record effect (A : Type) : Type := Effect {
  result : outcome A;
  calls : list hostcall
}.
Arguments Effect {A} result calls.
Arguments result {A} e.
Arguments calls {A} e.

(** The asynchronous enumerations a sequence of host calls has started. *)
Definition started (cs : list hostcall) : list path :=
  flat_map (fun c => match c with Readdir p => [p] | _ => [] end) cs.

Record envelope : Type := Envelope {
  data : option (list entity);   (* None: null *)
  st : status
}.

Definition failure (e : status) : envelope := Envelope None e.

(** The options object of the get and find operations.  [sync] is the
    truthiness of [object.sync]; [onSuccess] and [onError] say whether the
    property is a function; the [options] property is handed to the host
    unchanged and is left out.  [searchLimit] is a finite Number, taken as
    a rational (every finite double is one); [None] is a limit that is
    absent or [NaN], which [||] treats alike.  The infinite limits, under
    which a search has no budget, are left out. *)
Record options : Type := Options {
  sync : bool;
  template : jsval;
  onSuccess : bool;
  onError : bool;
  searchLimit : option Q
}.

(** The object literal [{}]. *)
Definition no_options : options := Options false JUndefined false false None.

(** Modelled from the spec: [Entity.exists] is declared outside the modelled
    files; it performs exactly one host existence check. *)
Definition exists_ (h : Host) (this : path) : bool :=
  match stat h this with Some _ => true | None => false end.

(** *** getAll, getFiles, getDirectories *)

(** [template.test(name)] for a template that is a RegExp: the outcome
    and the [lastIndex] the test leaves.  [p] is the [lastIndex] left by
    the tests made before in the same call, [None] when none was made and
    the property is as the caller passed it.  With the [g] or the [y] flag
    the match is tried from [lastIndex], which becomes the end of the
    match, or 0 when there is none or the position is beyond the string.
    Without these flags [lastIndex] is neither read nor written. *)
Definition regexp_test (t : jsval) (p : option nat) (name : string)
  : bool * option nat :=
  match t with
  | JRegExp test => (test name, p)
  | JRegExpGY exec lastIndex =>
      let i := match p with Some i => i | None => lastIndex end in
      if (String.length name <? i)%nat then (false, Some 0%nat)
      else
        match exec i name with
        | Some e => (true, Some e)
        | None => (false, Some 0%nat)
        end
  | _ => (false, p)
  end.

(** [_.filter(names, name => object.template.test(name))]: the names are
    tested in their order. *)
Fixpoint filter_tests (t : jsval) (p : option nat) (names : list string)
  : list string * option nat :=
  match names with
  | [] => ([], p)
  | name :: rest =>
      let tested := regexp_test t p name in
      let others := filter_tests t (snd tested) rest in
      (if fst tested then name :: fst others else fst others, snd others)
  end.

(** The name filter of getAll's [processData]. *)
Definition filter_names (t : jsval) (names : list string) : list string :=
  if isRegExp t then fst (filter_tests t None names)
  else if isString t then List.filter (fun name => strict_eq_string name t) names
  else names.

(** The reducer of getAll's [processData]: a name becomes a File or a
    Directory according to the host, and is dropped when it is neither. *)
Definition reducer (h : Host) (dir : path) (acc : list entity) (name : string)
  : list entity :=
  let fullPath := dir ++ [name] in
  match stat h fullPath with
  | Some KFile => acc ++ [File fullPath]
  | Some KDirectory => acc ++ [Directory fullPath]
  | _ => acc
  end.

Definition getAll_processData (h : Host) (this : path) (t : jsval)
    (names : list string) : envelope :=
  let names := filter_names t names in
  Envelope (Some (fold_left (reducer h this) names [])) OK.

Definition getAll (h : Host) (this : path) (object : option options)
  : effect envelope :=
  match object with
  | None => Effect (Returned (failure ERROR_OPTIONS_IS_NOT_AVAILABLE)) []
  | Some o =>
    if negb (localMode h) then
      Effect (Returned (failure ERROR_NOT_LOCAL_MODE)) []
    else if negb (exists_ h this) then
      Effect (Returned (failure ERROR_PATH_DOES_NOT_EXIST)) [ExistsSync this]
    else if sync o then
      match readdir h this with
      | Some names =>
          Effect (Returned (getAll_processData h this (template o) names))
                 [ExistsSync this; ReaddirSync this]
      | None =>
          Effect (Threw (HostError (ReaddirSync this)))
                 [ExistsSync this; ReaddirSync this]
      end
    else if negb (onSuccess o) then
      Effect (Returned (failure ERROR_CALLBACK_IS_NOT_AVAILABLE))
             [ExistsSync this]
    else
      Effect (Returned (failure WAIT_FOR_ASYNC_OPERATION))
             [ExistsSync this; Readdir this]
  end.

(** What the callback given to [fs.readdir] by getAll does when the host
    completes the enumeration: it hands the error to [__processError]
    (declared outside the modelled files; the error goes to the failure
    channel), or the result envelope to [object.onSuccess]. *)
Inductive callback : Type :=
  | CallError (e : exn)
  | CallSuccess (result : envelope).

Definition getAll_completed (h : Host) (this : path) (o : options) : callback :=
  match readdir h this with
  | None => CallError (HostError (Readdir this))
  | Some names => CallSuccess (getAll_processData h this (template o) names)
  end.

Definition with_data (f : list entity -> list entity) (r : envelope) : envelope :=
  Envelope (option_map f (data r)) (st r).

Definition kind_filtered (keep : entity -> bool) (r : effect envelope)
  : effect envelope :=
  match result r with
  | Returned env =>
      if status_eqb (st env) OK
      then Effect (Returned (with_data (List.filter keep) env)) (calls r)
      else r
  | Threw _ => r
  end.

Definition getFiles (h : Host) (this : path) (object : option options)
  : effect envelope :=
  let object := match object with Some o => o | None => no_options end in
  if sync object then kind_filtered isFile (getAll h this (Some object))
  else if negb (onSuccess object) then
    Effect (Returned (failure ERROR_CALLBACK_IS_NOT_AVAILABLE)) []
  else getAll h this (Some object).

Definition getDirectories (h : Host) (this : path) (object : option options)
  : effect envelope :=
  match object with
  | None => Effect (Threw TypeError) []
  | Some object =>
    if sync object then kind_filtered isDirectory (getAll h this (Some object))
    else if negb (onSuccess object) then
      Effect (Returned (failure ERROR_CALLBACK_IS_NOT_AVAILABLE)) []
    else getAll h this (Some object)
  end.

(** The wrapped success callbacks of asynchronous getFiles and
    getDirectories filter the eventual result by kind. *)
Definition kind_completed (keep : entity -> bool) (c : callback) : callback :=
  match c with
  | CallSuccess r => CallSuccess (with_data (List.filter keep) r)
  | CallError e => CallError e
  end.

Definition getFiles_completed h this o : callback :=
  kind_completed isFile (getAll_completed h this o).

Definition getDirectories_completed h this o : callback :=
  kind_completed isDirectory (getAll_completed h this o).


(** *** Bounded recursive search: findFiles and findDirectories *)

(** What happens during one find invocation, in order: host calls, and the
    values the counters [total] and [processed] take. *)
Inductive event : Type :=
  | Call (c : hostcall)
  | Counters (total processed : Z).

(** The variables of one find invocation ([total], [processed] and the
    array [files] or [directories]), with the asynchronous enumerations the
    host has not completed yet, the envelopes passed to the caller's success
    callback, the errors passed to [__processError], the history of
    events, and the [lastIndex] that the tests of this invocation have left
    in the template ([None] while they have not written it). *)
Record search : Type := Search {
  total : Z;
  processed : Z;
  collected : list entity;
  pending : list path;
  delivered : list envelope;
  failed : list exn;
  history : list event;
  position : option nat
}.

Definition initial (cs : list hostcall) : search :=
  Search 1 0 [] [] [] [] (map Call cs ++ [Counters 1 0]) None.

Definition push (e : entity) (s : search) : search :=
  Search (total s) (processed s) (collected s ++ [e]) (pending s)
         (delivered s) (failed s) (history s) (position s).

Definition incr_total (s : search) : search :=
  Search (total s + 1) (processed s) (collected s) (pending s)
         (delivered s) (failed s)
         (history s ++ [Counters (total s + 1) (processed s)]) (position s).

Definition incr_processed (s : search) : search :=
  Search (total s) (processed s + 1) (collected s) (pending s)
         (delivered s) (failed s)
         (history s ++ [Counters (total s) (processed s + 1)]) (position s).

Definition record_calls (cs : list hostcall) (s : search) : search :=
  Search (total s) (processed s) (collected s) (pending s ++ started cs)
         (delivered s) (failed s) (history s ++ map Call cs) (position s).

Definition set_pending (l : list path) (s : search) : search :=
  Search (total s) (processed s) (collected s) l
         (delivered s) (failed s) (history s) (position s).

Definition deliver (r : envelope) (s : search) : search :=
  Search (total s) (processed s) (collected s) (pending s)
         (delivered s ++ [r]) (failed s) (history s) (position s).

Definition fail (e : exn) (s : search) : search :=
  Search (total s) (processed s) (collected s) (pending s)
         (delivered s) (failed s ++ [e]) (history s) (position s).

Definition set_position (p : option nat) (s : search) : search :=
  Search (total s) (processed s) (collected s) (pending s)
         (delivered s) (failed s) (history s) p.

(** How a stretch of synchronous code ends.  [Exhausted] is the model
    running out of recursion fuel; the search never does
    (see [processDirectory_sync_fuel]). *)
Inductive completion : Type :=
  | Normal (s : search)
  | Abrupt (e : exn) (s : search)
  | Exhausted.

(** [object.searchLimit || 1]: zero is the one falsy finite Number. *)
Definition effective_limit (o : options) : Q :=
  match searchLimit o with
  | Some q => if Qnum q =? 0 then inject_Z 1 else q
  | None => inject_Z 1
  end.

(** [total < searchLimit], for the integral counter [total]. *)
Definition below_limit (total : Z) (searchLimit : Q) : bool :=
  negb (Qle_bool searchLimit (inject_Z total)).

(** The template test shared by the two [processData] closures: whether
    the entity is pushed, and the [lastIndex] the test leaves.  The
    template is tested only when it is a RegExp. *)
Definition selects (t : jsval) (p : option nat) (fullName : string)
  : bool * option nat :=
  let tested := if isRegExp t then regexp_test t p fullName else (false, p) in
  if fst tested then (true, snd tested)
  else if negb (truthy t) || strict_eq_string fullName t
  then (true, snd tested)
  else (false, snd tested).

(** The body of the [_.forEach] callback of findFiles, up to the call of
    [processDirectory]: the new state and the directory to process. *)
Definition findFiles_visit (object : options) (entity : entity) (s : search)
  : search * option path :=
  let searchLimit := effective_limit object in
  if isFile entity then
    let fullName := getFullName entity in
    let tested := selects (template object) (position s) fullName in
    let s1 := set_position (snd tested) s in
    if fst tested then (push entity s1, None) else (s1, None)
  else if below_limit (total s) searchLimit && isDirectory entity then
    (incr_total s, Some (getFullPath entity))
  else (s, None).

(** The same for findDirectories. *)
Definition findDirectories_visit (object : options) (directory : entity)
    (s : search) : search * option path :=
  let searchLimit := effective_limit object in
  let fullName := getFullName directory in
  let tested := selects (template object) (position s) fullName in
  let s0 := set_position (snd tested) s in
  let s1 := if fst tested then push directory s0 else s0 in
  if below_limit (total s1) searchLimit
  then (incr_total s1, Some (getFullPath directory))
  else (s1, None).

(** [_.forEach(data, ...)], with [processDirectory] for the directories
    the callback descends into. *)
Fixpoint forEach (visit : entity -> search -> search * option path)
    (processDirectory : path -> search -> completion)
    (data : list entity) (s : search) : completion :=
  match data with
  | [] => Normal s
  | entity :: rest =>
      let '(s1, descend) := visit entity s in
      match descend with
      | None => forEach visit processDirectory rest s1
      | Some directory =>
          match processDirectory directory s1 with
          | Normal s2 => forEach visit processDirectory rest s2
          | stop => stop
          end
      end
  end.

(** [_.forEach] does nothing on [null]. *)
Definition data_of (r : envelope) : list entity :=
  match data r with Some l => l | None => [] end.

(** The options findFiles and findDirectories pass down:
    [{ sync: true, options }] and
    [{ sync: false, options, onError, onSuccess: (result) => ... }]. *)
Definition sync_request : options := Options true JUndefined false false None.

Definition async_request (object : options) : options :=
  Options false JUndefined true (onError object) None.

(** [processDirectory], synchronous branch.  [enumerate] is
    [directory.getAll] for findFiles and [directory.getDirectories] for
    findDirectories. *)
Fixpoint processDirectory_sync
    (enumerate : path -> option options -> effect envelope)
    (visit : entity -> search -> search * option path)
    (fuel : nat) (directory : path) (s : search) : completion :=
  match fuel with
  | O => Exhausted
  | S fuel' =>
      let r := enumerate directory (Some sync_request) in
      let s1 := record_calls (calls r) s in
      match result r with
      | Threw e => Abrupt e s1
      | Returned env =>
          forEach visit (processDirectory_sync enumerate visit fuel')
                  (data_of env) s1
      end
  end.

(** [processDirectory], asynchronous branch: the enumeration is handed to
    the host and the value the call returns is dropped. *)
Definition processDirectory_async
    (enumerate : path -> option options -> effect envelope)
    (object : options) (directory : path) (s : search) : completion :=
  let r := enumerate directory (Some (async_request object)) in
  let s1 := record_calls (calls r) s in
  match result r with
  | Threw e => Abrupt e s1
  | Returned _ => Normal s1
  end.

(** The success callback the asynchronous [processDirectory] passes down. *)
Definition onSuccess_closure
    (enumerate : path -> option options -> effect envelope)
    (visit : entity -> search -> search * option path)
    (object : options) (result : envelope) (s : search) : completion :=
  let s1 := incr_processed s in
  match forEach visit (processDirectory_async enumerate object)
                (data_of result) s1 with
  | Normal s2 =>
      if total s2 =? processed s2
      then Normal (deliver (Envelope (Some (collected s2)) OK) s2)
      else Normal s2
  | stop => stop
  end.

(** The host completes the asynchronous enumeration of [directory]. *)
Definition complete
    (completed : path -> options -> callback)
    (enumerate : path -> option options -> effect envelope)
    (visit : entity -> search -> search * option path)
    (object : options) (directory : path) (s : search) : completion :=
  match completed directory (async_request object) with
  | CallError e => Normal (fail e s)
  | CallSuccess result => onSuccess_closure enumerate visit object result s
  end.

(** One step of an asynchronous search: the host completes any one of the
    pending enumerations. *)
Inductive step
    (completed : path -> options -> callback)
    (enumerate : path -> option options -> effect envelope)
    (visit : entity -> search -> search * option path)
    (object : options) : search -> search -> Prop :=
  | step_complete s before directory after s' :
      pending s = before ++ directory :: after ->
      complete completed enumerate visit object directory
               (set_pending (before ++ after) s) = Normal s' ->
      step completed enumerate visit object s s'.

(** What a find call leaves behind: the value it returned or the exception
    it threw, and the state of the search. *)
Record found : Type := Found {
  returned : outcome envelope;
  state : search
}.

Definition idle (cs : list hostcall) : search :=
  Search 0 0 [] [] [] [] (map Call cs) None.

(** findFiles and findDirectories have the same text but for the
    enumeration [processDirectory] calls and the body of the [_.forEach]
    callback.  Before the variables of the search exist the state is
    [idle]. *)
Definition find_with
    (enumerate : path -> option options -> effect envelope)
    (visit : options -> entity -> search -> search * option path)
    (h : Host) (this : path) (object : option options) : option found :=
  match object with
  | None =>
      Some (Found (Returned (failure ERROR_OPTIONS_IS_NOT_AVAILABLE)) (idle []))
  | Some object =>
    if negb (localMode h) then
      Some (Found (Returned (failure ERROR_NOT_LOCAL_MODE)) (idle []))
    else if negb (sync object) && negb (onSuccess object) then
      Some (Found (Returned (failure ERROR_CALLBACK_IS_NOT_AVAILABLE)) (idle []))
    else if negb (exists_ h this) then
      Some (Found (Returned (failure ERROR_PATH_DOES_NOT_EXIST))
                  (idle [ExistsSync this]))
    else
      let searchLimit := effective_limit object in
      let s0 := initial [ExistsSync this] in
      if sync object then
        match processDirectory_sync enumerate (visit object)
                (Z.to_nat (Z.max 1 (Qceiling searchLimit))) this s0 with
        | Normal s => Some (Found (Returned (Envelope (Some (collected s)) OK)) s)
        | Abrupt e s => Some (Found (Threw e) s)
        | Exhausted => None
        end
      else
        match processDirectory_async enumerate object this s0 with
        | Normal s =>
            Some (Found (Returned (failure WAIT_FOR_ASYNC_OPERATION)) s)
        | Abrupt e s => Some (Found (Threw e) s)
        | Exhausted => None
        end
  end.

Definition findFiles (h : Host) : path -> option options -> option found :=
  find_with (getAll h) findFiles_visit h.

Definition findDirectories (h : Host)
  : path -> option options -> option found :=
  find_with (getDirectories h) findDirectories_visit h.

Definition findFiles_step (h : Host) (object : options)
  : search -> search -> Prop :=
  step (getAll_completed h) (getAll h) (findFiles_visit object) object.

Definition findDirectories_step (h : Host) (object : options)
  : search -> search -> Prop :=
  step (getDirectories_completed h) (getDirectories h)
       (findDirectories_visit object) object.

(** *** Mutating operations: create, createAsync, createDirectory, remove *)

(** The host's mkdir: it fails when the path exists or its parent is not a
    directory, and otherwise adds an empty directory. *)
Definition host_mkdir (h : Host) (p : path) : option Host :=
  if exists_ h p then None
  else
    match stat h (removelast p) with
    | Some KDirectory =>
        Some (MkHost (localMode h)
          (fun q => if path_eqb q p then Some KDirectory else stat h q)
          (fun q =>
             if path_eqb q p then Some []
             else if path_eqb q (removelast p)
             then option_map (fun l => l ++ [List.last p EmptyString])
                             (readdir h q)
             else readdir h q))
    | _ => None
    end.

(** The host's rmdir: it removes a directory that has no entry, and fails
    on anything else. *)
Definition host_rmdir (h : Host) (p : path) : option Host :=
  match stat h p, readdir h p with
  | Some KDirectory, Some [] =>
      Some (MkHost (localMode h)
        (fun q => if path_eqb q p then None else stat h q)
        (fun q =>
           if path_eqb q p then None
           else if path_eqb q (removelast p)
           then option_map
                  (List.filter
                     (fun n => negb (String.eqb n (List.last p EmptyString))))
                  (readdir h q)
           else readdir h q))
  | _, _ => None
  end.

(** The host and the calls made to it so far. *)
Record world : Type := World {
  host : Host;
  trace : list hostcall
}.

Definition called (cs : list hostcall) (w : world) : world :=
  World (host w) (trace w ++ cs).

Definition create (this : path) (w : world) : outcome status * world :=
  if negb (localMode (host w)) then (Returned ERROR_NOT_LOCAL_MODE, w)
  else
    let w1 := called [ExistsSync this] w in
    if exists_ (host w) this
    then (Returned ERROR_DIRECTORY_ALREADY_EXISTS, w1)
    else
      let w2 := called [MkdirSync this] w1 in
      match host_mkdir (host w) this with
      | Some h' => (Returned OK, World h' (trace w2))
      | None => (Threw (HostError (MkdirSync this)), w2)
      end.

(** A promise is settled by the first [resolve] or [reject] that reaches
    it; later ones change nothing. *)
Inductive settlement : Type :=
  | Resolved (s : status)
  | Rejected (e : exn).

Definition settle (v : settlement) (p : option settlement)
  : option settlement :=
  match p with None => Some v | Some _ => p end.

(** createAsync: the executor of the promise and the completion of the
    [fs.mkdir] it starts.  Neither [resolve] is followed by a [return], so
    the executor always goes on to the next statement.  The handle
    [DKTools.IO.fs] is taken to be the host file system in either mode. *)
Definition createAsync (this : path) (w : world)
  : option settlement * world :=
  let p0 : option settlement := None in
  let p1 := if negb (localMode (host w))
            then settle (Resolved ERROR_NOT_LOCAL_MODE) p0 else p0 in
  let w1 := called [ExistsSync this] w in
  let p2 := if exists_ (host w) this
            then settle (Resolved ERROR_DIRECTORY_ALREADY_EXISTS) p1 else p1 in
  let w2 := called [Mkdir this] w1 in
  match host_mkdir (host w) this with
  | Some h' => (settle (Resolved OK) p2, World h' (trace w2))
  | None => (settle (Rejected (HostError (Mkdir this))) p2, w2)
  end.

(** createDirectory and createDirectoryAsync.  [normalizePath this name]
    stands for [DKTools.IO.normalizePath(this.getFullPath() + '/' + name)];
    the name may hold separators and dots, so the path need not be a child
    of [this]. *)
Definition createDirectory (normalizePath : path -> string -> path)
    (this : path) (name : string) (w : world) : outcome status * world :=
  let fullPath := normalizePath this name in
  create fullPath w.

Definition createDirectoryAsync (normalizePath : path -> string -> path)
    (this : path) (name : string) (w : world) : option settlement * world :=
  let fullPath := normalizePath this name in
  createAsync fullPath w.

Definition isEmpty (h : Host) (this : path) : effect bool :=
  let r := getAll h this (Some sync_request) in
  match result r with
  | Threw e => Effect (Threw e) (calls r)
  | Returned env =>
      Effect (Returned match data env with
                       | None => true
                       | Some l => Nat.eqb (length l) 0
                       end)
             (calls r)
  end.

(** remove, up to its return.  In the asynchronous branch [fs.rmdir] has
    been called and the host has yet to complete it. *)
Definition remove (this : path) (object : option options) (w : world)
  : outcome status * world :=
  let object := match object with Some o => o | None => no_options end in
  if negb (localMode (host w)) then (Returned ERROR_NOT_LOCAL_MODE, w)
  else
    let w1 := called [ExistsSync this] w in
    if negb (exists_ (host w) this)
    then (Returned ERROR_PATH_DOES_NOT_EXIST, w1)
    else
      let r := isEmpty (host w) this in
      let w2 := called (calls r) w1 in
      match result r with
      | Threw e => (Threw e, w2)
      | Returned false => (Returned ERROR_DIRECTORY_IS_NOT_EMPTY, w2)
      | Returned true =>
          if sync object then
            let w3 := called [RmdirSync this] w2 in
            match host_rmdir (host w) this with
            | Some h' => (Returned OK, World h' (trace w3))
            | None => (Threw (HostError (RmdirSync this)), w3)
            end
          else (Returned WAIT_FOR_ASYNC_OPERATION, called [Rmdir this] w2)
      end.

(** The host completes the [fs.rmdir] of an asynchronous remove: the
    callback hands an error to [__processError], or OK to [object.onSuccess]
    when that is a function. *)
Definition remove_completed (this : path) (object : option options)
    (w : world) : option settlement * world :=
  let object := match object with Some o => o | None => no_options end in
  match host_rmdir (host w) this with
  | None => (Some (Rejected (HostError (Rmdir this))), w)
  | Some h' =>
      (if onSuccess object then Some (Resolved OK) else None,
       World h' (trace w))
  end.

(** Calls that change the host file system. *)
Definition mutates (c : hostcall) : bool :=
  match c with
  | MkdirSync _ | Mkdir _ | RmdirSync _ | Rmdir _ => true
  | _ => false
  end.

(** Calls that enumerate a directory. *)
Definition enumerates (c : hostcall) : option path :=
  match c with
  | ReaddirSync p | Readdir p => Some p
  | _ => None
  end.

Definition enumerated (cs : list hostcall) : list path :=
  flat_map (fun c => match enumerates c with Some p => [p] | None => [] end) cs.

Definition calls_of (evs : list event) : list hostcall :=
  flat_map (fun ev => match ev with Call c => [c] | Counters _ _ => [] end) evs.

(** *** Predicates used to state the properties *)

(** The least whole number that is not below the effective limit: the
    counter [total] is below the limit exactly when it is below this
    number. *)
Abbreviation limit_ceiling o := (Qceiling (effective_limit o)).

(** The limit is 1, or absent. *)
Definition limit_is_one (o : options) : Prop :=
  match searchLimit o with
  | None => True
  | Some q => Qeq q (inject_Z 1)
  end.

(** The counters of an event are within the budget [limit]. *)
Definition within_budget (limit : Z) (ev : event) : Prop :=
  match ev with
  | Counters t p => p <= t <= limit
  | Call _ => True
  end.

(** A history that ends with the counters at [t] and [p]: [total] starts
    at 1 with [processed] at 0, [total] is incremented only while below
    [limit], and [processed] only while below [total]. *)
Inductive budget_history (limit : Z) : list event -> Z -> Z -> Prop :=
  | bh_start cs :
      budget_history limit (map Call cs ++ [Counters 1 0]) 1 0
  | bh_calls evs t p cs :
      budget_history limit evs t p ->
      budget_history limit (evs ++ map Call cs) t p
  | bh_total evs t p :
      budget_history limit evs t p -> t < limit ->
      budget_history limit (evs ++ [Counters (t + 1) p]) (t + 1) p
  | bh_processed evs t p :
      budget_history limit evs t p -> p < t ->
      budget_history limit (evs ++ [Counters t (p + 1)]) t (p + 1).

(** A stretch of code ended, normally or not, in state [s']. *)
Definition finished (c : completion) (s' : search) : Prop :=
  c = Normal s' \/ exists e, c = Abrupt e s'.

(** What a [_.forEach] callback may do to the state before it calls
    [processDirectory]: test the template, push the entity or not, and
    increment [total] when it is below [limit], in which case it descends
    into the entity. *)
Definition visit_ok (limit : Z) (e : entity) (s s1 : search)
    (d : option path) : Prop :=
  exists p s0,
    (s0 = set_position p s \/ s0 = push e (set_position p s)) /\
    ((d = None /\ s1 = s0) \/
     (d = Some (getFullPath e) /\ total s0 < limit /\ s1 = incr_total s0)).

(** [s'] comes after [s] within one callback: the counters moved as
    [budget_history] allows and no callback of the caller was invoked. *)
Definition grows (limit : Z) (s s' : search) : Prop :=
  total s <= total s' /\
  processed s' = processed s /\
  delivered s' = delivered s /\
  failed s' = failed s /\
  (budget_history limit (history s) (total s) (processed s) ->
   budget_history limit (history s') (total s') (processed s')).

(** Every enumeration that was scheduled is pending, completed or failed. *)
Definition counted (s : search) : Prop :=
  processed s + Z.of_nat (length (pending s)) + Z.of_nat (length (failed s))
  = total s.

(** The success callback was not invoked and enumerations remain, or it
    was invoked once, with the collection and OK, and none remains. *)
Definition settled_once (s : search) : Prop :=
  (delivered s = [] /\ processed s < total s) \/
  (delivered s = [Envelope (Some (collected s)) OK] /\
   processed s = total s).

(** The invariant of an asynchronous search. *)
Definition coherent (limit : Z) (s : search) : Prop :=
  counted s /\ settled_once s /\
  budget_history limit (history s) (total s) (processed s).

(** The entities getAll builds from the names the host lists for [dir]. *)
Definition children (h : Host) (dir : path) (names : list string)
  : list entity :=
  flat_map (fun name =>
              match stat h (dir ++ [name]) with
              | Some KFile => [File (dir ++ [name])]
              | Some KDirectory => [Directory (dir ++ [name])]
              | _ => []
              end) names.

(** [t] is no RegExp with the [g] or the [y] flag: a test of it keeps no
    position. *)
Definition stateless (t : jsval) : bool :=
  match t with JRegExpGY _ _ => false | _ => true end.

(** What it is for a full name to match the template of a search, by the
    kind of the template: a RegExp matches the names its pattern matches
    (from the start of the name, for one with the [g] or [y] flag), a
    string the name equal to it, and a template that is absent or falsy
    ([undefined], [null], [false], [0], the empty string) every name; any
    other value matches no name. *)
Definition matches (t : jsval) (fullName : string) : bool :=
  match t with
  | JUndefined | JNull => true
  | JBool b => negb b
  | JNum z => z =? 0
  | JStr s => String.eqb s EmptyString || String.eqb fullName s
  | JRegExp test => test fullName
  | JRegExpGY exec _ =>
      match exec 0%nat fullName with Some _ => true | None => false end
  | JArr _ | JObj _ => false
  end.

(** The direct children of [dir] of one kind that match the template. *)
Definition direct_matches (keep : entity -> bool) (h : Host) (dir : path)
    (t : jsval) (names : list string) : list entity :=
  List.filter (fun e => keep e && matches t (getFullName e))
              (children h dir names).

(** The order of the precondition checks as the specification words it:
    options present, mode permitted, callback present when asynchronous,
    path exists. *)
Definition spec_precondition (h : Host) (this : path)
    (object : option options) : option status :=
  match object with
  | None => Some ERROR_OPTIONS_IS_NOT_AVAILABLE
  | Some o =>
      if negb (localMode h) then Some ERROR_NOT_LOCAL_MODE
      else if negb (sync o) && negb (onSuccess o)
      then Some ERROR_CALLBACK_IS_NOT_AVAILABLE
      else if negb (exists_ h this) then Some ERROR_PATH_DOES_NOT_EXIST
      else None
  end.

(** The order getAll follows: options present, mode permitted, path
    exists, callback present when asynchronous. *)
Definition getAll_precondition (h : Host) (this : path)
    (object : option options) : option status :=
  match object with
  | None => Some ERROR_OPTIONS_IS_NOT_AVAILABLE
  | Some o =>
      if negb (localMode h) then Some ERROR_NOT_LOCAL_MODE
      else if negb (exists_ h this) then Some ERROR_PATH_DOES_NOT_EXIST
      else if negb (sync o) && negb (onSuccess o)
      then Some ERROR_CALLBACK_IS_NOT_AVAILABLE
      else None
  end.

(** The order getFiles and getDirectories follow when given options:
    callback present when asynchronous, then mode permitted, then path
    exists. *)
Definition getKind_precondition (h : Host) (this : path) (o : options)
  : option status :=
  if negb (sync o) && negb (onSuccess o)
  then Some ERROR_CALLBACK_IS_NOT_AVAILABLE
  else if negb (localMode h) then Some ERROR_NOT_LOCAL_MODE
  else if negb (exists_ h this) then Some ERROR_PATH_DOES_NOT_EXIST
  else None.

(** The status a call reported by returning, if it returned an error. *)
Definition reported (r : outcome envelope) : option status :=
  match r with
  | Returned env =>
      match st env with
      | OK | WAIT_FOR_ASYNC_OPERATION => None
      | e => Some e
      end
  | Threw _ => None
  end.

Definition with_template (t : jsval) (o : options) : options :=
  Options (sync o) t (onSuccess o) (onError o) (searchLimit o).

(** What an asynchronous search guarantees from the state [s0] in which the
    find call returned.  In every state a run can reach: the success
    callback has not been invoked, or it was invoked once, with the
    collection and OK, when [processed] equalled [total] and no enumeration
    was pending or had failed; when nothing is pending and nothing failed,
    it has been invoked; after a failure it has not; and any pending
    enumeration can complete.  No run has more steps than [limit], or
    than one when [limit] is below one. *)
Definition completes_once (step : search -> search -> Prop) (limit : Z)
    (s0 : search) : Prop :=
  (forall s, rtc step s0 s ->
     (delivered s = [] \/
      delivered s = [Envelope (Some (collected s)) OK] /\
      processed s = total s /\ pending s = [] /\ failed s = []) /\
     (pending s = [] -> failed s = [] ->
      delivered s = [Envelope (Some (collected s)) OK]) /\
     (failed s <> [] -> delivered s = []) /\
     (pending s <> [] -> exists s', step s s')) /\
  (forall n s, nsteps step n s0 s -> Z.of_nat n <= Z.max 1 limit).

(** The state in which an asynchronous find returns. *)
Definition launched (enumerate : path -> option options -> effect envelope)
    (this : path) (o : options) : search :=
  record_calls (calls (enumerate this (Some (async_request o))))
               (initial [ExistsSync this]).

(** *** The promise wrappers *)

(** [{ ...object }] for an options argument that may be missing. *)
Definition spread (object : option options) : options :=
  match object with Some o => o | None => no_options end.

(** What a promise comes to once the host has completed what the executor
    started. *)
Inductive promise (A : Type) : Type :=
  | Pending
  | Fulfilled (a : A)
  | Broken (e : exn).
Arguments Pending {A}.
Arguments Fulfilled {A} a.
Arguments Broken {A} e.

(** [{ ...object, sync: false, onSuccess: resolve, onError: reject }]. *)
Definition bridge_request (object : option options) : options :=
  Options false (template (spread object)) true true
          (searchLimit (spread object)).

(** The executor shared by getAllAsync and the typed asynchronous getters:
    the result of the call resolves the promise unless it is the pending
    status, and then the callback does, with [resolve] as success callback
    and [reject] as error callback. *)
Definition bridge (r : effect envelope) (later : callback)
  : promise envelope :=
  match result r with
  | Threw e => Broken e
  | Returned env =>
      if status_eqb (st env) WAIT_FOR_ASYNC_OPERATION then
        match later with
        | CallSuccess res => Fulfilled res
        | CallError e => Broken e
        end
      else Fulfilled env
  end.

Definition getAllAsync (h : Host) (this : path) (object : option options)
  : promise envelope :=
  bridge (getAll h this (Some (bridge_request object)))
         (getAll_completed h this (bridge_request object)).

(** [.then(result => ...)] of getFilesAsync and getDirectoriesAsync. *)
Definition then_kind (keep : entity -> bool) (p : promise envelope)
  : promise envelope :=
  match p with
  | Fulfilled r =>
      Fulfilled (if status_eqb (st r) OK
                 then with_data (List.filter keep) r else r)
  | Pending => Pending
  | Broken e => Broken e
  end.

Definition getFilesAsync (h : Host) (this : path) (object : option options)
  : promise envelope :=
  then_kind isFile (getAllAsync h this object).

Definition getDirectoriesAsync (h : Host) (this : path)
    (object : option options) : promise envelope :=
  then_kind isDirectory (getAllAsync h this object).

(** removeAync: the status remove returns resolves the promise unless it
    is the pending status, and then the completion of [fs.rmdir] does. *)
Definition removeAync (this : path) (w : world) : promise status * world :=
  let request := Some (Options false JUndefined true true None) in
  match remove this request w with
  | (Threw e, w1) => (Broken e, w1)
  | (Returned s, w1) =>
      if status_eqb s WAIT_FOR_ASYNC_OPERATION then
        match remove_completed this request w1 with
        | (Some (Resolved s'), w2) => (Fulfilled s', w2)
        | (Some (Rejected e), w2) => (Broken e, w2)
        | (None, w2) => (Pending, w2)
        end
      else (Fulfilled s, w1)
  end.

(** *** Typed discovery *)

(** The characters [.] does not match.  Strings are taken as sequences of
    characters of one code unit, so the line terminators are line feed and
    carriage return. *)
Definition is_line_terminator (c : ascii) : bool :=
  Ascii.eqb c "010"%char || Ascii.eqb c "013"%char.

(** The test of the RegExp [/.literal/] for a literal of letters: somewhere
    in the name a character other than a line terminator is followed by the
    literal. *)
Fixpoint dot_then (literal name : string) : bool :=
  match name with
  | EmptyString => false
  | String c rest =>
      (negb (is_line_terminator c) && String.prefix literal rest)
      || dot_then literal rest
  end.

(** [/(.ogg|.rpgmvo)/], [/(.json)/], [/(.txt)/], [/(.png|.rpgmvp)/] and
    [/(.webm)/]. *)
Definition audio_template : jsval :=
  JRegExp (fun name => dot_then "ogg" name || dot_then "rpgmvo" name).
Definition json_template : jsval := JRegExp (dot_then "json").
Definition txt_template : jsval := JRegExp (dot_then "txt").
Definition image_template : jsval :=
  JRegExp (fun name => dot_then "png" name || dot_then "rpgmvp" name).
Definition video_template : jsval := JRegExp (dot_then "webm").

Definition getAudioFiles (h : Host) (this : path) (object : option options)
  : effect envelope :=
  getFiles h this (Some (with_template audio_template (spread object))).

Definition getJsonFiles (h : Host) (this : path) (object : option options)
  : effect envelope :=
  getFiles h this (Some (with_template json_template (spread object))).

Definition getTxtFiles (h : Host) (this : path) (object : option options)
  : effect envelope :=
  getFiles h this (Some (with_template txt_template (spread object))).

Definition getImageFiles (h : Host) (this : path) (object : option options)
  : effect envelope :=
  getFiles h this (Some (with_template image_template (spread object))).

Definition getVideoFiles (h : Host) (this : path) (object : option options)
  : effect envelope :=
  getFiles h this (Some (with_template video_template (spread object))).

(** The asynchronous typed getters: the bridge over the typed getter,
    whose wrapped success callback filters the files. *)
Definition typed_async
    (getter : Host -> path -> option options -> effect envelope)
    (t : jsval) (h : Host) (this : path) (object : option options)
  : promise envelope :=
  bridge (getter h this (Some (bridge_request object)))
         (getFiles_completed h this (with_template t (bridge_request object))).

Definition getAudioFilesAsync := typed_async getAudioFiles audio_template.
Definition getJsonFilesAsync := typed_async getJsonFiles json_template.
Definition getTxtFilesAsync := typed_async getTxtFiles txt_template.
Definition getImageFilesAsync := typed_async getImageFiles image_template.
Definition getVideoFilesAsync := typed_async getVideoFiles video_template.

(** loadAudioFiles, loadBitmaps and reserveBitmaps: the files of the typed
    getter called with [{ sync: true }] are handed to a loader of the
    resource layer; any status but OK gives the empty array. *)
Definition load_each {A : Type} (r : effect envelope) (loader : entity -> A)
  : outcome (list A) :=
  match result r with
  | Threw e => Threw e
  | Returned env =>
      if status_eqb (st env) OK then Returned (map loader (data_of env))
      else Returned []
  end.

Definition loadAudioFiles {A : Type} (loadAudio : entity -> A) (h : Host)
    (this : path) : outcome (list A) :=
  load_each (getAudioFiles h this (Some sync_request)) loadAudio.

Definition loadBitmaps {A : Type} (loadBitmap : entity -> A) (h : Host)
    (this : path) : outcome (list A) :=
  load_each (getImageFiles h this (Some sync_request)) loadBitmap.

Definition reserveBitmaps {A : Type} (reserveBitmap : entity -> A) (h : Host)
    (this : path) : outcome (list A) :=
  load_each (getImageFiles h this (Some sync_request)) reserveBitmap.

(** *** Further predicates used to state the properties *)

(** [p] is a path strictly below [root]. *)
Definition below (root p : path) : Prop :=
  exists q, q <> [] /\ p = root ++ q.

(** A search state and a find result with the collection restricted to
    the entities [keep] accepts. *)
Definition restrict_envelope (keep : entity -> bool) (r : envelope)
  : envelope :=
  Envelope (option_map (List.filter keep) (data r)) (st r).

Definition restrict_search (keep : entity -> bool) (s : search) : search :=
  Search (total s) (processed s) (List.filter keep (collected s))
         (pending s) (map (restrict_envelope keep) (delivered s))
         (failed s) (history s) (position s).

Definition restrict_found (keep : entity -> bool) (r : found) : found :=
  Found match returned r with
        | Returned env => Returned (restrict_envelope keep env)
        | Threw e => Threw e
        end
        (restrict_search keep (state r)).

(** The number of directory enumerations in a history. *)
Definition enumerations (s : search) : Z :=
  Z.of_nat (length (enumerated (calls_of (history s)))).

(** What it is for a name to pass the template of getAll, by the kind of
    the template: a RegExp lets through the names its pattern matches (from
    the start of the name, for one with the [g] or [y] flag), a string the
    name equal to it, and any other value every name. *)
Definition passes (t : jsval) (name : string) : bool :=
  match t with
  | JRegExp test => test name
  | JRegExpGY exec _ =>
      match exec 0%nat name with Some _ => true | None => false end
  | JStr s => String.eqb name s
  | _ => true
  end.

(** The test of a RegExp without the [g] and [y] flags. *)
Definition pattern_of (t : jsval) (name : string) : bool :=
  match t with JRegExp test => test name | _ => false end.

(** [l] holds exactly the files of [this] whose listed name passes
    [test]. *)
Definition files_named (h : Host) (this : path) (names : list string)
    (test : string -> bool) (l : list entity) : Prop :=
  forall e, In e l <->
    exists n, In n names /\ test n = true /\
              stat h (this ++ [n]) = Some KFile /\ e = File (this ++ [n]).

(** The files of [this] whose listed name passes [test], one for each such
    name and in the order of the listing. *)
Definition listed_files (h : Host) (this : path) (names : list string)
    (test : string -> bool) : list entity :=
  flat_map (fun n =>
              if test n then
                match stat h (this ++ [n]) with
                | Some KFile => [File (this ++ [n])]
                | _ => []
                end
              else []) names.

(** A promise has come to what a call returned: fulfilled with the value
    returned, or broken when the call threw. *)
Definition agree {A : Type} (r : outcome A) (p : promise A) : Prop :=
  match r, p with
  | Returned a, Fulfilled b => a = b
  | Threw _, Broken _ => True
  | _, _ => False
  end.

(** The options [{ sync: true, template }]. *)
Definition sync_with (t : jsval) : options := Options true t false false None.

(** *** Predicates on the searches *)

(** A stretch of code that did not run out of fuel leaves a state with
    [P], and an exception with [E] when it ends abruptly. *)
Definition ends (P : search -> Prop) (E : exn -> Prop) (c : completion)
  : Prop :=
  match c with
  | Normal s => P s
  | Abrupt e s => P s /\ E e
  | Exhausted => True
  end.

(** [p] is [root] or a path below it. *)
Definition within (root p : path) : Prop := exists q, p = root ++ q.

(** An entity a search from [root] with the template [t] may collect: of
    the kind the search is for, with a full name that passes the template
    test of the search at some [lastIndex], at a path below [root] where
    the host has that kind. *)
Definition selected (h : Host) (root : path) (t : jsval)
    (keep : entity -> bool) (k : kind) (e : entity) : Prop :=
  keep e = true /\
  (exists p, fst (selects t p (getFullName e)) = true) /\
  below root (getFullPath e) /\ stat h (getFullPath e) = Some k.

Definition map_completion (f : search -> search) (c : completion)
  : completion :=
  match c with
  | Normal s => Normal (f s)
  | Abrupt e s => Abrupt e (f s)
  | Exhausted => Exhausted
  end.

(** An entity an enumeration below [root] hands to the [_.forEach]
    callback: of a kind [inkind] lets through, below [root], and a file or
    a directory as the host has it. *)
Definition candidate (h : Host) (root : path) (inkind : entity -> bool)
    (e : entity) : Prop :=
  inkind e = true /\ below root (getFullPath e) /\
  stat h (getFullPath e) = Some (if isFile e then KFile else KDirectory).

(** The collection, and the data of every envelope delivered, hold only
    entities with [sel]; the pending enumerations are within [root]. *)
Definition collects (sel : entity -> Prop) (root : path) (s : search)
  : Prop :=
  Forall sel (collected s) /\
  Forall (fun env => forall l, data env = Some l -> Forall sel l)
         (delivered s) /\
  Forall (within root) (pending s).



(** *** findFilesAsync and findDirectoriesAsync *)

(** What the promise of findFilesAsync or findDirectoriesAsync has come to
    when the search its executor started is in the state [s].  The
    executor resolves the promise with the result of the find call unless
    that is the pending status; then the promise is settled by the first
    call of [resolve], which the search has as its success callback, or of
    [reject], which it has as its error callback.  An executor that throws
    breaks the promise. *)
Definition find_promise (r : found) (s : search) : promise envelope :=
  match returned r with
  | Threw e => Broken e
  | Returned env =>
      if status_eqb (st env) WAIT_FOR_ASYNC_OPERATION then
        match failed s, delivered s with
        | e :: _, _ => Broken e
        | [], res :: _ => Fulfilled res
        | [], [] => Pending
        end
      else Fulfilled env
  end.

(** The find call of the executor. *)
Definition findFilesAsync (h : Host) (this : path) (object : option options)
  : option found :=
  findFiles h this (Some (bridge_request object)).

Definition findDirectoriesAsync (h : Host) (this : path)
    (object : option options) : option found :=
  findDirectories h this (Some (bridge_request object)).

(** How the promise of a search from [s0] behaves over the run: pending
    while enumerations are pending and none has failed, fulfilled with the
    collection and OK when none is pending and none has failed, broken
    with the first failure, and unchanged once settled. *)
Definition settles_once (step : search -> search -> Prop) (r : found)
    (s0 : search) : Prop :=
  forall s, rtc step s0 s ->
    (pending s <> [] -> failed s = [] -> find_promise r s = Pending) /\
    (pending s = [] -> failed s = [] ->
     find_promise r s = Fulfilled (Envelope (Some (collected s)) OK)) /\
    (forall e l, failed s = e :: l -> find_promise r s = Broken e) /\
    (forall s', rtc step s s' -> find_promise r s <> Pending ->
       find_promise r s' = find_promise r s).

End Directory.

(** ** DKTools.Sprite.Arrow *)

Module Arrow.

Local Open Scope string_scope.

(** The values the type of an arrow takes: a string, [null] or
    [undefined].  On these [===] is equality, and a value is truthy when it
    is a string other than the empty one. *)
Inductive arrow_type : Type :=
  | Undefined
  | Null
  | Name (s : string).

Definition truthy (t : arrow_type) : bool :=
  match t with
  | Name s => negb (String.eqb s "")
  | _ => false
  end.

Definition strict_eq (a b : arrow_type) : bool :=
  match a, b with
  | Undefined, Undefined => true
  | Null, Null => true
  | Name s, Name s' => String.eqb s s'
  | _, _ => false
  end.

(** A frame: x, y, width and height. *)
Definition frame : Type := (Z * Z * Z * Z)%type.

(** getRect, up to the call of [DKTools.Utils.Rectangle.tryToRectangle],
    which is declared outside the modelled files: the four arguments it is
    given, [None] when they are left [undefined]. *)
Definition getRect (arrowType : arrow_type) : option frame :=
  let p := 24 in
  let q := p / 2 in
  let sx := 96 + p in
  let sy := p in
  match arrowType with
  | Name s =>
      if String.eqb s "up" then Some (sx + q, sy, p, q)
      else if String.eqb s "down" then Some (sx + q, sy + q + p, p, q)
      else if String.eqb s "left" then Some (sx, sy + q, q, p)
      else if String.eqb s "right" then Some (sx + q + p, sy + q, q, p)
      else None
  | _ => None
  end.

(** The calls an arrow makes on what it inherits. *)
Inductive call : Type :=
  | ButtonRefreshAll
  | SetFrame (r : option frame)
  | Start
  | Activate.

(** An arrow: its [_arrowType] and the inherited calls made so far. *)
Record sprite : Type := Sprite {
  arrowType : arrow_type;
  log : list call
}.

Definition called (c : call) (sp : sprite) : sprite :=
  Sprite (arrowType sp) (log sp ++ [c]).

Definition standardArrowType : arrow_type := Null.

Definition setupArrowType (type : arrow_type) (sp : sprite) : sprite :=
  Sprite (if truthy type then type else standardArrowType) (log sp).

Definition refreshArrow (sp : sprite) : sprite :=
  called (SetFrame (getRect (arrowType sp))) sp.

Definition refreshAll (sp : sprite) : sprite :=
  refreshArrow (called ButtonRefreshAll sp).

Definition setArrowType (type : arrow_type) (blockRefreshAll : bool)
    (sp : sprite) : bool * sprite :=
  if strict_eq (arrowType sp) type then (false, sp)
  else
    let lastType := arrowType sp in
    let sp1 := setupArrowType type sp in
    if strict_eq (arrowType sp1) lastType then (false, sp1)
    else (true, if negb blockRefreshAll then refreshAll sp1 else sp1).

(** setAll, after the call of [DKTools.Sprite.Button.prototype.setAll],
    which is declared outside the modelled files: [changed] is the number
    that call returned. *)
Definition setAll (changed : Z) (type : arrow_type)
    (blockStart activate : bool) (sp : sprite) : Z * sprite :=
  let block := true in
  let r := setArrowType type block sp in
  let changed := if fst r then changed + 1 else changed in
  let sp1 := snd r in
  if changed >? 0 then
    let sp2 := if negb blockStart then called Start sp1 else sp1 in
    let sp3 := if activate then called Activate sp2 else sp2 in
    (changed, sp3)
  else (changed, sp1).

(** Two frames share no point. *)
Definition disjoint (a b : frame) : Prop :=
  let '(ax, ay, aw, ah) := a in
  let '(bx, by_, bw, bh) := b in
  ax + aw <= bx \/ bx + bw <= ax \/ ay + ah <= by_ \/ by_ + bh <= ay.

End Arrow.

(** ** DKTools.Scene.Preloader *)

Module Preloader.

(** How a promise ends: fulfilled, rejected, or never settled. *)
Inductive fate : Type :=
  | Fulfils
  | Rejects
  | Never.

(** What add is given.  [DKTools.Utils.Bitmap.reserveAsync] and
    [DKTools.Utils.WebAudio.loadAsync] are declared outside the modelled
    files; each returns a promise, with the fate the resource carries
    here. *)
Inductive resource : Type :=
  | ABitmap (f : fate)
  | AWebAudio (f : fate)
  | APromise (f : fate)
  | Other.

Record preloader : Type := MkPreloader {
  queue : list fate;
  finished : bool;
  errors : Z
}.

Definition initialize : preloader := MkPreloader [] false 0.

Definition add (r : resource) (p : preloader) : preloader :=
  match r with
  | ABitmap f | AWebAudio f | APromise f =>
      MkPreloader (queue p ++ [f]) (finished p) (errors p)
  | Other => p
  end.

Definition addMany (rs : list resource) (p : preloader) : preloader :=
  fold_left (fun p r => add r p) rs p.

Definition finish (p : preloader) : preloader :=
  MkPreloader [] true (errors p).

Definition hasErrors (p : preloader) : bool := errors p >? 0.

Definition isReady (p : preloader) : bool := finished p.

Definition onError (p : preloader) : preloader :=
  MkPreloader (queue p) (finished p) (errors p + 1).

Definition fulfils (f : fate) : bool :=
  match f with Fulfils => true | _ => false end.

Definition rejects (f : fate) : bool :=
  match f with Rejects => true | _ => false end.

(** start, with all that it sets going: the handler given to [catch] runs
    once for every promise of the queue that is rejected, and the one given
    to [then] runs when [Promise.all] is fulfilled, which is when every
    promise of the queue is.  The state is the one reached when nothing
    more is to come and no other method was called meanwhile. *)
Definition start (p : preloader) : preloader :=
  let promises := queue p in
  let p1 := fold_left (fun p f => if rejects f then onError p else p)
                      promises p in
  if forallb fulfils promises then finish p1 else p1.

(** The promises the resources bring, in order. *)
Definition promises_of (rs : list resource) : list fate :=
  flat_map (fun r => match r with
                     | ABitmap f | AWebAudio f | APromise f => [f]
                     | Other => []
                     end) rs.

End Preloader.

(** ** Concrete hosts and codecs used in the examples *)

Module Examples.
Import Directory.

Local Open Scope string_scope.

(** [s] ends with [suffix]: the RegExp [/suffix$/] for a literal suffix. *)
Definition ends_with (suffix s : string) : bool :=
  let n := String.length s in
  let m := String.length suffix in
  (m <=? n)%nat && String.eqb (String.substring (n - m) m s) suffix.

(** The template [/\.txt$/]. *)
Definition txt : jsval := JRegExp (ends_with ".txt").

(** A root directory holding the files a.txt and b.png and the directory
    sub, which holds the file c.txt.  [listing] is the order in which the
    host lists the root. *)
Definition tree_stat (p : path) : option kind :=
  if path_eqb p ["root"] then Some KDirectory
  else if path_eqb p ["root"; "a.txt"] then Some KFile
  else if path_eqb p ["root"; "b.png"] then Some KFile
  else if path_eqb p ["root"; "sub"] then Some KDirectory
  else if path_eqb p ["root"; "sub"; "c.txt"] then Some KFile
  else None.

Definition tree_readdir (listing : list string) (p : path)
  : option (list string) :=
  if path_eqb p ["root"] then Some listing
  else if path_eqb p ["root"; "sub"] then Some ["c.txt"]
  else None.

Definition tree (listing : list string) : Host :=
  MkHost true tree_stat (tree_readdir listing).

Definition tree_abc : Host := tree ["a.txt"; "b.png"; "sub"].

(** The same tree on a host that fails to enumerate the root. *)
Definition unreadable : Host := MkHost true tree_stat (fun _ => None).

Definition a_txt : entity := File ["root"; "a.txt"].
Definition b_png : entity := File ["root"; "b.png"].
Definition c_txt : entity := File ["root"; "sub"; "c.txt"].
Definition sub : entity := Directory ["root"; "sub"].

(** The options of the examples: [/\.txt$/] with a budget of two
    directories, synchronous and asynchronous. *)
Definition find_txt_sync : options :=
  Options true txt false false (Some (inject_Z 2)).
Definition find_txt_async : options :=
  Options false txt true true (Some (inject_Z 2)).

(** The options [{ sync: true }]: no template, the default budget. *)
Definition find_default : options := Options true JUndefined false false None.

(** The options [{ sync: true, searchLimit: -1 }]. *)
Definition find_negative : options :=
  Options true JUndefined false false (Some (inject_Z (-1))).

(** The options [{ sync: true, searchLimit: 1.5 }]. *)
Definition find_fraction : options :=
  Options true JUndefined false false (Some (3 # 2)%Q).

(** The template [/\.(txt|png)$/g] with lastIndex 0: a match has to start
    at lastIndex or after it, and moves lastIndex to the end of the
    name. *)
Definition txt_or_png_g : jsval :=
  JRegExpGY (fun lastIndex s =>
               if (ends_with ".txt" s || ends_with ".png" s)
                  && (lastIndex + 4 <=? String.length s)%nat
               then Some (String.length s) else None)
            0.

(** The options [{ sync: true, template: /\.(txt|png)$/g }]. *)
Definition find_txt_or_png_g : options :=
  Options true txt_or_png_g false false None.

(** A path normalizer for the examples: the segments of the name between
    its slashes, the empty ones left out, after the segments of the
    directory. *)
Fixpoint segments (s : string) : list string :=
  match s with
  | EmptyString => [EmptyString]
  | String c rest =>
      if Ascii.eqb c "/"%char then EmptyString :: segments rest
      else match segments rest with
           | segment :: more => String c segment :: more
           | [] => [String c EmptyString]
           end
  end.

Definition normalizePath (this : path) (name : string) : path :=
  this ++ List.filter (fun segment => negb (String.eqb segment EmptyString))
                      (segments name).

(** The example tree on a host outside local mode. *)
Definition sandboxed : Host :=
  MkHost false tree_stat (tree_readdir ["a.txt"; "b.png"; "sub"]).

(** Codecs for the literals null, true and false, with a one-character
    marker standing for the compression. *)
Definition literal_stringify (v : jsval) : jsval :=
  match v with
  | JNull => JStr "null"
  | JBool true => JStr "true"
  | JBool false => JStr "false"
  | _ => JUndefined
  end.

Definition literal_parse (v : jsval) : option jsval :=
  match v with
  | JStr s =>
      if String.eqb s "null" then Some JNull
      else if String.eqb s "true" then Some (JBool true)
      else if String.eqb s "false" then Some (JBool false)
      else None
  | JNull => Some JNull
  | _ => None
  end.

Definition marker_compress (v : jsval) : string :=
  match v with
  | JStr s => String "z"%char s
  | _ => EmptyString
  end.

Definition marker_decompress (s : string) : option jsval :=
  match s with
  | String "z"%char rest => Some (JStr rest)
  | _ => Some JNull
  end.

(** The members [localStorage] inherits in a browser: those of
    [Storage.prototype] and those of [Object.prototype]. *)
Definition storage_members : list string :=
  ["length"; "key"; "getItem"; "setItem"; "removeItem"; "clear";
   "constructor"; "hasOwnProperty"; "isPrototypeOf";
   "propertyIsEnumerable"; "toLocaleString"; "toString"; "valueOf";
   "__proto__"; "__defineGetter__"; "__defineSetter__";
   "__lookupGetter__"; "__lookupSetter__"].

Definition is_storage_member (key : string) : bool :=
  existsb (String.eqb key) storage_members.

Definition literal_codecs : WebStorage.Codecs :=
  WebStorage.MkCodecs literal_stringify literal_parse
    marker_compress marker_decompress (fun _ => "[object]")
    is_storage_member.

End Examples.

(** ** Properties of DKTools.IO.WebStorage *)

Module WebStorageProps.
Import WebStorage.

Lemma exists_true c (ls : storage) key :
  exists_ c ls key = true <-> is_Some (ls !! key) /\ inherited c key = false.
Proof.
  unfold exists_. rewrite andb_true_iff, bool_decide_eq_true, negb_true_iff.
  reflexivity.
Qed.

Lemma exists_false c (ls : storage) key :
  exists_ c ls key = false <-> ls !! key = None \/ inherited c key = true.
Proof.
  unfold exists_. rewrite andb_false_iff, bool_decide_eq_false, negb_false_iff.
  split; intros [H | H]; auto; left.
  - destruct (ls !! key) eqn:E; [|reflexivity]. exfalso. apply H. eauto.
  - rewrite H. intros [x Hx]. discriminate.
Qed.

Lemma exists_held c (ls : storage) key x :
  ls !! key = Some x -> inherited c key = false -> exists_ c ls key = true.
Proof. intros H Hi. apply exists_true. eauto. Qed.

Lemma exists_setItem c (ls : storage) key v :
  inherited c key = false -> exists_ c (setItem c ls key v) key = true.
Proof.
  intros Hi. apply exists_true. split; [|exact Hi].
  unfold setItem. rewrite lookup_insert_eq. eauto.
Qed.

Lemma exists_removeItem c (ls : storage) key :
  exists_ c (removeItem ls key) key = false.
Proof.
  apply exists_false. left. unfold removeItem. apply lookup_delete_eq.
Qed.

Lemma getItem_setItem c (ls : storage) key v :
  getItem (setItem c ls key v) key = JStr (ToString c v).
Proof. unfold getItem, setItem. by rewrite lookup_insert_eq. Qed.

Lemma eqb_empty_false s :
  s <> EmptyString -> String.eqb s EmptyString = false.
Proof. intros H. apply String.eqb_neq. exact H. Qed.

(** The guard of save and rename lets the write through. *)
Lemma overwrite_guard c (ls : storage) key (ow : option bool) :
  (ow = Some false -> ls !! key = None) ->
  negb (match ow with Some b => b | None => true end) && exists_ c ls key
  = false.
Proof.
  intros How. destruct ow as [[|]|]; simpl; auto.
  apply exists_false. left. apply How. reflexivity.
Qed.

(** Saving a JSON-serializable value under a key that names no inherited
    member, with the stringify and compress stages, then loading that key
    with the decompress and parse stages, returns OK both times and gives
    the value back. *)
Lemma save_load_roundtrip c (ls : storage) key v ow :
  inherited c key = false ->
  lz_roundtrip c ->
  json_serializable c v ->
  (ow = Some false -> ls !! key = None) ->
  exists ls',
    save c ls key v (Some (SaveOptions ow true true)) = (OK, ls') /\
    load c ls' key (LoadOptions true true) = Envelope v OK.
Proof.
  intros Hi Hlz (s & Hs & Hp) How.
  destruct (Hlz s) as [Hne Hdec].
  unfold save; simpl. rewrite (overwrite_guard c ls key ow How), Hs.
  eexists; split; [reflexivity|].
  unfold load. rewrite (exists_setItem _ _ _ _ Hi), getItem_setItem. simpl.
  rewrite (eqb_empty_false _ Hne). simpl.
  rewrite Hdec, Hp. reflexivity.
Qed.

(** C9 fails on a key that names a member the store inherits.  Under the
    key length, the value true, which is JSON-serializable for codecs
    whose compression round-trips, is saved with both stages: save
    returns OK and the store holds the compressed text, which getItem
    gives back.  But exists is false for that key, and loading it with
    both stages reports ERROR_PATH_DOES_NOT_EXIST with null data instead
    of OK with true; remove reports the same and leaves the entry. *)
Theorem save_load_loses_inherited_key :
  json_serializable Examples.literal_codecs (JBool true) /\
  lz_roundtrip Examples.literal_codecs /\
  exists ls',
    save Examples.literal_codecs ∅ "length"%string (JBool true)
         (Some (SaveOptions None true true)) = (OK, ls') /\
    getItem ls' "length"%string = JStr "ztrue" /\
    exists_ Examples.literal_codecs ls' "length"%string = false /\
    load Examples.literal_codecs ls' "length"%string (LoadOptions true true)
    = Envelope JNull ERROR_PATH_DOES_NOT_EXIST /\
    remove Examples.literal_codecs ls' "length"%string
    = (ERROR_PATH_DOES_NOT_EXIST, ls').
Proof.
  split; [exists "true"%string; split; reflexivity|].
  split; [intros s; split; [discriminate | reflexivity]|].
  eexists. split; [reflexivity|].
  split; [vm_compute; reflexivity|].
  split; [vm_compute; reflexivity|].
  split; reflexivity.
Qed.

(** C10.  Renaming an existing key to itself with overwriting allowed
    returns OK and deletes the entry: the key no longer exists, its value
    is gone, and a load reports that the path does not exist. *)
Theorem rename_same_key_deletes c (ls : storage) k o :
  exists_ c ls k = true ->
  exists ls',
    rename c ls k k true = (OK, ls') /\
    exists_ c ls' k = false /\
    ls' !! k = None /\
    load c ls' k o = Envelope JNull ERROR_PATH_DOES_NOT_EXIST.
Proof.
  intros Hex. unfold rename. rewrite Hex. simpl.
  eexists; split; [reflexivity|].
  assert (H : exists_ c (removeItem (setItem c ls k (getItem ls k)) k) k
              = false)
    by apply exists_removeItem.
  split; [exact H|]. split.
  - unfold removeItem. apply lookup_delete_eq.
  - unfold load. rewrite H. reflexivity.
Qed.

Lemma rename_same_key_deletes_witness :
  exists ls',
    rename Examples.literal_codecs {[ "slot"%string := "data"%string ]}
           "slot"%string "slot"%string true = (OK, ls') /\
    exists_ Examples.literal_codecs ls' "slot"%string = false /\
    ls' !! "slot"%string = None /\
    load Examples.literal_codecs ls' "slot"%string (LoadOptions false false)
    = Envelope JNull ERROR_PATH_DOES_NOT_EXIST.
Proof.
  apply (rename_same_key_deletes Examples.literal_codecs
           {[ "slot"%string := "data"%string ]} "slot"%string
           (LoadOptions false false)).
  vm_compute. reflexivity.
Defined.

End WebStorageProps.

(** ** Properties of DKTools.IO.Directory *)

Module DirectoryProps.
Import Directory.

(** *** Histories and the relation between states of one callback *)

Lemma calls_within_budget limit cs :
  Forall (within_budget limit) (map Call cs).
Proof. induction cs; simpl; constructor; simpl; auto. Qed.

Lemma budget_history_bounds limit evs t p :
  budget_history limit evs t p ->
  0 <= p <= t /\ 1 <= t <= Z.max 1 limit /\
  Forall (within_budget (Z.max 1 limit)) evs.
Proof.
  induction 1 as [cs | evs t p cs _ IH | evs t p _ IH Hlt | evs t p _ IH Hlt].
  - repeat split; try lia.
    apply Forall_app; split.
    + induction cs; simpl; constructor; simpl; auto.
    + repeat constructor; simpl; lia.
  - destruct IH as (Hp & Ht & Hall). repeat split; try lia.
    apply Forall_app; split; [exact Hall|].
    induction cs; simpl; constructor; simpl; auto.
  - destruct IH as (Hp & Ht & Hall). repeat split; try lia.
    apply Forall_app; split; [exact Hall|].
    repeat constructor; simpl; lia.
  - destruct IH as (Hp & Ht & Hall). repeat split; try lia.
    apply Forall_app; split; [exact Hall|].
    repeat constructor; simpl; lia.
Qed.

Lemma grows_refl limit s : grows limit s s.
Proof. unfold grows. repeat split; auto; lia. Qed.

Lemma grows_trans limit s1 s2 s3 :
  grows limit s1 s2 -> grows limit s2 s3 -> grows limit s1 s3.
Proof.
  intros (Ht & Hp & Hd & Hf & Hb) (Ht' & Hp' & Hd' & Hf' & Hb').
  unfold grows. repeat split; try congruence; try lia.
  intros H. apply Hb'. apply Hb. exact H.
Qed.

Lemma grows_push limit e s : grows limit s (push e s).
Proof. unfold grows; simpl. repeat split; auto; lia. Qed.

Lemma grows_incr_total limit s :
  total s < limit -> grows limit s (incr_total s).
Proof.
  intros Hlt. unfold grows; simpl. repeat split; auto; try lia.
  intros H. apply bh_total; assumption.
Qed.

Lemma grows_record_calls limit cs s : grows limit s (record_calls cs s).
Proof.
  unfold grows; simpl. repeat split; auto; try lia.
  intros H. apply bh_calls. exact H.
Qed.

Lemma set_position_same s : set_position (position s) s = s.
Proof. destruct s; reflexivity. Qed.

Lemma grows_position limit p s : grows limit s (set_position p s).
Proof. unfold grows; simpl. repeat split; auto; lia. Qed.

Lemma visit_ok_grows limit e s s1 d :
  visit_ok limit e s s1 d -> grows limit s s1.
Proof.
  intros (p & s0 & Hs0 & Hd).
  assert (H0 : grows limit s s0).
  { destruct Hs0 as [-> | ->]; [apply grows_position|].
    eapply grows_trans; [apply grows_position | apply grows_push]. }
  destruct Hd as [[_ ->] | (_ & Hlt & ->)]; [exact H0|].
  eapply grows_trans; [exact H0|]. apply grows_incr_total. exact Hlt.
Qed.

Lemma visit_ok_total limit e s s1 d :
  visit_ok limit e s s1 d ->
  pending s1 = pending s /\
  match d with
  | None => total s1 = total s
  | Some p => p = getFullPath e /\ total s < limit /\ total s1 = total s + 1
  end.
Proof.
  intros (q & s0 & Hs0 & Hd).
  assert (H0 : total s0 = total s /\ pending s0 = pending s).
  { destruct Hs0 as [-> | ->]; simpl; auto. }
  destruct H0 as [H0 H0'].
  destruct Hd as [[-> ->] | (-> & Hlt & ->)]; simpl; split; auto.
  repeat split; lia.
Qed.

Lemma below_limit_ceiling t o :
  below_limit t (effective_limit o) = (t <? limit_ceiling o).
Proof.
  unfold below_limit.
  generalize (effective_limit o). intros l.
  destruct (t <? Qceiling l) eqn:E.
  - apply Z.ltb_lt in E. apply negb_true_iff.
    destruct (Qle_bool l (inject_Z t)) eqn:F; [|reflexivity].
    apply Qle_bool_iff in F. exfalso.
    pose proof (Qceiling_lt l) as H.
    assert (H1 : (inject_Z t <= inject_Z (Qceiling l - 1))%Q)
      by (rewrite <- Zle_Qle; lia).
    apply (Qlt_irrefl l).
    eapply Qle_lt_trans; [exact F|]. eapply Qle_lt_trans; eassumption.
  - apply Z.ltb_ge in E. apply negb_false_iff. apply Qle_bool_iff.
    eapply Qle_trans; [apply Qle_ceiling|]. rewrite <- Zle_Qle. exact E.
Qed.

Lemma findFiles_visit_ok object e s :
  visit_ok (limit_ceiling object) e s
           (fst (findFiles_visit object e s)) (snd (findFiles_visit object e s)).
Proof.
  unfold findFiles_visit. rewrite ?below_limit_ceiling. cbv zeta.
  destruct (isFile e).
  - destruct (selects _ _ _) as [b p]; cbn [fst snd].
    destruct b; cbn [fst snd].
    + exists p, (push e (set_position p s)). auto.
    + exists p, (set_position p s). auto.
  - exists (position s), s. rewrite set_position_same.
    destruct (total s <? limit_ceiling object) eqn:Hlt; simpl.
    + destruct (isDirectory e); simpl.
      * split; [auto|]. right. apply Z.ltb_lt in Hlt. auto.
      * auto.
    + auto.
Qed.

Lemma findDirectories_visit_ok object e s :
  visit_ok (limit_ceiling object) e s
           (fst (findDirectories_visit object e s))
           (snd (findDirectories_visit object e s)).
Proof.
  unfold findDirectories_visit. rewrite ?below_limit_ceiling. cbv zeta.
  destruct (selects _ _ _) as [b p]; cbn [fst snd].
  set (s1 := if b then push e (set_position p s) else set_position p s).
  assert (Hs1 : s1 = set_position p s \/ s1 = push e (set_position p s)).
  { subst s1. destruct b; auto. }
  destruct (total s1 <? limit_ceiling object) eqn:Hlt; simpl.
  - exists p, s1. split; [exact Hs1|]. right. apply Z.ltb_lt in Hlt. auto.
  - exists p, s1. auto.
Qed.

(** *** The loop over the entities of one directory *)

Lemma forEach_invariant (R : search -> search -> Prop) (ok : entity -> Prop)
    visit rec :
  (forall s, R s s) ->
  (forall s1 s2 s3, R s1 s2 -> R s2 s3 -> R s1 s3) ->
  (forall e s1 s2, ok e -> visit e s1 = (s2, None) -> R s1 s2) ->
  forall data s,
    (forall e s1 s2 p, ok e -> R s s1 -> visit e s1 = (s2, Some p) ->
       exists s3, finished (rec p s2) s3 /\ R s1 s3) ->
    Forall ok data ->
    exists s', finished (forEach visit rec data s) s' /\ R s s'.
Proof.
  intros Hrefl Htrans Hnone data.
  induction data as [|e rest IH]; intros s Hsome Hok; simpl.
  - exists s. split; [left; reflexivity | apply Hrefl].
  - inversion Hok as [|? ? Hoke Hokrest]; subst.
    destruct (visit e s) as [s1 [p|]] eqn:Hv.
    + destruct (Hsome e s s1 p Hoke (Hrefl s) Hv) as (s3 & Hfin & HR).
      destruct Hfin as [Hn | [x Ha]].
      * rewrite Hn.
        destruct (IH s3) as (s' & Hfin' & HR'); [|exact Hokrest|].
        { intros e' s1' s2' p' Hoke' HR1 Hv'.
          apply (Hsome e' s1' s2' p' Hoke'); [|exact Hv'].
          eapply Htrans; eassumption. }
        exists s'. split; [exact Hfin'|]. eapply Htrans; eassumption.
      * rewrite Ha. exists s3. split; [right; eauto | exact HR].
    + assert (HR : R s s1) by (eapply Hnone; eassumption).
      destruct (IH s1) as (s' & Hfin' & HR'); [|exact Hokrest|].
      { intros e' s1' s2' p' Hoke' HR1 Hv'.
        apply (Hsome e' s1' s2' p' Hoke'); [|exact Hv'].
        eapply Htrans; eassumption. }
      exists s'. split; [exact Hfin'|]. eapply Htrans; eassumption.
Qed.

Lemma forEach_normal visit rec data :
  (forall p s, exists s', rec p s = Normal s') ->
  forall s, exists s', forEach visit rec data s = Normal s'.
Proof.
  intros Hrec. induction data as [|e rest IH]; intros s; simpl.
  - eauto.
  - destruct (visit e s) as [s1 [p|]].
    + destruct (Hrec p s1) as [s2 ->]. apply IH.
    + apply IH.
Qed.

(** *** The search, for any enumeration and any callback body *)

Section Search.

Variable h : Host.
Variable enumerate : path -> option options -> effect envelope.
Variable completed : path -> options -> callback.
Variable visit : entity -> search -> search * option path.
Variable object : options.
Variable limit : Z.

Hypothesis visit_spec :
  forall e s, visit_ok limit e s (fst (visit e s)) (snd (visit e s)).
Hypothesis sync_starts_nothing :
  forall d, started (calls (enumerate d (Some sync_request))) = [].
Hypothesis async_returns :
  forall d, exists env,
    result (enumerate d (Some (async_request object))) = Returned env.
Hypothesis async_starts :
  forall d, exists_ h d = true ->
    started (calls (enumerate d (Some (async_request object)))) = [d].
Hypothesis completed_descendable :
  forall d env, completed d (async_request object) = CallSuccess env ->
    Forall (fun e => forall s, snd (visit e s) <> None ->
                     exists_ h (getFullPath e) = true) (data_of env).

Local Abbreviation step := (Directory.step completed enumerate visit object).

Lemma visit_none e s s1 : visit e s = (s1, None) -> grows limit s s1 /\ pending s1 = pending s.
Proof.
  intros Hv. pose proof (visit_spec e s) as Hok. rewrite Hv in Hok. simpl in Hok.
  split; [eapply visit_ok_grows; exact Hok|].
  apply visit_ok_total in Hok. tauto.
Qed.

Lemma visit_some e s s1 p :
  visit e s = (s1, Some p) ->
  grows limit s s1 /\ pending s1 = pending s /\
  p = getFullPath e /\ total s < limit /\ total s1 = total s + 1.
Proof.
  intros Hv. pose proof (visit_spec e s) as Hok. rewrite Hv in Hok. simpl in Hok.
  split; [eapply visit_ok_grows; exact Hok|].
  apply visit_ok_total in Hok. tauto.
Qed.

(** The synchronous branch never runs out of fuel when given more than
    the budget that is left, and only moves the counters as allowed. *)
Lemma processDirectory_sync_fuel fuel :
  forall d s,
    Z.max 0 (limit - total s) < Z.of_nat fuel ->
    exists s',
      finished (processDirectory_sync enumerate visit fuel d s) s' /\
      grows limit s s' /\ pending s' = pending s.
Proof.
  induction fuel as [|fuel IH]; intros d s Hfuel; [lia|].
  simpl.
  set (r := enumerate d (Some sync_request)).
  assert (H1 : grows limit s (record_calls (calls r) s) /\
               pending (record_calls (calls r) s) = pending s).
  { split; [apply grows_record_calls|]. simpl. subst r.
    rewrite sync_starts_nothing. apply app_nil_r. }
  destruct (result r) as [env|e].
  - destruct (forEach_invariant
                (fun a b => grows limit a b /\ pending b = pending a)
                (fun _ => True) visit
                (processDirectory_sync enumerate visit fuel))
      with (data := data_of env) (s := record_calls (calls r) s)
      as (s' & Hfin & Hg & Hp).
    + intros a. split; [apply grows_refl | reflexivity].
    + intros a b c [Hab Hab'] [Hbc Hbc']. split; [|congruence].
      eapply grows_trans; eassumption.
    + intros e a b _ Hv. apply visit_none in Hv. exact Hv.
    + intros e a b p _ [Hga Hpa] Hv.
      apply visit_some in Hv. destruct Hv as (Hgb & Hpb & _ & Hlt & Htot).
      destruct (IH p b) as (c & Hfin & Hgc & Hpc).
      { destruct Hga as (Hle & _). destruct H1 as [(Hle1 & _) _]. lia. }
      exists c. split; [exact Hfin|]. split; [|congruence].
      eapply grows_trans; eassumption.
    + apply Forall_forall. auto.
    + exists s'. split; [exact Hfin|]. destruct H1 as [H1 H1']. split; [|congruence].
      eapply grows_trans; eassumption.
  - exists (record_calls (calls r) s). split; [right; eauto | exact H1].
Qed.

Lemma processDirectory_async_normal d s :
  processDirectory_async enumerate object d s
  = Normal (record_calls (calls (enumerate d (Some (async_request object)))) s).
Proof.
  unfold processDirectory_async. destruct (async_returns d) as [env ->].
  reflexivity.
Qed.

(** The asynchronous [processData]: it ends normally, and schedules one
    enumeration for each increment of [total]. *)
Lemma processData_async_counts data s :
  Forall (fun e => forall s, snd (visit e s) <> None ->
                   exists_ h (getFullPath e) = true) data ->
  exists s',
    forEach visit (processDirectory_async enumerate object) data s = Normal s' /\
    grows limit s s' /\
    Z.of_nat (length (pending s')) - Z.of_nat (length (pending s))
    = total s' - total s.
Proof.
  intros Hok.
  destruct (forEach_normal visit (processDirectory_async enumerate object) data)
    with (s := s) as [s' Hn].
  { intros p a. rewrite processDirectory_async_normal. eauto. }
  exists s'. split; [exact Hn|].
  destruct (forEach_invariant
              (fun a b => grows limit a b /\
                 Z.of_nat (length (pending b)) - Z.of_nat (length (pending a))
                 = total b - total a)
              (fun e => forall s, snd (visit e s) <> None ->
                        exists_ h (getFullPath e) = true)
              visit (processDirectory_async enumerate object))
    with (data := data) (s := s) as (s'' & Hfin & HR).
  - intros a. split; [apply grows_refl | lia].
  - intros a b c [Hab Hab'] [Hbc Hbc']. split; [|lia].
    eapply grows_trans; eassumption.
  - intros e a b _ Hv. pose proof (visit_none _ _ _ Hv) as [Hg Hp].
    split; [exact Hg|]. rewrite Hp.
    pose proof (visit_spec e a) as Hvo. rewrite Hv in Hvo. simpl in Hvo.
    apply visit_ok_total in Hvo. lia.
  - intros e a b p Hex _ Hv.
    pose proof (visit_some _ _ _ _ Hv) as (Hg & Hp & Hpath & Hlt & Htot).
    assert (Hexists : exists_ h p = true).
    { subst p. apply (Hex a). rewrite Hv. discriminate. }
    rewrite processDirectory_async_normal.
    eexists. split; [left; reflexivity|]. split.
    + eapply grows_trans; [exact Hg | apply grows_record_calls].
    + simpl. rewrite (async_starts p Hexists), length_app, Hp. simpl. lia.
  - exact Hok.
  - rewrite Hn in Hfin. destruct Hfin as [Heq | [x Heq]]; [|discriminate].
    inversion Heq; subst. exact HR.
Qed.

Lemma complete_normal d s :
  exists s', complete completed enumerate visit object d s = Normal s'.
Proof.
  unfold complete. destruct (completed d (async_request object)) as [e|r].
  - eauto.
  - unfold onSuccess_closure.
    destruct (forEach_normal visit (processDirectory_async enumerate object)
                (data_of r)) with (s := incr_processed s) as [s2 ->].
    { intros p a. rewrite processDirectory_async_normal. eauto. }
    destruct (total s2 =? processed s2); eauto.
Qed.

(** Any pending enumeration can complete. *)
Lemma step_progress s :
  pending s <> [] -> exists s', step s s'.
Proof.
  destruct (pending s) as [|d after] eqn:Hp; [congruence|]. intros _.
  destruct (complete_normal d (set_pending ([] ++ after) s)) as [s' Hs'].
  exists s'. eapply step_complete with (before := []); eauto.
Qed.

Lemma pending_positive s before (d : path) after :
  pending s = before ++ d :: after ->
  Z.of_nat (length (pending s))
  = Z.of_nat (length (before ++ after)) + 1.
Proof. intros ->. rewrite !length_app. simpl. lia. Qed.

(** A step keeps the invariant, and counts as one more completion. *)
Lemma step_coherent s s' :
  coherent limit s -> step s s' ->
  coherent limit s' /\
  processed s' + Z.of_nat (length (failed s'))
  = processed s + Z.of_nat (length (failed s)) + 1.
Proof.
  intros (Hc & Hs & Hb) Hstep.
  destruct Hstep as [s before d after s' Hpend Hcomp].
  pose proof (pending_positive _ _ _ _ Hpend) as Hlen.
  unfold counted in Hc.
  assert (Hlt : processed s < total s) by lia.
  assert (Hdel : delivered s = []).
  { destruct Hs as [[H _] | [_ H]]; [exact H | lia]. }
  unfold complete in Hcomp.
  destruct (completed d (async_request object)) as [e|r] eqn:Hcb.
  - inversion Hcomp; subst s'; clear Hcomp. split.
    + repeat split.
      * unfold counted; simpl. rewrite !length_app in *. simpl. lia.
      * left. simpl. auto.
      * simpl. exact Hb.
    + simpl. rewrite !length_app in *. simpl. lia.
  - unfold onSuccess_closure in Hcomp.
    set (s0 := set_pending (before ++ after) s) in *.
    destruct (processData_async_counts (data_of r) (incr_processed s0))
      as (s2 & Hfe & (Ht & Hp & Hd & Hf & Hbh) & Hcount).
    { eapply completed_descendable. exact Hcb. }
    rewrite Hfe in Hcomp. subst s0. simpl in Ht, Hp, Hd, Hf, Hbh, Hcount.
    assert (Hb2 : budget_history limit (history s2) (total s2) (processed s2)).
    { apply Hbh. apply bh_processed; assumption. }
    assert (Hc2 : counted s2).
    { unfold counted. rewrite Hf, Hp. lia. }
    destruct (total s2 =? processed s2) eqn:Heq;
      inversion Hcomp; subst s'; clear Hcomp.
    + apply Z.eqb_eq in Heq. split.
      * repeat split; simpl; auto.
        right. simpl. split; [|lia]. rewrite Hd, Hdel. reflexivity.
      * simpl. rewrite Hf, Hp. lia.
    + apply Z.eqb_neq in Heq. split.
      * repeat split; auto.
        left. split; [congruence|]. unfold counted in Hc2. lia.
      * rewrite Hf, Hp. lia.
Qed.

Lemma rtc_coherent s s' :
  coherent limit s -> rtc step s s' -> coherent limit s'.
Proof.
  intros Hc Hr. induction Hr as [|x y z Hxy _ IH]; [exact Hc|].
  apply IH. eapply step_coherent; eassumption.
Qed.

(** A run of [n] steps has completed [n] enumerations, so it is no longer
    than the budget. *)
Lemma nsteps_bound n s s' :
  coherent limit s -> nsteps step n s s' ->
  processed s' + Z.of_nat (length (failed s'))
  = processed s + Z.of_nat (length (failed s)) + Z.of_nat n.
Proof.
  intros Hc Hn. induction Hn as [|n x y z Hxy _ IH]; [lia|].
  destruct (step_coherent _ _ Hc Hxy) as [Hcy Hone].
  rewrite (IH Hcy). lia.
Qed.

Lemma coherent_facts s :
  coherent limit s ->
  0 <= processed s <= total s /\ total s <= Z.max 1 limit /\
  Forall (within_budget (Z.max 1 limit)) (history s) /\
  (delivered s = [] \/
   delivered s = [Envelope (Some (collected s)) OK] /\
   processed s = total s /\ pending s = [] /\ failed s = []) /\
  (pending s = [] -> failed s = [] ->
   delivered s = [Envelope (Some (collected s)) OK]) /\
  (failed s <> [] -> delivered s = []).
Proof.
  intros (Hc & Hs & Hb). unfold counted in Hc.
  destruct (budget_history_bounds _ _ _ _ Hb) as (Hp & Ht & Hall).
  repeat split; try lia; try exact Hall.
  - destruct Hs as [[H _] | [H Heq]]; [left; exact H | right].
    repeat split; auto.
    + destruct (pending s); [reflexivity | simpl in Hc; lia].
    + destruct (failed s); [reflexivity | simpl in Hc; lia].
  - intros Hpe Hfa. rewrite Hpe, Hfa in Hc. simpl in Hc.
    destruct Hs as [[_ H] | [H _]]; [lia | exact H].
  - intros Hfa. destruct Hs as [[H _] | [_ H]]; [exact H|].
    destruct (failed s); [congruence | simpl in Hc; lia].
Qed.

Lemma nsteps_coherent n s s' :
  coherent limit s -> nsteps step n s s' -> coherent limit s'.
Proof.
  intros Hc Hn. induction Hn as [|n x y z Hxy _ IH]; [exact Hc|].
  apply IH. eapply step_coherent; eassumption.
Qed.

Lemma step_needs_pending s s' : pending s = [] -> ~ step s s'.
Proof.
  intros Hp Hstep. destruct Hstep as [s before d after s' Hpend _].
  rewrite Hp in Hpend. destruct before; discriminate.
Qed.

Lemma step_singleton s d s' :
  pending s = [d] -> step s s' ->
  complete completed enumerate visit object d (set_pending [] s) = Normal s'.
Proof.
  intros Hp Hstep. destruct Hstep as [s before d' after s' Hpend Hcomp].
  rewrite Hp in Hpend.
  destruct before as [|b before]; simpl in Hpend.
  - inversion Hpend; subst. exact Hcomp.
  - inversion Hpend as [[Hb Hrest]]. destruct before; discriminate.
Qed.

(** From a coherent state the success callback is invoked at most once,
    only when nothing is pending, and exactly once by the end of a run in
    which no enumeration failed; runs are no longer than the budget. *)
Lemma search_completes_once s0 :
  coherent limit s0 -> completes_once step limit s0.
Proof.
  intros Hc. split.
  - intros s Hr. pose proof (rtc_coherent _ _ Hc Hr) as Hcs.
    destruct (coherent_facts _ Hcs) as (_ & _ & _ & H1 & H2 & H3).
    repeat split; auto. apply step_progress.
  - intros n s Hn.
    pose proof (nsteps_bound _ _ _ Hc Hn) as Hb.
    pose proof (nsteps_coherent _ _ _ Hc Hn) as Hcs.
    destruct (coherent_facts _ Hc) as (Hp0 & _).
    destruct Hcs as (Hcount & _ & Hbh). unfold counted in Hcount.
    destruct (budget_history_bounds _ _ _ _ Hbh) as (_ & Ht & _).
    lia.
Qed.

End Search.

(** *** Facts about getAll and getDirectories *)

Lemma fold_left_reducer h d names acc :
  fold_left (reducer h d) names acc = acc ++ children h d names.
Proof.
  revert acc. induction names as [|n names IH]; intros acc; simpl.
  - symmetry. apply app_nil_r.
  - rewrite IH. unfold reducer.
    destruct (stat h (d ++ [n])) as [[| |]|]; simpl;
      rewrite <- ?app_assoc; reflexivity.
Qed.

Lemma getAll_processData_unfiltered h d t names :
  isRegExp t = false -> isString t = false ->
  getAll_processData h d t names = Envelope (Some (children h d names)) OK.
Proof.
  intros Hr Hs. unfold getAll_processData, filter_names.
  rewrite Hr, Hs, fold_left_reducer. reflexivity.
Qed.

Lemma children_classified h d names :
  Forall (fun e => stat h (getFullPath e)
                   = Some (if isFile e then KFile else KDirectory))
         (children h d names).
Proof.
  induction names as [|n names IH]; simpl; [constructor|].
  apply Forall_app. split; [|exact IH].
  destruct (stat h (d ++ [n])) as [[| |]|] eqn:Hst;
    repeat constructor; simpl; exact Hst.
Qed.

Lemma children_full_name h d names :
  Forall (fun e => exists n, In n names /\ getFullPath e = d ++ [n] /\
                   getFullName e = n)
         (children h d names).
Proof.
  induction names as [|n names IH]; simpl; [constructor|].
  apply Forall_app. split.
  - destruct (stat h (d ++ [n])) as [[| |]|]; repeat constructor;
      exists n; unfold getFullName; simpl; rewrite ?last_last; auto.
  - eapply List.Forall_impl; [|exact IH].
    intros e (m & Hin & Hp & Hn). exists m. auto.
Qed.

Lemma getAll_sync_started h d :
  started (calls (getAll h d (Some sync_request))) = [].
Proof.
  unfold getAll. destruct (localMode h); simpl; [|reflexivity].
  destruct (exists_ h d); simpl; [|reflexivity].
  destruct (readdir h d); reflexivity.
Qed.

Lemma getAll_async_returns h o d :
  exists env, result (getAll h d (Some (async_request o))) = Returned env.
Proof.
  unfold getAll. destruct (localMode h); simpl; [|eauto].
  destruct (exists_ h d); simpl; eauto.
Qed.

Lemma getAll_async_starts h o d :
  localMode h = true -> exists_ h d = true ->
  started (calls (getAll h d (Some (async_request o)))) = [d].
Proof. intros Hl He. unfold getAll. rewrite Hl, He. reflexivity. Qed.

Lemma getAll_completed_data h o d env :
  getAll_completed h d (async_request o) = CallSuccess env ->
  exists names,
    readdir h d = Some names /\ env = Envelope (Some (children h d names)) OK.
Proof.
  unfold getAll_completed. destruct (readdir h d) as [names|]; [|discriminate].
  intros H. inversion H. exists names. split; [reflexivity|].
  apply getAll_processData_unfiltered; reflexivity.
Qed.

Lemma kind_filtered_calls keep r : calls (kind_filtered keep r) = calls r.
Proof.
  unfold kind_filtered. destruct (result r) as [env|e]; [|reflexivity].
  destruct (status_eqb (st env) OK); reflexivity.
Qed.

Lemma getDirectories_sync_started h d :
  started (calls (getDirectories h d (Some sync_request))) = [].
Proof.
  change (getDirectories h d (Some sync_request))
    with (kind_filtered isDirectory (getAll h d (Some sync_request))).
  rewrite kind_filtered_calls. apply getAll_sync_started.
Qed.

Lemma getDirectories_async h o d :
  getDirectories h d (Some (async_request o))
  = getAll h d (Some (async_request o)).
Proof. reflexivity. Qed.

Lemma getDirectories_completed_data h o d env :
  getDirectories_completed h d (async_request o) = CallSuccess env ->
  exists names,
    readdir h d = Some names /\
    env = Envelope (Some (List.filter isDirectory (children h d names))) OK.
Proof.
  unfold getDirectories_completed, kind_completed.
  destruct (getAll_completed h d (async_request o)) as [e|r] eqn:Hc;
    [discriminate|].
  apply getAll_completed_data in Hc. destruct Hc as (names & Hr & ->).
  intros H. inversion H. exists names. auto.
Qed.

Lemma classified_exists h e :
  stat h (getFullPath e) = Some (if isFile e then KFile else KDirectory) ->
  exists_ h (getFullPath e) = true.
Proof. intros H. unfold exists_. rewrite H. reflexivity. Qed.

Lemma findFiles_descendable h o d env :
  getAll_completed h d (async_request o) = CallSuccess env ->
  Forall (fun e => forall s, snd (findFiles_visit o e s) <> None ->
                   exists_ h (getFullPath e) = true) (data_of env).
Proof.
  intros Hc. apply getAll_completed_data in Hc. destruct Hc as (names & _ & ->).
  unfold data_of; simpl.
  eapply List.Forall_impl; [|apply children_classified].
  intros e He s _. apply classified_exists. exact He.
Qed.

Lemma findDirectories_descendable h o d env :
  getDirectories_completed h d (async_request o) = CallSuccess env ->
  Forall (fun e => forall s, snd (findDirectories_visit o e s) <> None ->
                   exists_ h (getFullPath e) = true) (data_of env).
Proof.
  intros Hc. apply getDirectories_completed_data in Hc.
  destruct Hc as (names & _ & ->). unfold data_of; simpl.
  apply List.Forall_forall. intros e Hin s _.
  apply filter_In in Hin. destruct Hin as [Hin _].
  pose proof (children_classified h d names) as Hall.
  rewrite List.Forall_forall in Hall. apply classified_exists. apply Hall. exact Hin.
Qed.

(** *** The two searches *)

Lemma find_with_waits enumerate visit h this o s0 :
  (forall d, exists env,
      result (enumerate d (Some (async_request o))) = Returned env) ->
  find_with enumerate visit h this (Some o)
  = Some (Found (Returned (failure WAIT_FOR_ASYNC_OPERATION)) s0) ->
  localMode h = true /\ exists_ h this = true /\ sync o = false /\
  onSuccess o = true /\ s0 = launched enumerate this o.
Proof.
  intros Hret. unfold find_with.
  destruct (localMode h); simpl; [|discriminate].
  destruct (sync o) eqn:Hs; simpl.
  - destruct (exists_ h this); simpl; [|discriminate].
    destruct (processDirectory_sync _ _ _ _ _); discriminate.
  - destruct (onSuccess o); simpl; [|discriminate].
    destruct (exists_ h this); simpl; [|discriminate].
    unfold processDirectory_async. destruct (Hret this) as [env ->].
    intros H. inversion H. repeat split; reflexivity.
Qed.

Lemma launched_coherent enumerate h this o :
  exists_ h this = true ->
  (forall d, exists_ h d = true ->
     started (calls (enumerate d (Some (async_request o)))) = [d]) ->
  coherent (limit_ceiling o) (launched enumerate this o).
Proof.
  intros He Hst. unfold launched, coherent, counted, settled_once; simpl.
  rewrite (Hst this He). simpl. repeat split; try lia.
  - left. split; [reflexivity | lia].
  - apply (bh_calls _ (map Call [ExistsSync this] ++ [Counters 1 0]) 1 0).
    apply bh_start.
Qed.

Lemma findFiles_completes_once h this o :
  localMode h = true -> exists_ h this = true ->
  completes_once (findFiles_step h o) (limit_ceiling o)
                 (launched (getAll h) this o).
Proof.
  intros Hl He.
  apply (search_completes_once h (getAll h) (getAll_completed h)
           (findFiles_visit o) o (limit_ceiling o)).
  - apply findFiles_visit_ok.
  - apply getAll_async_returns.
  - intros d. apply getAll_async_starts. exact Hl.
  - apply findFiles_descendable.
  - apply (launched_coherent _ h); [exact He|].
    intros d. apply getAll_async_starts. exact Hl.
Qed.

Lemma findDirectories_completes_once h this o :
  localMode h = true -> exists_ h this = true ->
  completes_once (findDirectories_step h o) (limit_ceiling o)
                 (launched (getDirectories h) this o).
Proof.
  intros Hl He.
  apply (search_completes_once h (getDirectories h)
           (getDirectories_completed h) (findDirectories_visit o) o
           (limit_ceiling o)).
  - apply findDirectories_visit_ok.
  - intros d. rewrite getDirectories_async. apply getAll_async_returns.
  - intros d. rewrite getDirectories_async. apply getAll_async_starts. exact Hl.
  - apply findDirectories_descendable.
  - apply (launched_coherent _ h); [exact He|].
    intros d. rewrite getDirectories_async. apply getAll_async_starts. exact Hl.
Qed.

(** C1, as amended.  An asynchronous findFiles or findDirectories that
    passed its preconditions invokes the caller's success callback at most
    once, with the accumulated collection and OK, and only when
    [processed] equals [total] and no enumeration is pending; whatever the
    order in which the host completes the enumerations, a run takes no more
    steps than searchLimit rounded up to a whole number (one step when
    that is below one), and when no enumeration failed it ends with the
    callback invoked exactly once.  After a failed enumeration the
    callback is never invoked.  searchLimit is any finite Number. *)
Theorem async_find_completes_once h this o sF sD :
  findFiles h this (Some o)
  = Some (Found (Returned (failure WAIT_FOR_ASYNC_OPERATION)) sF) ->
  findDirectories h this (Some o)
  = Some (Found (Returned (failure WAIT_FOR_ASYNC_OPERATION)) sD) ->
  completes_once (findFiles_step h o) (limit_ceiling o) sF /\
  completes_once (findDirectories_step h o) (limit_ceiling o) sD.
Proof.
  intros HF HD.
  apply find_with_waits in HF; [|apply getAll_async_returns].
  apply find_with_waits in HD;
    [|intros d; rewrite getDirectories_async; apply getAll_async_returns].
  destruct HF as (Hl & He & _ & _ & ->). destruct HD as (_ & _ & _ & _ & ->).
  split.
  - apply findFiles_completes_once; assumption.
  - apply findDirectories_completes_once; assumption.
Qed.

Lemma async_find_completes_once_witness :
  completes_once (findFiles_step Examples.tree_abc Examples.find_txt_async) 2
                 (launched (getAll Examples.tree_abc) ["root"%string]
                           Examples.find_txt_async) /\
  completes_once (findDirectories_step Examples.tree_abc
                    Examples.find_txt_async) 2
                 (launched (getDirectories Examples.tree_abc) ["root"%string]
                           Examples.find_txt_async).
Proof.
  apply (async_find_completes_once Examples.tree_abc ["root"%string]
           Examples.find_txt_async); vm_compute; reflexivity.
Defined.

(** C1 as stated fails when the host reports an error for an enumeration:
    the call passes its preconditions, the run ends with nothing pending,
    and the success callback is invoked in no state of any run. *)
Lemma async_find_success_never_invoked :
  exists s0,
    findFiles Examples.unreadable ["root"%string]
              (Some Examples.find_txt_async)
    = Some (Found (Returned (failure WAIT_FOR_ASYNC_OPERATION)) s0) /\
    (forall s, rtc (findFiles_step Examples.unreadable Examples.find_txt_async)
                   s0 s ->
               delivered s = []) /\
    (exists s, rtc (findFiles_step Examples.unreadable Examples.find_txt_async)
                   s0 s /\
               pending s = [] /\ failed s <> []).
Proof.
  eexists. split; [vm_compute; reflexivity|].
  set (s0 := Search _ _ _ _ _ _ _ _).
  assert (Hstep : forall s', findFiles_step Examples.unreadable
                               Examples.find_txt_async s0 s' ->
                             s' = fail (HostError (Readdir ["root"%string]))
                                       (set_pending [] s0)).
  { intros s' Hs. apply step_singleton with (d := ["root"%string]) in Hs;
      [|reflexivity].
    vm_compute in Hs. inversion Hs. reflexivity. }
  split.
  - intros s Hr. inversion Hr as [|? y ? Hxy Hyz]; subst; [reflexivity|].
    apply Hstep in Hxy. subst y.
    inversion Hyz as [|? z ? Hyz' _]; subst; [reflexivity|].
    exfalso. revert Hyz'. apply step_needs_pending. reflexivity.
  - exists (fail (HostError (Readdir ["root"%string])) (set_pending [] s0)).
    split; [|split; [reflexivity | discriminate]].
    eapply rtc_l; [|apply rtc_refl].
    eapply step_complete with (before := []) (after := []); reflexivity.
Qed.

(** *** Totality of the synchronous search *)

Lemma find_with_total enumerate visit h this object :
  (forall o e s, visit_ok (limit_ceiling o) e s
                          (fst (visit o e s)) (snd (visit o e s))) ->
  (forall d, started (calls (enumerate d (Some sync_request))) = []) ->
  (forall o d, exists env,
      result (enumerate d (Some (async_request o))) = Returned env) ->
  exists r, find_with enumerate visit h this object = Some r.
Proof.
  intros Hv Hs Ha. unfold find_with.
  destruct object as [o|]; [|eauto].
  destruct (negb (localMode h)); [eauto|].
  destruct (negb (sync o) && negb (onSuccess o)); [eauto|].
  destruct (negb (exists_ h this)); [eauto|].
  destruct (sync o).
  - destruct (processDirectory_sync_fuel enumerate (visit o)
                (limit_ceiling o) (Hv o) Hs
                (Z.to_nat (Z.max 1 (limit_ceiling o))) this
                (initial [ExistsSync this])) as (s' & Hfin & _).
    { simpl. lia. }
    destruct Hfin as [-> | [e ->]]; eauto.
  - unfold processDirectory_async. destruct (Ha o this) as [env ->]. eauto.
Qed.

(** The model never runs out of fuel: both searches always return or
    throw. *)
Lemma findFiles_total h this object :
  exists r, findFiles h this object = Some r.
Proof.
  apply find_with_total.
  - intros o e s. apply findFiles_visit_ok.
  - apply getAll_sync_started.
  - intros o d. apply getAll_async_returns.
Qed.

Lemma findDirectories_total h this object :
  exists r, findDirectories h this object = Some r.
Proof.
  apply find_with_total.
  - intros o e s. apply findDirectories_visit_ok.
  - apply getDirectories_sync_started.
  - intros o d. rewrite getDirectories_async. apply getAll_async_returns.
Qed.

(** *** Order of the precondition checks *)

Lemma find_with_precondition enumerate visit h this object r :
  find_with enumerate visit h this object = Some r ->
  match spec_precondition h this object with
  | Some e => returned r = Returned (failure e)
  | None => reported (returned r) = None
  end.
Proof.
  unfold find_with, spec_precondition.
  destruct object as [o|]; [|intros H; inversion H; reflexivity].
  destruct (negb (localMode h)); [intros H; inversion H; reflexivity|].
  destruct (negb (sync o) && negb (onSuccess o));
    [intros H; inversion H; reflexivity|].
  destruct (negb (exists_ h this)); [intros H; inversion H; reflexivity|].
  destruct (sync o).
  - destruct (processDirectory_sync _ _ _ _ _);
      intros H; inversion H; reflexivity.
  - destruct (processDirectory_async _ _ _ _);
      intros H; inversion H; reflexivity.
Qed.

Lemma getAll_follows_precondition h this object :
  match getAll_precondition h this object with
  | Some e => result (getAll h this object) = Returned (failure e)
  | None => reported (result (getAll h this object)) = None
  end.
Proof.
  unfold getAll, getAll_precondition.
  destruct object as [o|]; [|reflexivity].
  destruct (localMode h); simpl; [|reflexivity].
  destruct (exists_ h this); simpl; [|reflexivity].
  destruct (sync o); simpl.
  - destruct (readdir h this); reflexivity.
  - destruct (onSuccess o); reflexivity.
Qed.

Lemma kind_filtered_reported keep r :
  reported (result (kind_filtered keep r)) = reported (result r) /\
  (forall e, e <> OK -> result r = Returned (failure e) ->
             result (kind_filtered keep r) = Returned (failure e)).
Proof.
  unfold kind_filtered. destruct (result r) as [env|x] eqn:Hr.
  - destruct (status_eqb (st env) OK) eqn:Hst.
    + split.
      * simpl. destruct env as [d s]; simpl in *. destruct s; try discriminate.
        reflexivity.
      * intros e Hne He. inversion He; subst. simpl in Hst.
        destruct e; try discriminate. congruence.
    + rewrite Hr. auto.
  - rewrite Hr. split; [reflexivity | discriminate].
Qed.

Lemma getKind_follows_precondition keep h this o :
  let r := if sync o then kind_filtered keep (getAll h this (Some o))
           else if negb (onSuccess o)
           then Effect (Returned (failure ERROR_CALLBACK_IS_NOT_AVAILABLE)) []
           else getAll h this (Some o) in
  match getKind_precondition h this o with
  | Some e => result r = Returned (failure e)
  | None => reported (result r) = None
  end.
Proof.
  cbv zeta. unfold getKind_precondition.
  pose proof (getAll_follows_precondition h this (Some o)) as HA.
  unfold getAll_precondition in HA.
  remember (getAll h this (Some o)) as r eqn:Er. clear Er.
  destruct (kind_filtered_reported keep r) as [H1 H2].
  destruct (sync o), (onSuccess o), (localMode h), (exists_ h this);
    cbn [negb andb] in *;
    try exact HA; try reflexivity;
    try (rewrite H1; exact HA);
    try (apply H2; [discriminate | exact HA]).
Qed.

(** C2, as amended.  findFiles and findDirectories check, in this order
    and stopping at the first failure: options present, mode permitted,
    callback present (asynchronous only), path exists.  getAll checks
    options present, mode permitted, path exists and then the callback
    (asynchronous only).  getFiles and getDirectories, given options, check
    the callback first (asynchronous only) and then follow getAll.  Without
    an options object getAll, findFiles and findDirectories report
    ERROR_OPTIONS_IS_NOT_AVAILABLE whatever the path, and getFiles, which
    takes [{}] instead, reports the missing callback. *)
Theorem precondition_order h this object :
  (exists r, findFiles h this object = Some r /\
     match spec_precondition h this object with
     | Some e => returned r = Returned (failure e)
     | None => reported (returned r) = None
     end) /\
  (exists r, findDirectories h this object = Some r /\
     match spec_precondition h this object with
     | Some e => returned r = Returned (failure e)
     | None => reported (returned r) = None
     end) /\
  match getAll_precondition h this object with
  | Some e => result (getAll h this object) = Returned (failure e)
  | None => reported (result (getAll h this object)) = None
  end /\
  (forall o, object = Some o ->
     match getKind_precondition h this o with
     | Some e => result (getFiles h this object) = Returned (failure e) /\
                 result (getDirectories h this object) = Returned (failure e)
     | None => reported (result (getFiles h this object)) = None /\
               reported (result (getDirectories h this object)) = None
     end) /\
  (object = None ->
     spec_precondition h this object = Some ERROR_OPTIONS_IS_NOT_AVAILABLE /\
     getAll_precondition h this object = Some ERROR_OPTIONS_IS_NOT_AVAILABLE /\
     result (getFiles h this object)
     = Returned (failure ERROR_CALLBACK_IS_NOT_AVAILABLE)).
Proof.
  split; [|split; [|split; [|split]]].
  - destruct (findFiles_total h this object) as [r Hr]. exists r.
    split; [exact Hr|]. eapply find_with_precondition. exact Hr.
  - destruct (findDirectories_total h this object) as [r Hr]. exists r.
    split; [exact Hr|]. eapply find_with_precondition. exact Hr.
  - apply getAll_follows_precondition.
  - intros o ->.
    pose proof (getKind_follows_precondition isFile h this o) as HF.
    pose proof (getKind_follows_precondition isDirectory h this o) as HD.
    cbv zeta in HF, HD. unfold getFiles, getDirectories.
    destruct (getKind_precondition h this o); auto.
  - intros ->. repeat split; reflexivity.
Qed.

(** C2 as stated fails for getAll: asynchronous, without callback and on
    a path that does not exist, the order of the specification gives the
    missing callback and getAll reports the path. *)
Lemma getAll_reports_path_before_callback :
  spec_precondition Examples.tree_abc ["nowhere"%string] (Some no_options)
  = Some ERROR_CALLBACK_IS_NOT_AVAILABLE /\
  result (getAll Examples.tree_abc ["nowhere"%string] (Some no_options))
  = Returned (failure ERROR_PATH_DOES_NOT_EXIST).
Proof. split; reflexivity. Qed.

(** *** A budget of one directory *)

Lemma forEach_flat (limit : Z) visit rec (keep : entity -> bool) :
  (forall e s, limit <= total s ->
     visit e s = (if keep e then push e s else s, None)) ->
  forall data s, limit <= total s ->
    forEach visit rec data s
    = Normal (Search (total s) (processed s)
                     (collected s ++ List.filter keep data)
                     (pending s) (delivered s) (failed s) (history s)
                     (position s)).
Proof.
  intros Hv data. induction data as [|e rest IH]; intros s Hs; simpl.
  - rewrite app_nil_r. destruct s; reflexivity.
  - rewrite (Hv e s Hs). destruct (keep e).
    + rewrite IH; [|exact Hs]. simpl. rewrite <- app_assoc. reflexivity.
    + apply IH. exact Hs.
Qed.

(** On a template that keeps no position the test of the searches is
    what [matches] says, and it leaves [lastIndex] alone. *)
Lemma selects_stateless t p name :
  stateless t = true -> selects t p name = (matches t name, p).
Proof.
  destruct t as [| |b|z|x|test|exec i|items|fields]; try discriminate;
    intros _; unfold selects; cbn; try reflexivity.
  - destruct b; reflexivity.
  - destruct (z =? 0); reflexivity.
  - destruct (String.eqb x EmptyString); cbn; [reflexivity|].
    destruct (String.eqb name x); reflexivity.
  - destruct (test name); reflexivity.
Qed.

Lemma findFiles_visit_at_limit o e s :
  stateless (template o) = true ->
  limit_ceiling o <= total s ->
  findFiles_visit o e s
  = (if isFile e && matches (template o) (getFullName e)
     then push e s else s, None).
Proof.
  intros Ht Hs. unfold findFiles_visit. rewrite ?below_limit_ceiling.
  cbv zeta. rewrite (selects_stateless _ _ _ Ht). cbn [fst snd].
  rewrite set_position_same.
  destruct (isFile e); simpl.
  - destruct (matches _ _); reflexivity.
  - apply Z.ltb_ge in Hs. rewrite Hs. reflexivity.
Qed.

Lemma findDirectories_visit_at_limit o e s :
  stateless (template o) = true ->
  limit_ceiling o <= total s ->
  findDirectories_visit o e s
  = (if matches (template o) (getFullName e) then push e s else s, None).
Proof.
  intros Ht Hs. unfold findDirectories_visit. rewrite ?below_limit_ceiling.
  cbv zeta. rewrite (selects_stateless _ _ _ Ht). cbn [fst snd].
  rewrite set_position_same.
  assert (H : (total (if matches (template o) (getFullName e)
                      then push e s else s) <? limit_ceiling o) = false).
  { apply Z.ltb_ge. destruct (matches _ _); exact Hs. }
  rewrite H. reflexivity.
Qed.

Lemma filter_filter_and {A} (f g : A -> bool) l :
  List.filter g (List.filter f l) = List.filter (fun x => f x && g x) l.
Proof.
  induction l as [|x l IH]; simpl; [reflexivity|].
  destruct (f x); simpl; [|exact IH].
  destruct (g x); rewrite IH; reflexivity.
Qed.

Lemma getAll_sync_listing h this :
  localMode h = true -> exists_ h this = true ->
  getAll h this (Some sync_request)
  = match readdir h this with
    | Some names =>
        Effect (Returned (Envelope (Some (children h this names)) OK))
               [ExistsSync this; ReaddirSync this]
    | None =>
        Effect (Threw (HostError (ReaddirSync this)))
               [ExistsSync this; ReaddirSync this]
    end.
Proof.
  intros Hl He. unfold getAll. rewrite Hl, He. simpl.
  destruct (readdir h this); [|reflexivity].
  rewrite getAll_processData_unfiltered; reflexivity.
Qed.

Lemma getDirectories_sync_listing h this :
  localMode h = true -> exists_ h this = true ->
  getDirectories h this (Some sync_request)
  = match readdir h this with
    | Some names =>
        Effect (Returned (Envelope
                  (Some (List.filter isDirectory (children h this names))) OK))
               [ExistsSync this; ReaddirSync this]
    | None =>
        Effect (Threw (HostError (ReaddirSync this)))
               [ExistsSync this; ReaddirSync this]
    end.
Proof.
  intros Hl He.
  change (getDirectories h this (Some sync_request))
    with (kind_filtered isDirectory (getAll h this (Some sync_request))).
  rewrite getAll_sync_listing by assumption.
  destruct (readdir h this); reflexivity.
Qed.

Lemma getAll_async_launch h this o :
  localMode h = true -> exists_ h this = true ->
  getAll h this (Some (async_request o))
  = Effect (Returned (failure WAIT_FOR_ASYNC_OPERATION))
           [ExistsSync this; Readdir this].
Proof. intros Hl He. unfold getAll. rewrite Hl, He. reflexivity. Qed.

Lemma getAll_completed_listing h this o :
  getAll_completed h this (async_request o)
  = match readdir h this with
    | Some names => CallSuccess (Envelope (Some (children h this names)) OK)
    | None => CallError (HostError (Readdir this))
    end.
Proof.
  unfold getAll_completed. destruct (readdir h this); [|reflexivity].
  rewrite getAll_processData_unfiltered; reflexivity.
Qed.

Lemma getDirectories_completed_listing h this o :
  getDirectories_completed h this (async_request o)
  = match readdir h this with
    | Some names =>
        CallSuccess (Envelope
          (Some (List.filter isDirectory (children h this names))) OK)
    | None => CallError (HostError (Readdir this))
    end.
Proof.
  unfold getDirectories_completed. rewrite getAll_completed_listing.
  destruct (readdir h this); reflexivity.
Qed.

Lemma limit_ceiling_one o :
  limit_is_one o -> limit_ceiling o = 1.
Proof.
  unfold limit_is_one, effective_limit.
  destruct (searchLimit o) as [q|]; [|reflexivity].
  intros Hq.
  assert (Hn : (Qnum q =? 0) = false).
  { apply Z.eqb_neq. intros H0. unfold Qeq in Hq. rewrite H0 in Hq.
    simpl in Hq. lia. }
  rewrite Hn, Hq. reflexivity.
Qed.

Lemma rtc_stuck completed enumerate visit object s s' :
  pending s = [] ->
  rtc (step completed enumerate visit object) s s' -> s' = s.
Proof.
  intros Hp Hr. inversion Hr as [|? y ? Hxy _]; subst; [reflexivity|].
  exfalso. revert Hxy. apply step_needs_pending. exact Hp.
Qed.

Section LimitOne.

Variable h : Host.
Variable enumerate : path -> option options -> effect envelope.
Variable completed : path -> options -> callback.
Variable visit : options -> entity -> search -> search * option path.
Variable listing : list string -> list entity.
Variable keep : entity -> bool.
Variable this : path.
Variable o : options.

Hypothesis local : localMode h = true.
Hypothesis present : exists_ h this = true.
Hypothesis budget : limit_ceiling o = 1.
Hypothesis mode : sync o = true \/ onSuccess o = true.
Hypothesis enumerate_sync :
  enumerate this (Some sync_request)
  = match readdir h this with
    | Some names =>
        Effect (Returned (Envelope (Some (listing names)) OK))
               [ExistsSync this; ReaddirSync this]
    | None =>
        Effect (Threw (HostError (ReaddirSync this)))
               [ExistsSync this; ReaddirSync this]
    end.
Hypothesis enumerate_async :
  enumerate this (Some (async_request o))
  = Effect (Returned (failure WAIT_FOR_ASYNC_OPERATION))
           [ExistsSync this; Readdir this].
Hypothesis completed_listing :
  completed this (async_request o)
  = match readdir h this with
    | Some names => CallSuccess (Envelope (Some (listing names)) OK)
    | None => CallError (HostError (Readdir this))
    end.
Hypothesis visit_at_limit :
  forall e s, limit_ceiling o <= total s ->
    visit o e s = (if keep e then push e s else s, None).

Local Abbreviation step := (Directory.step completed enumerate (visit o) o).

Lemma limit_one_sync :
  sync o = true ->
  exists r s0,
    find_with enumerate visit h this (Some o) = Some (Found r s0) /\
    pending s0 = [] /\
    enumerated (calls_of (history s0)) = [this] /\
    (forall names, readdir h this = Some names ->
       r = Returned (Envelope (Some (List.filter keep (listing names))) OK)).
Proof using local present budget enumerate_sync visit_at_limit.
  clear completed_listing enumerate_async mode.
  intros Hs. unfold find_with. rewrite local, Hs, present, budget.
  cbn [negb andb]. change (Z.to_nat (Z.max 1 1)) with 1%nat.
  cbn [processDirectory_sync]. rewrite enumerate_sync.
  destruct (readdir h this) as [names|].
  - cbn [result calls data_of data].
    rewrite (forEach_flat (limit_ceiling o) (visit o) _ keep visit_at_limit)
      by (rewrite budget; simpl; lia).
    eexists _, _. split; [reflexivity|]. repeat split.
    intros names' H. inversion H. reflexivity.
  - cbn [result calls]. eexists _, _. split; [reflexivity|]. repeat split.
    discriminate.
Qed.

Lemma limit_one_async :
  sync o = false ->
  exists s0,
    find_with enumerate visit h this (Some o)
    = Some (Found (Returned (failure WAIT_FOR_ASYNC_OPERATION)) s0) /\
    (exists s, step s0 s) /\
    (forall s, rtc step s0 s -> enumerated (calls_of (history s)) = [this]) /\
    (forall names s, readdir h this = Some names ->
       rtc step s0 s -> pending s = [] ->
       delivered s = [Envelope (Some (List.filter keep (listing names))) OK]).
Proof using local present budget mode enumerate_async completed_listing
  visit_at_limit.
  clear enumerate_sync.
  intros Hs. destruct mode as [Hm | Hm]; [congruence|].
  unfold find_with. rewrite local, Hs, Hm, present.
  cbn [negb andb]. unfold processDirectory_async. rewrite enumerate_async.
  cbn [result calls].
  set (s0 := record_calls _ _).
  assert (Hp0 : pending s0 = [this]) by reflexivity.
  assert (Hstep : forall s, step s0 s ->
            pending s = [] /\ enumerated (calls_of (history s)) = [this] /\
            forall names, readdir h this = Some names ->
              delivered s
              = [Envelope (Some (List.filter keep (listing names))) OK]).
  { intros s Hst. apply step_singleton with (d := this) in Hst; [|exact Hp0].
    unfold complete in Hst. rewrite completed_listing in Hst.
    destruct (readdir h this) as [names|].
    - unfold onSuccess_closure in Hst. cbn [data_of data] in Hst.
      rewrite (forEach_flat (limit_ceiling o) (visit o) _ keep visit_at_limit)
        in Hst by (rewrite budget; simpl; lia).
      cbn in Hst. inversion Hst; subst s. repeat split.
      intros names' H. inversion H. reflexivity.
    - inversion Hst; subst s. repeat split. discriminate. }
  exists s0. split; [reflexivity|]. split; [|split].
  - assert (Hc : exists s, complete completed enumerate (visit o) o this
                               (set_pending [] s0) = Normal s).
    { unfold complete. rewrite completed_listing.
      destruct (readdir h this) as [names|]; [|eauto].
      unfold onSuccess_closure. cbn [data_of data].
      rewrite (forEach_flat (limit_ceiling o) (visit o) _ keep visit_at_limit)
        by (rewrite budget; simpl; lia).
      cbn. eauto. }
    destruct Hc as [s Hc].
    exists s. eapply step_complete with (before := []) (after := []); eauto.
  - intros s Hr. inversion Hr as [|? y ? Hxy Hyz]; subst; [reflexivity|].
    destruct (Hstep y Hxy) as (Hpy & Hey & _).
    apply rtc_stuck in Hyz; [|exact Hpy]. subst s. exact Hey.
  - intros names s Hn Hr Hp.
    inversion Hr as [|? y ? Hxy Hyz]; subst; [rewrite Hp0 in Hp; discriminate|].
    destruct (Hstep y Hxy) as (Hpy & _ & Hdy).
    apply rtc_stuck in Hyz; [|exact Hpy]. subst s. apply Hdy. exact Hn.
Qed.

End LimitOne.

(** The loop over the entities of a directory when the budget is used
    up: nothing is descended into, and but for the collection and the
    position of the template the state stays as it is. *)
Lemma forEach_at_limit limit visit rec :
  (forall e s, visit_ok limit e s (fst (visit e s)) (snd (visit e s))) ->
  forall data s, limit <= total s ->
    exists s', forEach visit rec data s = Normal s' /\
      total s' = total s /\ processed s' = processed s /\
      pending s' = pending s /\ delivered s' = delivered s /\
      failed s' = failed s /\ history s' = history s.
Proof.
  intros Hv data. induction data as [|e rest IH]; intros s Hs; simpl.
  - exists s. repeat split; reflexivity.
  - specialize (Hv e s). destruct (visit e s) as [s1 d]. simpl in Hv.
    destruct Hv as (p & s0 & Hs0 & Hd).
    assert (H0 : total s0 = total s /\ processed s0 = processed s /\
                 pending s0 = pending s /\ delivered s0 = delivered s /\
                 failed s0 = failed s /\ history s0 = history s)
      by (destruct Hs0 as [-> | ->]; repeat split; reflexivity).
    destruct H0 as (Ht & Hp & Hpe & Hde & Hf & Hh).
    destruct Hd as [[-> ->] | (_ & Hlt & _)]; [|lia].
    destruct (IH s0) as (s' & Hrun & Ht' & Hp' & Hpe' & Hde' & Hf' & Hh');
      [lia|].
    exists s'. split; [exact Hrun|]. repeat split; congruence.
Qed.

Section LimitOneReads.

Variable h : Host.
Variable enumerate : path -> option options -> effect envelope.
Variable completed : path -> options -> callback.
Variable visit : options -> entity -> search -> search * option path.
Variable this : path.
Variable o : options.

Hypothesis local : localMode h = true.
Hypothesis present : exists_ h this = true.
Hypothesis budget : limit_ceiling o = 1.
Hypothesis mode : sync o = true \/ onSuccess o = true.
Hypothesis enumerate_sync :
  calls (enumerate this (Some sync_request))
  = [ExistsSync this; ReaddirSync this].
Hypothesis enumerate_async :
  enumerate this (Some (async_request o))
  = Effect (Returned (failure WAIT_FOR_ASYNC_OPERATION))
           [ExistsSync this; Readdir this].
Hypothesis visit_spec :
  forall e s, visit_ok (limit_ceiling o) e s
                       (fst (visit o e s)) (snd (visit o e s)).

Local Abbreviation step := (Directory.step completed enumerate (visit o) o).

Lemma limit_one_reads :
  exists r s0,
    find_with enumerate visit h this (Some o) = Some (Found r s0) /\
    forall s, rtc step s0 s -> enumerated (calls_of (history s)) = [this].
Proof using local present budget mode enumerate_sync enumerate_async
  visit_spec.
  unfold find_with. rewrite local, present.
  assert (Hm : negb (sync o) && negb (onSuccess o) = false)
    by (destruct mode as [-> | ->]; [reflexivity | apply andb_false_r]).
  rewrite Hm, budget. cbn [negb].
  change (Z.to_nat (Z.max 1 1)) with 1%nat.
  destruct (sync o).
  - cbn [processDirectory_sync]. rewrite enumerate_sync.
    set (s1 := record_calls _ _).
    assert (H1 : pending s1 = [] /\
                 enumerated (calls_of (history s1)) = [this])
      by (split; reflexivity).
    destruct H1 as [Hp1 He1].
    destruct (result (enumerate this (Some sync_request))) as [env|x].
    + match goal with
      | |- context [forEach (visit o) ?rec ?d ?st] =>
          destruct (forEach_at_limit (limit_ceiling o) (visit o) rec
                      visit_spec d st)
            as (s' & Hrun & _ & _ & Hp & _ & _ & Hh);
            [rewrite budget; simpl; lia|]
      end.
      rewrite Hrun. eexists _, _. split; [reflexivity|].
      intros s Hr. apply rtc_stuck in Hr; [|congruence]. subst s.
      rewrite Hh. exact He1.
    + eexists _, _. split; [reflexivity|].
      intros s Hr. apply rtc_stuck in Hr; [|exact Hp1]. subst s. exact He1.
  - unfold processDirectory_async. rewrite enumerate_async.
    cbn [result calls]. set (s0 := record_calls _ _).
    assert (Hp0 : pending s0 = [this]) by reflexivity.
    eexists _, _. split; [reflexivity|].
    intros s Hr. inversion Hr as [|? y ? Hxy Hyz]; subst; [reflexivity|].
    apply step_singleton with (d := this) in Hxy; [|exact Hp0].
    unfold complete in Hxy.
    destruct (completed this (async_request o)) as [x|env].
    + inversion Hxy; subst y.
      apply rtc_stuck in Hyz; [|reflexivity]. subst s. reflexivity.
    + unfold onSuccess_closure in Hxy.
      match type of Hxy with
      | context [forEach (visit o) ?rec ?d ?st] =>
          destruct (forEach_at_limit (limit_ceiling o) (visit o) rec
                      visit_spec d st)
            as (s' & Hrun & _ & _ & Hp & _ & _ & Hh);
            [rewrite budget; simpl; lia|]
      end.
      rewrite Hrun in Hxy.
      assert (Hy : pending y = [] /\ history y = history s').
      { destruct (total s' =? processed s'); inversion Hxy; subst y;
          split; try reflexivity; exact Hp. }
      destruct Hy as [Hpy Hhy].
      apply rtc_stuck in Hyz; [|exact Hpy]. subst s.
      rewrite Hhy, Hh. reflexivity.
Qed.

End LimitOneReads.

(** C3, as amended.  With searchLimit 1 or omitted, findFiles and
    findDirectories that pass their preconditions enumerate the root and
    nothing else, whatever the tree, the template and the outcome of the
    enumeration.  When the template is no RegExp with the g or y flag and
    the host lists the root, findFiles returns exactly the files among the
    direct children that match the template, and findDirectories the
    directories among them; in asynchronous mode the call returns the
    pending status, the one enumeration can complete, and a run that has
    nothing pending has passed exactly that result to the success
    callback. *)
Theorem find_with_budget_of_one h this o :
  localMode h = true -> exists_ h this = true ->
  limit_is_one o ->
  (sync o = true \/ onSuccess o = true) ->
  exists rF sF rD sD,
    findFiles h this (Some o) = Some (Found rF sF) /\
    findDirectories h this (Some o) = Some (Found rD sD) /\
    (forall s, rtc (findFiles_step h o) sF s ->
               enumerated (calls_of (history s)) = [this]) /\
    (forall s, rtc (findDirectories_step h o) sD s ->
               enumerated (calls_of (history s)) = [this]) /\
    (stateless (template o) = true ->
     forall names, readdir h this = Some names ->
       let files :=
         Envelope (Some (direct_matches isFile h this (template o) names)) OK in
       let directories :=
         Envelope
           (Some (direct_matches isDirectory h this (template o) names)) OK in
       if sync o then rF = Returned files /\ rD = Returned directories
       else
         rF = Returned (failure WAIT_FOR_ASYNC_OPERATION) /\
         rD = Returned (failure WAIT_FOR_ASYNC_OPERATION) /\
         (exists s, findFiles_step h o sF s) /\
         (exists s, findDirectories_step h o sD s) /\
         (forall s, rtc (findFiles_step h o) sF s -> pending s = [] ->
                    delivered s = [files]) /\
         (forall s, rtc (findDirectories_step h o) sD s -> pending s = [] ->
                    delivered s = [directories])).
Proof.
  intros Hl He Hlim Hmode. apply limit_ceiling_one in Hlim.
  assert (HcallsA : calls (getAll h this (Some sync_request))
                    = [ExistsSync this; ReaddirSync this]).
  { rewrite getAll_sync_listing by assumption.
    destruct (readdir h this); reflexivity. }
  assert (HcallsD : calls (getDirectories h this (Some sync_request))
                    = [ExistsSync this; ReaddirSync this]).
  { rewrite getDirectories_sync_listing by assumption.
    destruct (readdir h this); reflexivity. }
  destruct (limit_one_reads h (getAll h) (getAll_completed h) findFiles_visit
              this o Hl He Hlim Hmode HcallsA
              (getAll_async_launch h this o Hl He)
              (findFiles_visit_ok o))
    as (rF & sF & HF & HeF).
  destruct (limit_one_reads h (getDirectories h) (getDirectories_completed h)
              findDirectories_visit this o Hl He Hlim Hmode HcallsD
              (getAll_async_launch h this o Hl He)
              (findDirectories_visit_ok o))
    as (rD & sD & HD & HeD).
  exists rF, sF, rD, sD.
  split; [exact HF|]. split; [exact HD|].
  split; [exact HeF|]. split; [exact HeD|].
  intros Ht names Hn.
  assert (HVF : forall e s, limit_ceiling o <= total s ->
            findFiles_visit o e s
            = (if (fun e => isFile e && matches (template o) (getFullName e)) e
               then push e s else s, None)).
  { intros e s. apply findFiles_visit_at_limit. exact Ht. }
  assert (HVD : forall e s, limit_ceiling o <= total s ->
            findDirectories_visit o e s
            = (if (fun e => matches (template o) (getFullName e)) e
               then push e s else s, None)).
  { intros e s. apply findDirectories_visit_at_limit. exact Ht. }
  destruct (sync o) eqn:Hs.
  - destruct (limit_one_sync h (getAll h) findFiles_visit (children h this)
                _ this o Hl He Hlim (getAll_sync_listing h this Hl He) HVF Hs)
      as (rF' & sF' & HF' & _ & _ & HrF).
    destruct (limit_one_sync h (getDirectories h) findDirectories_visit
                (fun names => List.filter isDirectory (children h this names))
                _ this o Hl He Hlim (getDirectories_sync_listing h this Hl He)
                HVD Hs)
      as (rD' & sD' & HD' & _ & _ & HrD).
    change (findFiles h this (Some o))
      with (find_with (getAll h) findFiles_visit h this (Some o)) in HF.
    change (findDirectories h this (Some o))
      with (find_with (getDirectories h) findDirectories_visit h this
              (Some o)) in HD.
    rewrite HF' in HF. rewrite HD' in HD.
    inversion HF; subst rF' sF'. inversion HD; subst rD' sD'.
    split.
    + apply HrF. assumption.
    + rewrite (HrD names) by assumption. unfold direct_matches.
      rewrite filter_filter_and. reflexivity.
  - assert (Hm : sync o = true \/ onSuccess o = true).
    { right. destruct Hmode; [discriminate | assumption]. }
    destruct (limit_one_async h (getAll h) (getAll_completed h) findFiles_visit
                (children h this) _ this o Hl He Hlim Hm
                (getAll_async_launch h this o Hl He)
                (getAll_completed_listing h this o) HVF Hs)
      as (sF' & HF' & HstF & _ & HdF).
    destruct (limit_one_async h (getDirectories h) (getDirectories_completed h)
                findDirectories_visit
                (fun names => List.filter isDirectory (children h this names))
                _ this o Hl He Hlim Hm
                (getAll_async_launch h this o Hl He)
                (getDirectories_completed_listing h this o) HVD Hs)
      as (sD' & HD' & HstD & _ & HdD).
    change (findFiles h this (Some o))
      with (find_with (getAll h) findFiles_visit h this (Some o)) in HF.
    change (findDirectories h this (Some o))
      with (find_with (getDirectories h) findDirectories_visit h this
              (Some o)) in HD.
    rewrite HF' in HF. rewrite HD' in HD.
    inversion HF; subst rF sF'. inversion HD; subst rD sD'.
    repeat split; try assumption.
    + intros s Hr Hp. apply (HdF names s); assumption.
    + intros s Hr Hp. rewrite (HdD names s) by assumption.
      unfold direct_matches. rewrite filter_filter_and. reflexivity.
Qed.

Lemma find_with_budget_of_one_witness :
  exists sF sD,
    findFiles Examples.tree_abc ["root"%string] (Some Examples.find_default)
    = Some (Found (Returned (Envelope (Some [Examples.a_txt; Examples.b_png])
                                      OK)) sF) /\
    findDirectories Examples.tree_abc ["root"%string]
                    (Some Examples.find_default)
    = Some (Found (Returned (Envelope (Some [Examples.sub]) OK)) sD) /\
    enumerated (calls_of (history sF)) = [["root"%string]] /\
    enumerated (calls_of (history sD)) = [["root"%string]].
Proof.
  destruct (find_with_budget_of_one Examples.tree_abc ["root"%string]
              Examples.find_default)
    as (rF & sF & rD & sD & HF & HD & HeF & HeD & Hres);
    [reflexivity | reflexivity | exact I | left; reflexivity |].
  destruct (Hres eq_refl ["a.txt"; "b.png"; "sub"]%string) as [HrF HrD];
    [reflexivity|].
  exists sF, sD. rewrite HF, HD, HrF, HrD. repeat split.
  - apply HeF. apply rtc_refl.
  - apply HeD. apply rtc_refl.
Defined.

(** C3 as stated fails for a RegExp with the g flag.  The root holds the
    files a.txt and b.png, and /\.(txt|png)$/g matches both names.  The
    test of a.txt leaves lastIndex at 5, the test of b.png starts there and
    fails, and findFiles returns a.txt alone. *)
Lemma find_with_budget_of_one_skips_match :
  limit_is_one Examples.find_txt_or_png_g /\
  matches Examples.txt_or_png_g "a.txt" = true /\
  matches Examples.txt_or_png_g "b.png" = true /\
  direct_matches isFile Examples.tree_abc ["root"%string]
    Examples.txt_or_png_g ["a.txt"; "b.png"; "sub"]%string
  = [Examples.a_txt; Examples.b_png] /\
  exists s,
    findFiles Examples.tree_abc ["root"%string]
              (Some Examples.find_txt_or_png_g)
    = Some (Found (Returned (Envelope (Some [Examples.a_txt]) OK)) s).
Proof.
  split; [exact I|]. split; [reflexivity|]. split; [reflexivity|].
  split; [reflexivity|]. eexists. vm_compute. reflexivity.
Qed.

(** *** The budget counters *)

Lemma find_with_history enumerate completed visit h this o r s :
  (forall o e s, visit_ok (limit_ceiling o) e s
                          (fst (visit o e s)) (snd (visit o e s))) ->
  (forall d, started (calls (enumerate d (Some sync_request))) = []) ->
  (forall d, exists env,
      result (enumerate d (Some (async_request o))) = Returned env) ->
  (forall d, localMode h = true -> exists_ h d = true ->
     started (calls (enumerate d (Some (async_request o)))) = [d]) ->
  (forall d env, completed d (async_request o) = CallSuccess env ->
     Forall (fun e => forall s, snd (visit o e s) <> None ->
                      exists_ h (getFullPath e) = true) (data_of env)) ->
  find_with enumerate visit h this (Some o) = Some r ->
  rtc (step completed enumerate (visit o) o) (state r) s ->
  (exists cs, history s = map Call cs) \/
  budget_history (limit_ceiling o) (history s) (total s) (processed s).
Proof.
  intros Hv Hsy Hret Hst Hdesc Hfind Hr.
  unfold find_with in Hfind.
  destruct (localMode h) eqn:Hl; cbn [negb] in Hfind;
    [|inversion Hfind; subst r; apply rtc_stuck in Hr; [|reflexivity];
      subst s; left; exists []; reflexivity].
  destruct (negb (sync o) && negb (onSuccess o));
    [inversion Hfind; subst r; apply rtc_stuck in Hr; [|reflexivity];
     subst s; left; exists []; reflexivity|].
  destruct (exists_ h this) eqn:He; cbn [negb] in Hfind;
    [|inversion Hfind; subst r; apply rtc_stuck in Hr; [|reflexivity];
      subst s; left; exists [ExistsSync this]; reflexivity].
  right.
  assert (H0 : budget_history (limit_ceiling o)
                 (history (initial [ExistsSync this])) 1 0)
    by apply bh_start.
  destruct (sync o).
  - destruct (processDirectory_sync_fuel enumerate (visit o)
                (limit_ceiling o) (Hv o) Hsy
                (Z.to_nat (Z.max 1 (limit_ceiling o))) this
                (initial [ExistsSync this])) as (s' & Hfin & Hg & Hp).
    { simpl. lia. }
    destruct Hg as (_ & _ & _ & _ & Hb). specialize (Hb H0).
    assert (Hstate : state r = s').
    { destruct Hfin as [Hn | [e Ha]]; [rewrite Hn in Hfind | rewrite Ha in Hfind];
        inversion Hfind; reflexivity. }
    rewrite Hstate in Hr. apply rtc_stuck in Hr; [|exact Hp]. subst s. exact Hb.
  - assert (Hstate : state r = launched enumerate this o).
    { unfold processDirectory_async in Hfind.
      destruct (Hret this) as [env Henv]. rewrite Henv in Hfind.
      inversion Hfind. reflexivity. }
    rewrite Hstate in Hr.
    assert (Hc : coherent (limit_ceiling o) s).
    { eapply (rtc_coherent h enumerate completed (visit o) o (limit_ceiling o));
        [apply Hv | exact Hret | intros d Hd; apply Hst; [reflexivity | exact Hd]
        | exact Hdesc | | exact Hr].
      apply (launched_coherent _ h); [exact He|].
      intros d Hd. apply Hst; [reflexivity | exact Hd]. }
    destruct Hc as (_ & _ & Hb). exact Hb.
Qed.

Lemma history_within_budget limit evs t p :
  (exists cs, evs = map Call cs) \/ budget_history limit evs t p ->
  Forall (within_budget (Z.max 1 limit)) evs /\
  (1 <= limit -> Forall (within_budget limit) evs).
Proof.
  assert (Hmain : Forall (within_budget (Z.max 1 limit)) evs ->
                  Forall (within_budget (Z.max 1 limit)) evs /\
                  (1 <= limit -> Forall (within_budget limit) evs)).
  { intros H. split; [exact H|]. intros Hl.
    replace limit with (Z.max 1 limit) at 1 by lia. exact H. }
  intros [[cs ->] | Hb]; apply Hmain.
  - apply calls_within_budget.
  - apply (budget_history_bounds _ _ _ _ Hb).
Qed.

(** C5, as amended.  In every state of a findFiles or findDirectories
    invocation (at each change of a counter on the synchronous path, after
    each callback on the asynchronous path) the counters satisfy
    processed <= total <= max(1, searchLimit rounded up to a whole
    number), hence processed <= total <= searchLimit whenever searchLimit
    is a whole number and at least 1; [total] starts at 1 and is
    incremented only while strictly below searchLimit, [processed] only
    while below [total].  searchLimit is any finite Number. *)
Theorem counters_within_budget h this o rF rD s :
  findFiles h this (Some o) = Some rF ->
  findDirectories h this (Some o) = Some rD ->
  rtc (findFiles_step h o) (state rF) s \/
  rtc (findDirectories_step h o) (state rD) s ->
  Forall (within_budget (Z.max 1 (limit_ceiling o))) (history s) /\
  (1 <= limit_ceiling o ->
   Forall (within_budget (limit_ceiling o)) (history s)) /\
  ((exists cs, history s = map Call cs) \/
   budget_history (limit_ceiling o) (history s) (total s) (processed s)).
Proof.
  intros HF HD Hr.
  assert (H : (exists cs, history s = map Call cs) \/
              budget_history (limit_ceiling o) (history s)
                             (total s) (processed s)).
  { destruct Hr as [Hr | Hr].
    - eapply (find_with_history (getAll h) (getAll_completed h)
                findFiles_visit h this o rF s); try eassumption.
      + intros; apply findFiles_visit_ok.
      + apply getAll_sync_started.
      + apply getAll_async_returns.
      + intros; apply getAll_async_starts; assumption.
      + apply findFiles_descendable.
    - eapply (find_with_history (getDirectories h) (getDirectories_completed h)
                findDirectories_visit h this o rD s); try eassumption.
      + intros; apply findDirectories_visit_ok.
      + apply getDirectories_sync_started.
      + intros d. rewrite getDirectories_async. apply getAll_async_returns.
      + intros. rewrite getDirectories_async.
        apply getAll_async_starts; assumption.
      + apply findDirectories_descendable. }
  destruct (history_within_budget _ _ _ _ H) as [H1 H2].
  repeat split; assumption.
Qed.

Lemma counters_within_budget_witness :
  exists s,
    findFiles Examples.tree_abc ["root"%string] (Some Examples.find_txt_sync)
    = Some (Found (Returned (Envelope (Some [Examples.a_txt; Examples.c_txt])
                                      OK)) s) /\
    Forall (within_budget 2) (history s).
Proof.
  eexists. split; [vm_compute; reflexivity|].
  match goal with |- Forall _ (history ?s) => set (s0 := s) end.
  destruct (counters_within_budget Examples.tree_abc ["root"%string]
              Examples.find_txt_sync
              (Found (Returned (Envelope (Some [Examples.a_txt; Examples.c_txt])
                                         OK)) s0)
              (Found (Returned (Envelope (Some []) OK))
                     (Search 2 0 [] [] [] []
                        [Call (ExistsSync ["root"%string]); Counters 1 0;
                         Call (ExistsSync ["root"%string]);
                         Call (ReaddirSync ["root"%string]); Counters 2 0;
                         Call (ExistsSync ["root"%string; "sub"%string]);
                         Call (ReaddirSync ["root"%string; "sub"%string])]
                        None))
              s0) as (_ & H & _).
  - vm_compute. reflexivity.
  - vm_compute. reflexivity.
  - left. apply rtc_refl.
  - apply H. vm_compute. discriminate.
Defined.

(** C5 as stated fails for a negative searchLimit: the effective limit is
    the negative number, and [total] starts at 1 above it.  It fails for
    the searchLimit 1.5 as well: [total] is 1 below it, is incremented for
    the directory sub, and is then 2. *)
Lemma counters_exceed_negative_limit :
  limit_ceiling Examples.find_negative = -1 /\
  (exists r,
     findFiles Examples.tree_abc ["root"%string] (Some Examples.find_negative)
     = Some r /\
     In (Counters 1 0) (history (state r)) /\
     ~ within_budget (limit_ceiling Examples.find_negative) (Counters 1 0)) /\
  (exists r,
     findFiles Examples.tree_abc ["root"%string] (Some Examples.find_fraction)
     = Some r /\
     In (Counters 2 0) (history (state r)) /\
     ~ (inject_Z 2 <= effective_limit Examples.find_fraction)%Q).
Proof.
  split; [reflexivity|]. split.
  - eexists. split; [vm_compute; reflexivity|].
    split.
    + simpl. auto.
    + change (limit_ceiling Examples.find_negative) with (-1).
      unfold within_budget. lia.
  - eexists. split; [vm_compute; reflexivity|].
    split.
    + simpl. auto 10.
    + intros H. vm_compute in H. apply H. reflexivity.
Qed.

(** *** Templates that are neither a pattern nor a string *)

Lemma selects_falsy t p name :
  truthy t = false -> selects t p name = (true, p).
Proof.
  intros Ht. destruct t; try discriminate Ht; unfold selects; simpl;
    simpl in Ht; rewrite ?Ht; reflexivity.
Qed.

Lemma selects_truthy_other t p name :
  truthy t = true -> isRegExp t = false -> isString t = false ->
  selects t p name = (false, p).
Proof.
  intros Ht Hr Hs. unfold selects. rewrite Ht, Hr. simpl.
  destruct t; try discriminate; reflexivity.
Qed.

Lemma forEach_ext2 visit visit' rec rec' data s :
  (forall e s, visit e s = visit' e s) ->
  (forall d s, rec d s = rec' d s) ->
  forEach visit rec data s = forEach visit' rec' data s.
Proof.
  intros Hv Hr. revert s. induction data as [|e rest IH]; intros s; simpl.
  - reflexivity.
  - rewrite <- Hv. destruct (visit e s) as [s1 [p|]].
    + rewrite <- Hr. destruct (rec p s1); auto.
    + apply IH.
Qed.

Lemma processDirectory_sync_ext enumerate visit visit' fuel :
  (forall e s, visit e s = visit' e s) ->
  forall d s,
    processDirectory_sync enumerate visit fuel d s
    = processDirectory_sync enumerate visit' fuel d s.
Proof.
  intros Hv. induction fuel as [|fuel IH]; intros d s; simpl; [reflexivity|].
  destruct (result (enumerate d (Some sync_request))); [|reflexivity].
  apply forEach_ext2; assumption.
Qed.

Lemma find_with_template enumerate visit h this o t :
  (forall e s, visit (with_template t o) e s
               = visit (with_template JUndefined o) e s) ->
  find_with enumerate visit h this (Some (with_template t o))
  = find_with enumerate visit h this (Some (with_template JUndefined o)).
Proof.
  intros Hv. unfold find_with.
  change (sync (with_template t o)) with (sync o).
  change (sync (with_template JUndefined o)) with (sync o).
  change (onSuccess (with_template t o)) with (onSuccess o).
  change (onSuccess (with_template JUndefined o)) with (onSuccess o).
  change (limit_ceiling (with_template t o)) with (limit_ceiling o).
  change (limit_ceiling (with_template JUndefined o))
    with (limit_ceiling o).
  destruct (negb (localMode h)); [reflexivity|].
  destruct (negb (sync o) && negb (onSuccess o)); [reflexivity|].
  destruct (negb (exists_ h this)); [reflexivity|].
  destruct (sync o).
  - rewrite (processDirectory_sync_ext enumerate _ _ _ Hv). reflexivity.
  - reflexivity.
Qed.

Lemma step_template completed enumerate visit o t s s' :
  (forall e s, visit (with_template t o) e s
               = visit (with_template JUndefined o) e s) ->
  step completed enumerate (visit (with_template t o)) (with_template t o) s s'
  <-> step completed enumerate (visit (with_template JUndefined o))
           (with_template JUndefined o) s s'.
Proof.
  intros Hv.
  assert (Hc : forall d s0,
    complete completed enumerate (visit (with_template t o))
             (with_template t o) d s0
    = complete completed enumerate (visit (with_template JUndefined o))
               (with_template JUndefined o) d s0).
  { intros d s0. unfold complete, onSuccess_closure.
    change (async_request (with_template t o))
      with (async_request (with_template JUndefined o)).
    destruct (completed d _); [reflexivity|].
    rewrite (forEach_ext2 _ _ _ _ _ _ Hv
               (fun d s => eq_refl
                  (processDirectory_async enumerate
                     (with_template JUndefined o) d s))).
    reflexivity. }
  split; intros [x before d after y Hp Hcomp];
    eapply step_complete; try exact Hp;
    [rewrite <- Hc | rewrite Hc]; exact Hcomp.
Qed.

Lemma getAll_template h this o t :
  isRegExp t = false -> isString t = false ->
  getAll h this (Some (with_template t o))
  = getAll h this (Some (with_template JUndefined o)) /\
  getAll_completed h this (with_template t o)
  = getAll_completed h this (with_template JUndefined o).
Proof.
  intros Hr Hs. unfold getAll, getAll_completed. simpl.
  destruct (readdir h this) as [names|].
  - rewrite (getAll_processData_unfiltered h this t names Hr Hs).
    rewrite (getAll_processData_unfiltered h this JUndefined names)
      by reflexivity.
    split; reflexivity.
  - split; reflexivity.
Qed.

(** C6, as amended.  In getAll, getFiles and getDirectories a template
    that is neither a RegExp nor a string filters nothing: the call and
    its eventual callback are those of the same call without template.
    In findFiles and findDirectories that holds for the falsy templates
    (undefined, null, false, 0): the call and every step of its run are
    those of the same call without template.  A truthy template that is
    neither a RegExp nor a string selects no name there. *)
Theorem template_without_filter h this o t :
  (isRegExp t = false -> isString t = false ->
     getAll h this (Some (with_template t o))
     = getAll h this (Some (with_template JUndefined o)) /\
     getAll_completed h this (with_template t o)
     = getAll_completed h this (with_template JUndefined o) /\
     getFiles h this (Some (with_template t o))
     = getFiles h this (Some (with_template JUndefined o)) /\
     getFiles_completed h this (with_template t o)
     = getFiles_completed h this (with_template JUndefined o) /\
     getDirectories h this (Some (with_template t o))
     = getDirectories h this (Some (with_template JUndefined o)) /\
     getDirectories_completed h this (with_template t o)
     = getDirectories_completed h this (with_template JUndefined o)) /\
  (truthy t = false ->
     findFiles h this (Some (with_template t o))
     = findFiles h this (Some (with_template JUndefined o)) /\
     findDirectories h this (Some (with_template t o))
     = findDirectories h this (Some (with_template JUndefined o)) /\
     (forall s s',
        findFiles_step h (with_template t o) s s'
        <-> findFiles_step h (with_template JUndefined o) s s') /\
     (forall s s',
        findDirectories_step h (with_template t o) s s'
        <-> findDirectories_step h (with_template JUndefined o) s s')) /\
  (truthy t = true -> isRegExp t = false -> isString t = false ->
     forall p name, selects t p name = (false, p)).
Proof.
  split; [|split].
  - intros Hr Hs. destruct (getAll_template h this o t Hr Hs) as [HA HC].
    unfold getFiles, getDirectories, getFiles_completed,
      getDirectories_completed.
    change (sync (with_template t o)) with (sync o).
    change (sync (with_template JUndefined o)) with (sync o).
    change (onSuccess (with_template t o)) with (onSuccess o).
    change (onSuccess (with_template JUndefined o)) with (onSuccess o).
    rewrite HA, HC. repeat split; reflexivity.
  - intros Ht.
    assert (HF : forall e s,
      findFiles_visit (with_template t o) e s
      = findFiles_visit (with_template JUndefined o) e s).
    { intros e s. unfold findFiles_visit. rewrite ?below_limit_ceiling.
      change (limit_ceiling (with_template t o)) with (limit_ceiling o).
      change (limit_ceiling (with_template JUndefined o))
        with (limit_ceiling o).
      change (template (with_template t o)) with t.
      rewrite (selects_falsy t _ _ Ht). reflexivity. }
    assert (HD : forall e s,
      findDirectories_visit (with_template t o) e s
      = findDirectories_visit (with_template JUndefined o) e s).
    { intros e s. unfold findDirectories_visit. rewrite ?below_limit_ceiling.
      change (limit_ceiling (with_template t o)) with (limit_ceiling o).
      change (limit_ceiling (with_template JUndefined o))
        with (limit_ceiling o).
      change (template (with_template t o)) with t.
      rewrite (selects_falsy t _ _ Ht). reflexivity. }
    repeat split.
    + apply find_with_template. exact HF.
    + apply find_with_template. exact HD.
    + apply (step_template (getAll_completed h) (getAll h) findFiles_visit).
      exact HF.
    + apply (step_template (getAll_completed h) (getAll h) findFiles_visit).
      exact HF.
    + apply (step_template (getDirectories_completed h) (getDirectories h)
               findDirectories_visit). exact HD.
    + apply (step_template (getDirectories_completed h) (getDirectories h)
               findDirectories_visit). exact HD.
  - intros Ht Hr Hs p name. apply selects_truthy_other; assumption.
Qed.

Lemma template_without_filter_witness :
  getAll Examples.tree_abc ["root"%string]
         (Some (with_template (JNum 42) Examples.find_default))
  = getAll Examples.tree_abc ["root"%string]
           (Some (with_template JUndefined Examples.find_default)) /\
  findFiles Examples.tree_abc ["root"%string]
            (Some (with_template JNull Examples.find_default))
  = findFiles Examples.tree_abc ["root"%string]
              (Some (with_template JUndefined Examples.find_default)) /\
  selects (JNum 42) None "a.txt" = (false, None).
Proof.
  split; [|split].
  - apply (template_without_filter Examples.tree_abc ["root"%string]
             Examples.find_default (JNum 42)); reflexivity.
  - apply (template_without_filter Examples.tree_abc ["root"%string]
             Examples.find_default JNull); reflexivity.
  - apply (template_without_filter Examples.tree_abc ["root"%string]
             Examples.find_default (JNum 42)); reflexivity.
Defined.

(** C6 as stated fails for findFiles: the number 42 is neither a RegExp
    nor a string, yet with it as template no file is returned, while
    without template the two files of the root are. *)
Lemma findFiles_number_template_selects_nothing :
  isRegExp (JNum 42) = false /\ isString (JNum 42) = false /\
  (exists s,
     findFiles Examples.tree_abc ["root"%string]
               (Some (with_template (JNum 42) Examples.find_default))
     = Some (Found (Returned (Envelope (Some []) OK)) s)) /\
  (exists s,
     findFiles Examples.tree_abc ["root"%string]
               (Some (with_template JUndefined Examples.find_default))
     = Some (Found (Returned
                      (Envelope (Some [Examples.a_txt; Examples.b_png]) OK))
                   s)).
Proof.
  repeat split; eexists; vm_compute; reflexivity.
Qed.

(** *** Asynchronous getAll without a success callback *)

(** C7, as amended.  Asynchronous getAll with options, in local mode and
    without a success callback, makes one host call, the existence check
    of its path; it enumerates nothing and starts no asynchronous
    operation, so no callback is invoked later.  It returns null data with
    ERROR_CALLBACK_IS_NOT_AVAILABLE when the path exists and with
    ERROR_PATH_DOES_NOT_EXIST when it does not. *)
Theorem getAll_async_without_callback h this o :
  localMode h = true -> sync o = false -> onSuccess o = false ->
  calls (getAll h this (Some o)) = [ExistsSync this] /\
  enumerated (calls (getAll h this (Some o))) = [] /\
  started (calls (getAll h this (Some o))) = [] /\
  result (getAll h this (Some o))
  = Returned (failure (if exists_ h this
                       then ERROR_CALLBACK_IS_NOT_AVAILABLE
                       else ERROR_PATH_DOES_NOT_EXIST)).
Proof.
  intros Hl Hs Hc. unfold getAll. rewrite Hl, Hs, Hc. simpl.
  destruct (exists_ h this); repeat split; reflexivity.
Qed.

Lemma getAll_async_without_callback_witness :
  calls (getAll Examples.tree_abc ["root"%string] (Some no_options))
  = [ExistsSync ["root"%string]] /\
  enumerated (calls (getAll Examples.tree_abc ["root"%string]
                            (Some no_options))) = [] /\
  started (calls (getAll Examples.tree_abc ["root"%string]
                         (Some no_options))) = [] /\
  result (getAll Examples.tree_abc ["root"%string] (Some no_options))
  = Returned (failure ERROR_CALLBACK_IS_NOT_AVAILABLE).
Proof.
  apply (getAll_async_without_callback Examples.tree_abc ["root"%string]
           no_options); reflexivity.
Defined.

(** C7 as stated fails: the existence check is a host call and comes
    before the check of the callback, so the host is reached, and on a
    path that does not exist the status is that of the path. *)
Lemma getAll_without_callback_reaches_host :
  calls (getAll Examples.tree_abc ["root"%string] (Some no_options))
  = [ExistsSync ["root"%string]] /\
  calls (getAll Examples.tree_abc ["nowhere"%string] (Some no_options))
  = [ExistsSync ["nowhere"%string]] /\
  result (getAll Examples.tree_abc ["nowhere"%string] (Some no_options))
  = Returned (failure ERROR_PATH_DOES_NOT_EXIST).
Proof. repeat split; reflexivity. Qed.

(** *** Guards of the mutating operations *)

(** create returns before the host's mkdir when the directory exists. *)
Lemma create_guarded this w :
  localMode (host w) = true -> exists_ (host w) this = true ->
  create this w
  = (Returned ERROR_DIRECTORY_ALREADY_EXISTS,
     World (host w) (trace w ++ [ExistsSync this])).
Proof. intros Hl He. unfold create. rewrite Hl, He. reflexivity. Qed.

(** remove returns before the host's rmdir when getAll lists an entity. *)
Lemma remove_guarded this object w names :
  localMode (host w) = true -> exists_ (host w) this = true ->
  readdir (host w) this = Some names ->
  children (host w) this names <> [] ->
  remove this object w
  = (Returned ERROR_DIRECTORY_IS_NOT_EMPTY,
     World (host w)
           (trace w ++ [ExistsSync this; ExistsSync this; ReaddirSync this])).
Proof.
  intros Hl He Hr Hne. unfold remove, isEmpty.
  rewrite Hl, He. cbn [negb].
  rewrite getAll_sync_listing by assumption. rewrite Hr. cbn.
  destruct (children (host w) this names) as [|e l]; [congruence|].
  cbn. unfold called. cbn. rewrite <- app_assoc. reflexivity.
Qed.

(** createAsync calls the host's mkdir whatever its guards found. *)
Lemma createAsync_always_calls_mkdir this w :
  In (Mkdir this) (trace (snd (createAsync this w))).
Proof.
  unfold createAsync.
  destruct (host_mkdir (host w) this); simpl;
    rewrite <- app_assoc; apply in_or_app; right; simpl; auto.
Qed.

(** C8 fails in createAsync.  On the directory sub of the example tree,
    which exists, create reports ERROR_DIRECTORY_ALREADY_EXISTS after the
    existence check alone, and remove of the root, which is not empty,
    reports ERROR_DIRECTORY_IS_NOT_EMPTY without calling rmdir; but
    createAsync, which resolves with ERROR_DIRECTORY_ALREADY_EXISTS, goes
    on to call the host's mkdir on the existing path. *)
Theorem createAsync_calls_mkdir_on_existing_directory :
  create ["root"; "sub"]%string (World Examples.tree_abc [])
  = (Returned ERROR_DIRECTORY_ALREADY_EXISTS,
     World Examples.tree_abc [ExistsSync ["root"; "sub"]%string]) /\
  remove ["root"%string] (Some Examples.find_default)
         (World Examples.tree_abc [])
  = (Returned ERROR_DIRECTORY_IS_NOT_EMPTY,
     World Examples.tree_abc
           [ExistsSync ["root"%string]; ExistsSync ["root"%string];
            ReaddirSync ["root"%string]]) /\
  createAsync ["root"; "sub"]%string (World Examples.tree_abc [])
  = (Some (Resolved ERROR_DIRECTORY_ALREADY_EXISTS),
     World Examples.tree_abc
           [ExistsSync ["root"; "sub"]%string; Mkdir ["root"; "sub"]%string]) /\
  mutates (Mkdir ["root"; "sub"]%string) = true.
Proof. repeat split; reflexivity. Qed.

(** *** The scenario: a.txt, b.png and sub/c.txt *)

Lemma permutation_of_three {A} (a b c : A) l :
  Permutation [a; b; c] l ->
  l = [a; b; c] \/ l = [a; c; b] \/ l = [b; a; c] \/
  l = [b; c; a] \/ l = [c; a; b] \/ l = [c; b; a].
Proof.
  intros Hp. pose proof (Permutation_length Hp) as Hlen.
  destruct l as [|x [|y [|z [|? ?]]]]; try discriminate.
  assert (Hx : In x [a; b; c]).
  { eapply Permutation_in; [symmetry; exact Hp | left; reflexivity]. }
  destruct Hx as [<- | [<- | [<- | []]]].
  - apply Permutation_cons_inv in Hp.
    apply Permutation_length_2_inv in Hp. destruct Hp as [H | H];
      inversion H; auto.
  - assert (H : Permutation (b :: [a; c]) (b :: [y; z])).
    { etransitivity; [|exact Hp]. apply perm_swap. }
    apply Permutation_cons_inv in H.
    apply Permutation_length_2_inv in H. destruct H as [H | H];
      inversion H; auto 6.
  - assert (H : Permutation (c :: [a; b]) (c :: [y; z])).
    { etransitivity; [|exact Hp]. apply (Permutation_cons_append [a; b] c). }
    apply Permutation_cons_inv in H.
    apply Permutation_length_2_inv in H. destruct H as [H | H];
      inversion H; auto 7.
Qed.

(** A run whose only pending enumeration is [d] goes through the state
    its completion gives. *)
Lemma run_singleton completed enumerate visit object s0 d s1 s :
  pending s0 = [d] ->
  complete completed enumerate visit object d (set_pending [] s0) = Normal s1 ->
  rtc (step completed enumerate visit object) s0 s ->
  s = s0 \/ rtc (step completed enumerate visit object) s1 s.
Proof.
  intros Hp Hc Hr. inversion Hr as [|? y ? Hxy Hyz]; subst; [left; reflexivity|].
  right. apply step_singleton with (d := d) in Hxy; [|exact Hp].
  rewrite Hc in Hxy. inversion Hxy; subst. exact Hyz.
Qed.

Lemma step_of_singleton completed enumerate visit object s0 d s1 :
  pending s0 = [d] ->
  complete completed enumerate visit object d (set_pending [] s0) = Normal s1 ->
  step completed enumerate visit object s0 s1.
Proof.
  intros Hp Hc.
  eapply step_complete with (before := []) (after := []); eassumption.
Qed.

(** C4.  On the root holding a.txt, b.png and sub/c.txt, in whatever
    order the host lists the root, findFiles with the template that
    matches names ending in .txt and searchLimit 2 returns OK with a.txt
    and c.txt and nothing else, having enumerated the root and sub; in
    asynchronous mode the run ends and passes that result to the success
    callback. *)
Theorem scenario_find_txt listing :
  Permutation ["a.txt"; "b.png"; "sub"]%string listing ->
  (exists d s,
     findFiles (Examples.tree listing) ["root"%string]
               (Some Examples.find_txt_sync)
     = Some (Found (Returned (Envelope (Some d) OK)) s) /\
     Permutation [Examples.a_txt; Examples.c_txt] d /\
     enumerated (calls_of (history s))
     = [["root"%string]; ["root"; "sub"]%string]) /\
  (exists s0,
     findFiles (Examples.tree listing) ["root"%string]
               (Some Examples.find_txt_async)
     = Some (Found (Returned (failure WAIT_FOR_ASYNC_OPERATION)) s0) /\
     (exists s,
        rtc (findFiles_step (Examples.tree listing) Examples.find_txt_async)
            s0 s /\ pending s = []) /\
     (forall s,
        rtc (findFiles_step (Examples.tree listing) Examples.find_txt_async)
            s0 s ->
        pending s = [] ->
        exists d, delivered s = [Envelope (Some d) OK] /\
                  Permutation [Examples.a_txt; Examples.c_txt] d)).
Proof.
  intros Hp. apply permutation_of_three in Hp. unfold findFiles_step.
  destruct Hp as [-> | [-> | [-> | [-> | [-> | ->]]]]];
    (split;
     [ eexists _, _; split; [vm_compute; reflexivity|];
       split; [first [apply Permutation_refl | apply perm_swap] | reflexivity]
     | eexists; split; [vm_compute; reflexivity|]; split;
       [ eexists; split;
         [ eapply rtc_l;
           [ eapply step_of_singleton; vm_compute; reflexivity
           | eapply rtc_l;
             [ eapply step_of_singleton; vm_compute; reflexivity
             | apply rtc_refl ] ]
         | reflexivity ]
       | intros s Hr Hpend;
         eapply run_singleton in Hr;
           [| vm_compute; reflexivity | vm_compute; reflexivity];
         destruct Hr as [-> | Hr]; [discriminate Hpend|];
         eapply run_singleton in Hr;
           [| vm_compute; reflexivity | vm_compute; reflexivity];
         destruct Hr as [-> | Hr]; [discriminate Hpend|];
         apply rtc_stuck in Hr; [|reflexivity]; subst s;
         eexists; split; [reflexivity|];
         first [apply Permutation_refl | apply perm_swap] ] ]).
Qed.

Lemma scenario_find_txt_witness :
  exists s,
    findFiles Examples.tree_abc ["root"%string] (Some Examples.find_txt_sync)
    = Some (Found (Returned (Envelope (Some [Examples.a_txt; Examples.c_txt])
                                      OK)) s).
Proof.
  destruct (scenario_find_txt ["a.txt"; "b.png"; "sub"]%string
              (Permutation_refl _)) as [(d & s & Hf & _) _].
  exists s. vm_compute in Hf. vm_compute.
  inversion Hf. reflexivity.
Defined.

End DirectoryProps.

(** ** Further properties of DKTools.IO.WebStorage *)

Module WebStorageExtra.
Import WebStorage WebStorageProps.

(** X1.  On a key that the store does not hold, or that names an
    inherited member of the store, load, remove and rename report
    ERROR_PATH_DOES_NOT_EXIST; load gives null data, and remove and rename
    leave the store as it was, whatever the new key and the overwrite
    flag. *)
Theorem missing_key_reports_path c (ls : storage) key newKey ow o :
  ls !! key = None \/ inherited c key = true ->
  load c ls key o = Envelope JNull ERROR_PATH_DOES_NOT_EXIST /\
  remove c ls key = (ERROR_PATH_DOES_NOT_EXIST, ls) /\
  rename c ls key newKey ow = (ERROR_PATH_DOES_NOT_EXIST, ls).
Proof.
  intros H. assert (He : exists_ c ls key = false)
    by (apply exists_false; exact H).
  unfold load, remove, rename. rewrite He. repeat split; reflexivity.
Qed.

Lemma missing_key_reports_path_witness :
  load Examples.literal_codecs ∅ "slot"%string (LoadOptions true true)
  = Envelope JNull ERROR_PATH_DOES_NOT_EXIST /\
  remove Examples.literal_codecs ∅ "slot"%string
  = (ERROR_PATH_DOES_NOT_EXIST, ∅) /\
  rename Examples.literal_codecs ∅ "slot"%string "other"%string true
  = (ERROR_PATH_DOES_NOT_EXIST, ∅).
Proof.
  apply (missing_key_reports_path Examples.literal_codecs ∅ "slot"%string
           "other"%string true (LoadOptions true true)).
  left. reflexivity.
Defined.

(** X2.  load returns one of four statuses; its data is null unless the
    status is OK; the path error is reported exactly for the keys that
    the store does not hold or that name an inherited member of the store,
    and the decompressing and parsing errors only when that stage was
    asked for. *)
Theorem load_envelope_invariant c (ls : storage) key o :
  (st (load c ls key o) = OK \/
   st (load c ls key o) = ERROR_PATH_DOES_NOT_EXIST \/
   st (load c ls key o) = ERROR_DECOMPRESSING_DATA \/
   st (load c ls key o) = ERROR_PARSING_DATA) /\
  (st (load c ls key o) <> OK -> data (load c ls key o) = JNull) /\
  (st (load c ls key o) = ERROR_PATH_DOES_NOT_EXIST <->
   ls !! key = None \/ inherited c key = true) /\
  (st (load c ls key o) = ERROR_DECOMPRESSING_DATA -> decompress o = true) /\
  (st (load c ls key o) = ERROR_PARSING_DATA -> parse o = true).
Proof.
  unfold load, getItem.
  destruct (exists_ c ls key) eqn:He.
  - apply exists_true in He. destruct He as [[s Hs] Hi]. rewrite Hs, Hi.
    cbn [negb].
    assert (Hne : Some s = None \/ false = true <-> False)
      by (split; [intros [H | H]; discriminate | tauto]).
    destruct (truthy (JStr s)).
    + destruct (decompress o), (parse o);
        try destruct (decompressFromBase64 c s) as [d|];
        try destruct (JSON_parse c _); cbn;
        repeat split; auto; try discriminate; try tauto;
        try (intros H; exfalso; apply H; reflexivity);
        try (intros [H | H]; discriminate).
    + cbn. repeat split; auto; try discriminate; try tauto;
        try (intros [H | H]; discriminate).
  - cbn. apply exists_false in He.
    repeat split; auto; try discriminate; try tauto.
Qed.

(** X3.  A key that names no inherited member and holds the empty string
    loads as the empty string with OK: neither stage is run on it,
    whatever was asked for and whatever the codecs would do. *)
Theorem load_empty_string_skips_stages c (ls : storage) key o :
  ls !! key = Some EmptyString ->
  inherited c key = false ->
  load c ls key o = Envelope (JStr EmptyString) OK.
Proof.
  intros H Hi. unfold load, getItem.
  rewrite (exists_held c ls key _ H Hi), H. reflexivity.
Qed.

Lemma load_empty_string_skips_stages_witness :
  load Examples.literal_codecs {[ "slot"%string := EmptyString ]}
       "slot"%string (LoadOptions true true)
  = Envelope (JStr EmptyString) OK.
Proof.
  apply (load_empty_string_skips_stages Examples.literal_codecs
           {[ "slot"%string := EmptyString ]} "slot"%string
           (LoadOptions true true)).
  - vm_compute. reflexivity.
  - reflexivity.
Defined.

Lemma getItem_held c (ls : storage) key x :
  ls !! key = Some x -> ToString c (getItem ls key) = x.
Proof. intros H. unfold getItem. rewrite H. reflexivity. Qed.

(** X4.  Renaming a held key that names no inherited member to a
    different key returns OK and moves the value, when overwriting is
    allowed or the new key is free or names an inherited member: the new
    key holds what the old key held, the old key is gone, and every other
    key is untouched.  When the new key names no inherited member,
    loading it gives what loading the old key gave. *)
Theorem rename_moves_value c (ls : storage) oldKey newKey ow x :
  ls !! oldKey = Some x ->
  inherited c oldKey = false ->
  oldKey <> newKey ->
  (ow = true \/ ls !! newKey = None \/ inherited c newKey = true) ->
  exists ls',
    rename c ls oldKey newKey ow = (OK, ls') /\
    ls' !! newKey = Some x /\
    ls' !! oldKey = None /\
    (forall k, k <> oldKey -> k <> newKey -> ls' !! k = ls !! k) /\
    (inherited c newKey = false ->
     forall o, load c ls' newKey o = load c ls oldKey o).
Proof.
  intros Hold Hi Hne How.
  pose proof (exists_held c ls oldKey x Hold Hi) as He.
  assert (Hguard : negb ow && exists_ c ls newKey = false).
  { destruct How as [-> | Hn]; [reflexivity|].
    apply (exists_false c) in Hn. rewrite Hn. apply andb_false_r. }
  unfold rename. rewrite He, Hguard. cbn [negb].
  eexists. split; [reflexivity|].
  unfold removeItem, setItem. rewrite (getItem_held c ls oldKey x Hold).
  assert (Hnew : delete oldKey (<[newKey:=x]> ls) !! newKey = Some x).
  { rewrite lookup_delete_ne by exact Hne. apply lookup_insert_eq. }
  repeat split.
  - exact Hnew.
  - apply lookup_delete_eq.
  - intros k Hk1 Hk2. rewrite lookup_delete_ne by congruence.
    apply lookup_insert_ne. congruence.
  - intros Hin o. unfold load, getItem.
    rewrite (exists_held c _ newKey x Hnew Hin), He, Hnew, Hold.
    reflexivity.
Qed.

Lemma rename_moves_value_witness :
  exists ls',
    rename Examples.literal_codecs {[ "a"%string := "1"%string ]}
           "a"%string "b"%string false = (OK, ls') /\
    ls' !! "b"%string = Some "1"%string /\
    ls' !! "a"%string = None.
Proof.
  destruct (rename_moves_value Examples.literal_codecs
              {[ "a"%string := "1"%string ]} "a"%string "b"%string false
              "1"%string) as (ls' & H1 & H2 & H3 & _).
  - vm_compute. reflexivity.
  - reflexivity.
  - discriminate.
  - right. left. vm_compute. reflexivity.
  - exists ls'. auto.
Defined.

(** X5.  Without the overwrite flag rename refuses a new key that is held
    and names no inherited member, the old key being such a key too: it
    reports ERROR_OVERWRITING_IS_NOT_AVAILABLE and changes nothing.  That
    includes renaming such a key to itself, which then keeps its value. *)
Theorem rename_refuses_overwrite c (ls : storage) oldKey newKey :
  is_Some (ls !! oldKey) -> inherited c oldKey = false ->
  is_Some (ls !! newKey) -> inherited c newKey = false ->
  rename c ls oldKey newKey false
  = (ERROR_OVERWRITING_IS_NOT_AVAILABLE, ls).
Proof.
  intros Ho Hio Hn Hin.
  assert (H1 : exists_ c ls oldKey = true) by (apply exists_true; auto).
  assert (H2 : exists_ c ls newKey = true) by (apply exists_true; auto).
  unfold rename. rewrite H1, H2. reflexivity.
Qed.

Lemma rename_refuses_overwrite_witness :
  rename Examples.literal_codecs {[ "a"%string := "1"%string ]}
         "a"%string "a"%string false
  = (ERROR_OVERWRITING_IS_NOT_AVAILABLE, {[ "a"%string := "1"%string ]}).
Proof.
  apply (rename_refuses_overwrite Examples.literal_codecs
           {[ "a"%string := "1"%string ]} "a"%string "a"%string);
    try reflexivity; exists "1"%string; vm_compute; reflexivity.
Defined.

(** X6.  save reports OK or ERROR_OVERWRITING_IS_NOT_AVAILABLE.  It
    refuses exactly when overwrite is false and the key is held and names
    no inherited member, and then the store is unchanged; otherwise, also
    for a held key that names an inherited member, it writes and the key
    is held afterwards.  No other key is ever touched. *)
Theorem save_touches_only_its_key c (ls : storage) key v object :
  let ow := match object with
            | Some o => match overwrite o with Some b => b | None => true end
            | None => true
            end in
  (forall k, k <> key -> snd (save c ls key v object) !! k = ls !! k) /\
  (ow = false /\ is_Some (ls !! key) /\ inherited c key = false ->
   save c ls key v object = (ERROR_OVERWRITING_IS_NOT_AVAILABLE, ls)) /\
  (ow = true \/ ls !! key = None \/ inherited c key = true ->
   fst (save c ls key v object) = OK /\
   is_Some (snd (save c ls key v object) !! key)).
Proof.
  cbn zeta. unfold save.
  set (o := match object with
            | Some o => o
            | None => SaveOptions None false false
            end).
  replace (match object with
           | Some o0 => match overwrite o0 with Some b => b | None => true end
           | None => true
           end)
    with (match overwrite o with Some b => b | None => true end)
    by (subst o; destruct object; reflexivity).
  destruct (match overwrite o with Some b => b | None => true end);
    cbn [negb andb].
  - split; [|split]; cbn [fst snd].
    + intros k Hk. unfold setItem. apply lookup_insert_ne. congruence.
    + intros [H _]. discriminate.
    + intros _. split; [reflexivity|].
      unfold setItem. rewrite lookup_insert_eq. eauto.
  - destruct (exists_ c ls key) eqn:He.
    + split; [|split]; cbn [fst snd].
      * reflexivity.
      * reflexivity.
      * intros [H | H]; [discriminate|].
        apply (exists_false c) in H. congruence.
    + split; [|split]; cbn [fst snd].
      * intros k Hk. unfold setItem. apply lookup_insert_ne. congruence.
      * intros (_ & H1 & H2).
        assert (exists_ c ls key = true) by (apply exists_true; auto).
        congruence.
      * intros _. split; [reflexivity|].
        unfold setItem. rewrite lookup_insert_eq. eauto.
Qed.

(** X7.  Under a key that names no inherited member what is saved loads
    back.  A string saved without the stringify stage loads back unchanged
    without the parse stage, the empty string included, with the compress
    and decompress stages both off, or both on when LZString round-trips;
    and a JSON-serializable value saved with the stringify and compress
    stages loads back with the decompress and parse stages when LZString
    round-trips. *)
Theorem string_roundtrip c (ls : storage) key s ow cf :
  inherited c key = false ->
  (cf = true -> lz_roundtrip c) ->
  (ow = Some false -> ls !! key = None) ->
  (exists ls',
     save c ls key (JStr s) (Some (SaveOptions ow false cf)) = (OK, ls') /\
     load c ls' key (LoadOptions cf false) = Envelope (JStr s) OK) /\
  (forall v, lz_roundtrip c -> json_serializable c v ->
     exists ls',
       save c ls key v (Some (SaveOptions ow true true)) = (OK, ls') /\
       load c ls' key (LoadOptions true true) = Envelope v OK).
Proof.
  intros Hi Hlz How. split.
  - unfold save. cbn [overwrite stringify compress].
    rewrite (overwrite_guard c ls key ow How).
    eexists. split; [reflexivity|].
    unfold load. rewrite (exists_setItem _ _ _ _ Hi), getItem_setItem.
    destruct cf; cbn [ToString decompress parse negb].
    + destruct (Hlz eq_refl s) as [Hne Hdec].
      cbn [truthy]. rewrite (eqb_empty_false _ Hne). cbn [negb].
      rewrite Hdec. reflexivity.
    + destruct (truthy (JStr s)); reflexivity.
  - intros v Hlz' Hv. apply save_load_roundtrip; assumption.
Qed.

Lemma string_roundtrip_witness :
  exists ls',
    save Examples.literal_codecs ∅ "slot"%string (JStr "text")
         (Some (SaveOptions None false true)) = (OK, ls') /\
    load Examples.literal_codecs ls' "slot"%string (LoadOptions true false)
    = Envelope (JStr "text") OK.
Proof.
  apply (string_roundtrip Examples.literal_codecs ∅ "slot"%string
           "text"%string None true).
  - reflexivity.
  - intros _ s. split; [discriminate | reflexivity].
  - discriminate.
Defined.

(** X8.  When save is not refused and the key names no inherited member,
    a remove of the same key returns OK and leaves the store without the
    key and otherwise as it was before the save; if the key was not held
    before, that is the store before the save. *)
Theorem save_then_remove c (ls : storage) key v ow sf cf :
  inherited c key = false ->
  (ow = Some false -> ls !! key = None) ->
  exists ls1,
    save c ls key v (Some (SaveOptions ow sf cf)) = (OK, ls1) /\
    remove c ls1 key = (OK, delete key ls) /\
    (ls !! key = None -> remove c ls1 key = (OK, ls)).
Proof.
  intros Hi How.
  unfold save. cbn [overwrite stringify compress].
  rewrite (overwrite_guard c ls key ow How).
  eexists. split; [reflexivity|].
  unfold remove. rewrite (exists_setItem _ _ _ _ Hi). cbn [negb].
  unfold removeItem, setItem. rewrite delete_insert_eq.
  split; [reflexivity|]. intros Hnone. rewrite delete_id by exact Hnone.
  reflexivity.
Qed.

Lemma save_then_remove_witness :
  exists ls1,
    save Examples.literal_codecs ∅ "slot"%string (JBool true)
         (Some (SaveOptions (Some false) true true)) = (OK, ls1) /\
    remove Examples.literal_codecs ls1 "slot"%string = (OK, ∅).
Proof.
  destruct (save_then_remove Examples.literal_codecs ∅ "slot"%string
              (JBool true) (Some false) true true) as (ls1 & H1 & _ & H3).
  - reflexivity.
  - intros _. reflexivity.
  - exists ls1. split; [exact H1|]. apply H3. reflexivity.
Defined.

End WebStorageExtra.

(** ** Further properties of DKTools.IO.Directory *)

Module DirectoryExtra.
Import Directory DirectoryProps.

(** *** Listings *)

Lemma getFullName_child (d : path) n : List.last (d ++ [n]) EmptyString = n.
Proof. apply last_last. Qed.

Lemma in_children h d names e :
  In e (children h d names) <->
  exists n, In n names /\
    ((stat h (d ++ [n]) = Some KFile /\ e = File (d ++ [n])) \/
     (stat h (d ++ [n]) = Some KDirectory /\ e = Directory (d ++ [n]))).
Proof.
  unfold children. rewrite in_flat_map. split.
  - intros (n & Hin & He). exists n. split; [exact Hin|].
    destruct (stat h (d ++ [n])) as [[| |]|]; simpl in He;
      try contradiction; destruct He as [<- | []]; auto.
  - intros (n & Hin & [[Hs ->] | [Hs ->]]); exists n; rewrite Hs; simpl; auto.
Qed.

Lemma children_filter h d (f : string -> bool) names :
  children h d (List.filter f names)
  = List.filter (fun e => f (getFullName e)) (children h d names).
Proof.
  induction names as [|n names IH]; simpl; [reflexivity|].
  rewrite List.filter_app, <- IH.
  destruct (f n) eqn:Hf; simpl;
    destruct (stat h (d ++ [n])) as [[| |]|]; simpl;
    unfold getFullName; simpl; rewrite ?getFullName_child, ?Hf; reflexivity.
Qed.

Lemma filter_tests_flagless test p names :
  filter_tests (JRegExp test) p names = (List.filter test names, p).
Proof.
  induction names as [|n names IH]; simpl; [reflexivity|].
  rewrite IH. simpl. destruct (test n); reflexivity.
Qed.

Lemma filter_names_passes t names :
  stateless t = true ->
  filter_names t names = List.filter (passes t) names.
Proof.
  intros Ht. destruct t; try discriminate Ht; unfold filter_names; simpl;
    try (induction names as [|n names IH]; simpl; [reflexivity|]; congruence).
  - reflexivity.
  - rewrite filter_tests_flagless. reflexivity.
Qed.

Lemma getAll_processData_passes h d t names :
  stateless t = true ->
  getAll_processData h d t names
  = Envelope (Some (List.filter (fun e => passes t (getFullName e))
                                (children h d names))) OK.
Proof.
  intros Ht. unfold getAll_processData.
  rewrite fold_left_reducer, (filter_names_passes t names Ht),
    children_filter.
  reflexivity.
Qed.

(** X9.  In local mode, on an existing path whose listing the host gives,
    and with a template that is no RegExp with the g or y flag,
    synchronous getAll returns OK with exactly the listed children that
    are a file or a directory and whose name passes the template, in the
    order of the listing, after one existence check and one enumeration;
    the callback of the asynchronous getAll receives the same envelope.
    A name passes a RegExp that matches it, a string equal to it, and any
    other template. *)
Theorem getAll_returns_matching_children h this o names :
  localMode h = true -> exists_ h this = true ->
  readdir h this = Some names ->
  stateless (template o) = true ->
  let l := List.filter (fun e => passes (template o) (getFullName e))
                       (children h this names) in
  (sync o = true ->
   getAll h this (Some o)
   = Effect (Returned (Envelope (Some l) OK))
            [ExistsSync this; ReaddirSync this]) /\
  getAll_completed h this o = CallSuccess (Envelope (Some l) OK) /\
  (forall e, In e l <->
     exists n, In n names /\ passes (template o) n = true /\
       ((stat h (this ++ [n]) = Some KFile /\ e = File (this ++ [n])) \/
        (stat h (this ++ [n]) = Some KDirectory /\
         e = Directory (this ++ [n])))).
Proof.
  intros Hl He Hr Ht l. split; [|split].
  - intros Hs. unfold getAll. rewrite Hl, He, Hs, Hr. cbn [negb].
    rewrite getAll_processData_passes by exact Ht. reflexivity.
  - unfold getAll_completed. rewrite Hr, getAll_processData_passes
      by exact Ht.
    reflexivity.
  - intros e. subst l. rewrite filter_In, in_children. split.
    + intros [(n & Hin & Hcase) Hp]. exists n. split; [exact Hin|].
      assert (Hn : getFullName e = n).
      { destruct Hcase as [[_ ->] | [_ ->]]; apply getFullName_child. }
      rewrite Hn in Hp. auto.
    + intros (n & Hin & Hp & Hcase). split; [exists n; auto|].
      assert (Hn : getFullName e = n).
      { destruct Hcase as [[_ ->] | [_ ->]]; apply getFullName_child. }
      rewrite Hn. exact Hp.
Qed.

Lemma getAll_returns_matching_children_witness :
  getAll Examples.tree_abc ["root"%string] (Some Examples.find_txt_sync)
  = Effect (Returned (Envelope (Some [Examples.a_txt]) OK))
           [ExistsSync ["root"%string]; ReaddirSync ["root"%string]].
Proof.
  apply (getAll_returns_matching_children Examples.tree_abc ["root"%string]
           Examples.find_txt_sync ["a.txt"; "b.png"; "sub"]%string);
    reflexivity.
Defined.

Lemma getAll_ok_has_data h this object env :
  result (getAll h this object) = Returned env ->
  (data env <> None <-> status_eqb (st env) OK = true).
Proof.
  unfold getAll. intros Hres.
  assert (Hcases : (exists l, env = Envelope (Some l) OK) \/
                   (exists e, env = failure e /\ e <> OK)).
  { destruct object as [o|];
      [|inversion Hres; right; eexists; split; [reflexivity | discriminate]].
    destruct (negb (localMode h));
      [inversion Hres; right; eexists; split; [reflexivity | discriminate]|].
    destruct (negb (exists_ h this));
      [inversion Hres; right; eexists; split; [reflexivity | discriminate]|].
    destruct (sync o).
    - destruct (readdir h this); inversion Hres.
      left. unfold getAll_processData. eauto.
    - destruct (negb (onSuccess o)); inversion Hres;
        right; eexists; (split; [reflexivity | discriminate]). }
  destruct Hcases as [[l ->] | (e & -> & He)]; cbn.
  - split; [reflexivity | discriminate].
  - split; [congruence|]. destruct e; try discriminate. congruence.
Qed.

Lemma filter_kinds_permutation (l : list entity) :
  Permutation (List.filter isFile l ++ List.filter isDirectory l) l.
Proof.
  induction l as [|e l IH]; simpl; [constructor|].
  destruct e; simpl.
  - constructor. exact IH.
  - etransitivity; [symmetry; apply Permutation_middle|].
    constructor. exact IH.
Qed.

(** X10.  getFiles and getDirectories partition what getAll returns.  For
    a synchronous call on which getAll returns OK with a list, getFiles
    returns OK with its files and getDirectories OK with its directories,
    each after the same host calls as getAll; together they are a
    permutation of the list and no entity is in both.  On any other result
    of getAll both return that result. *)
Theorem getFiles_getDirectories_partition h this o :
  sync o = true ->
  calls (getFiles h this (Some o)) = calls (getAll h this (Some o)) /\
  calls (getDirectories h this (Some o)) = calls (getAll h this (Some o)) /\
  (forall l,
     result (getAll h this (Some o)) = Returned (Envelope (Some l) OK) ->
     result (getFiles h this (Some o))
     = Returned (Envelope (Some (List.filter isFile l)) OK) /\
     result (getDirectories h this (Some o))
     = Returned (Envelope (Some (List.filter isDirectory l)) OK) /\
     Permutation (List.filter isFile l ++ List.filter isDirectory l) l /\
     (forall e, ~ (In e (List.filter isFile l) /\
                   In e (List.filter isDirectory l)))) /\
  (forall r,
     result (getAll h this (Some o)) = r ->
     (forall l, r <> Returned (Envelope (Some l) OK)) ->
     result (getFiles h this (Some o)) = r /\
     result (getDirectories h this (Some o)) = r).
Proof.
  intros Hs. unfold getFiles, getDirectories. rewrite Hs.
  rewrite !kind_filtered_calls. split; [reflexivity|]. split; [reflexivity|].
  split.
  - intros l Hres. unfold kind_filtered. rewrite Hres. cbn.
    repeat split; try reflexivity.
    + apply filter_kinds_permutation.
    + intros e [H1 H2]. apply filter_In in H1. apply filter_In in H2.
      destruct e; destruct H1 as [_ H1]; destruct H2 as [_ H2]; discriminate.
  - intros r Hres Hnot. unfold kind_filtered. rewrite Hres.
    destruct r as [[d st0]|x]; [|split; exact Hres].
    cbn [st]. destruct (status_eqb st0 OK) eqn:Hst; [|split; exact Hres].
    exfalso. destruct st0; try discriminate.
    destruct d as [l|]; [apply (Hnot l); reflexivity|].
    apply (getAll_ok_has_data h this (Some o) _ Hres) in Hst.
    apply Hst. reflexivity.
Qed.

Lemma getFiles_getDirectories_partition_witness :
  result (getFiles Examples.tree_abc ["root"%string]
                   (Some Examples.find_default))
  = Returned (Envelope (Some [Examples.a_txt; Examples.b_png]) OK) /\
  result (getDirectories Examples.tree_abc ["root"%string]
                         (Some Examples.find_default))
  = Returned (Envelope (Some [Examples.sub]) OK).
Proof.
  destruct (getFiles_getDirectories_partition Examples.tree_abc
              ["root"%string] Examples.find_default eq_refl)
    as (_ & _ & H & _).
  destruct (H [Examples.a_txt; Examples.b_png; Examples.sub])
    as (HF & HD & _); [reflexivity|].
  split; [exact HF | exact HD].
Defined.

(** *** Results and the trust-level gate *)

Lemma kind_filtered_shape keep r env :
  result (kind_filtered keep r) = Returned env ->
  exists env0, result r = Returned env0 /\ st env = st env0 /\
               (data env <> None <-> data env0 <> None).
Proof.
  unfold kind_filtered. destruct (result r) as [env0|e] eqn:Hr.
  - destruct (status_eqb (st env0) OK).
    + intros H. inversion H. exists env0. cbn. repeat split; auto.
      * destruct (data env0); cbn; congruence.
      * destruct (data env0); cbn; congruence.
    + rewrite Hr. intros H. inversion H. exists env. tauto.
  - rewrite Hr. discriminate.
Qed.

Lemma status_eqb_OK s : status_eqb s OK = true <-> s = OK.
Proof. destruct s; cbn; split; congruence. Qed.

Lemma getKind_ok_has_data keep h this o env :
  result (if sync o then kind_filtered keep (getAll h this (Some o))
          else if negb (onSuccess o)
          then Effect (Returned (failure ERROR_CALLBACK_IS_NOT_AVAILABLE)) []
          else getAll h this (Some o)) = Returned env ->
  (data env <> None <-> st env = OK).
Proof.
  destruct (sync o).
  - intros H. apply kind_filtered_shape in H.
    destruct H as (env0 & H0 & Hst & Hd).
    apply getAll_ok_has_data in H0. rewrite status_eqb_OK in H0.
    rewrite Hd, Hst. exact H0.
  - destruct (negb (onSuccess o)).
    + intros H. inversion H. cbn. split; [congruence | discriminate].
    + intros H. apply getAll_ok_has_data in H.
      rewrite status_eqb_OK in H. exact H.
Qed.

Lemma find_with_ok_has_data enumerate visit h this object env s :
  find_with enumerate visit h this object = Some (Found (Returned env) s) ->
  (data env <> None <-> st env = OK).
Proof.
  unfold find_with.
  assert (Hfail : forall e, e <> OK ->
            (data (failure e) <> None <-> st (failure e) = OK)).
  { intros e He. cbn. split; congruence. }
  destruct object as [o|];
    [|intros H; inversion H; apply Hfail; discriminate].
  destruct (negb (localMode h));
    [intros H; inversion H; apply Hfail; discriminate|].
  destruct (negb (sync o) && negb (onSuccess o));
    [intros H; inversion H; apply Hfail; discriminate|].
  destruct (negb (exists_ h this));
    [intros H; inversion H; apply Hfail; discriminate|].
  destruct (sync o).
  - destruct (processDirectory_sync _ _ _ _ _); intros H; inversion H.
    cbn. split; [reflexivity | discriminate].
  - destruct (processDirectory_async _ _ _ _); intros H; inversion H.
    apply Hfail. discriminate.
Qed.

(** X11.  Whatever getAll, getFiles, getDirectories, findFiles or
    findDirectories returns, for any path, host and options, the data of
    the envelope is an array exactly when the status is OK, and null
    otherwise. *)
Theorem data_exactly_when_ok h this object env :
  result (getAll h this object) = Returned env \/
  result (getFiles h this object) = Returned env \/
  result (getDirectories h this object) = Returned env \/
  (exists s, findFiles h this object = Some (Found (Returned env) s)) \/
  (exists s, findDirectories h this object = Some (Found (Returned env) s)) ->
  (data env <> None <-> st env = OK).
Proof.
  intros [H | [H | [H | [[s H] | [s H]]]]].
  - apply getAll_ok_has_data in H. rewrite status_eqb_OK in H. exact H.
  - unfold getFiles in H. eapply getKind_ok_has_data. exact H.
  - unfold getDirectories in H. destruct object as [o|]; [|discriminate].
    eapply getKind_ok_has_data. exact H.
  - eapply find_with_ok_has_data. exact H.
  - eapply find_with_ok_has_data. exact H.
Qed.

Lemma data_exactly_when_ok_witness :
  data (Envelope (Some [Examples.a_txt]) OK) <> None <->
  st (Envelope (Some [Examples.a_txt]) OK) = OK.
Proof.
  apply (data_exactly_when_ok Examples.tree_abc ["root"%string]
           (Some Examples.find_txt_sync)).
  left. reflexivity.
Defined.

(** X12.  Outside local mode the operations are refused, all but
    createAsync before any host call.  With an options object getAll,
    findFiles and findDirectories return null data with
    ERROR_NOT_LOCAL_MODE after no host call, and so do getFiles and
    getDirectories unless they are asynchronous without callback; create
    and remove return ERROR_NOT_LOCAL_MODE and leave the host and the
    record of calls as they were; isEmpty is true; getAllAsync is
    fulfilled with the same error envelope.  createAsync resolves its
    promise with ERROR_NOT_LOCAL_MODE as well, but goes on to the existence
    check and to fs.mkdir. *)
Theorem not_local_mode_is_refused h this o w :
  localMode h = false -> localMode (host w) = false ->
  getAll h this (Some o)
  = Effect (Returned (failure ERROR_NOT_LOCAL_MODE)) [] /\
  findFiles h this (Some o)
  = Some (Found (Returned (failure ERROR_NOT_LOCAL_MODE)) (idle [])) /\
  findDirectories h this (Some o)
  = Some (Found (Returned (failure ERROR_NOT_LOCAL_MODE)) (idle [])) /\
  (sync o = true \/ onSuccess o = true ->
   getFiles h this (Some o)
   = Effect (Returned (failure ERROR_NOT_LOCAL_MODE)) [] /\
   getDirectories h this (Some o)
   = Effect (Returned (failure ERROR_NOT_LOCAL_MODE)) []) /\
  isEmpty h this = Effect (Returned true) [] /\
  getAllAsync h this (Some o) = Fulfilled (failure ERROR_NOT_LOCAL_MODE) /\
  create this w = (Returned ERROR_NOT_LOCAL_MODE, w) /\
  remove this (Some o) w = (Returned ERROR_NOT_LOCAL_MODE, w) /\
  fst (createAsync this w) = Some (Resolved ERROR_NOT_LOCAL_MODE) /\
  trace (snd (createAsync this w))
  = trace w ++ [ExistsSync this; Mkdir this].
Proof.
  intros Hl Hw.
  assert (HA : forall o', getAll h this (Some o')
                          = Effect (Returned (failure ERROR_NOT_LOCAL_MODE)) []).
  { intros o'. unfold getAll. rewrite Hl. reflexivity. }
  repeat split.
  - apply HA.
  - unfold findFiles, find_with. rewrite Hl. reflexivity.
  - unfold findDirectories, find_with. rewrite Hl. reflexivity.
  - unfold getFiles. cbn [spread]. rewrite HA.
    destruct H as [-> | ->]; [reflexivity|].
    destruct (sync o); reflexivity.
  - unfold getDirectories. rewrite HA.
    destruct H as [-> | ->]; [reflexivity|].
    destruct (sync o); reflexivity.
  - unfold isEmpty. rewrite HA. reflexivity.
  - unfold getAllAsync, bridge. rewrite HA. reflexivity.
  - unfold create. rewrite Hw. reflexivity.
  - unfold remove. rewrite Hw. reflexivity.
  - unfold createAsync. rewrite Hw. cbn [negb settle].
    destruct (exists_ (host w) this), (host_mkdir (host w) this);
      reflexivity.
  - unfold createAsync.
    destruct (host_mkdir (host w) this); cbn [snd trace called];
      rewrite <- app_assoc; reflexivity.
Qed.

Lemma not_local_mode_is_refused_witness :
  getAll Examples.sandboxed ["root"%string] (Some Examples.find_default)
  = Effect (Returned (failure ERROR_NOT_LOCAL_MODE)) [] /\
  create ["root"; "new"]%string (World Examples.sandboxed [])
  = (Returned ERROR_NOT_LOCAL_MODE, World Examples.sandboxed []).
Proof.
  destruct (not_local_mode_is_refused Examples.sandboxed
              ["root"%string] Examples.find_default
              (World Examples.sandboxed []) eq_refl eq_refl)
    as (H1 & _).
  destruct (not_local_mode_is_refused Examples.sandboxed
              ["root"; "new"]%string Examples.find_default
              (World Examples.sandboxed []) eq_refl eq_refl)
    as (_ & _ & _ & _ & _ & _ & H7 & _).
  split; [exact H1 | exact H7].
Defined.

(** *** Typed discovery *)

Lemma prefix_append literal rest :
  String.prefix literal (String.append literal rest) = true.
Proof.
  induction literal as [|c literal IH]; simpl.
  - destruct rest; reflexivity.
  - destruct (ascii_dec c c); [exact IH | congruence].
Qed.

Lemma dot_then_inside literal pre c post :
  is_line_terminator c = false ->
  dot_then literal
    (String.append pre (String c (String.append literal post))) = true.
Proof.
  intros Hc. induction pre as [|a pre IH]; simpl.
  - rewrite Hc, prefix_append. reflexivity.
  - rewrite IH. apply orb_true_r.
Qed.

Lemma files_of_children h this test names :
  List.filter isFile
    (List.filter (fun e => test (getFullName e)) (children h this names))
  = listed_files h this names test.
Proof.
  unfold children, listed_files.
  induction names as [|n names IH]; simpl; [reflexivity|].
  rewrite !List.filter_app, IH. f_equal.
  destruct (stat h (this ++ [n])) as [[| |]|]; simpl;
    unfold getFullName; simpl; rewrite ?getFullName_child;
    destruct (test n); reflexivity.
Qed.

Lemma typed_sync_list h this object test names :
  localMode h = true -> exists_ h this = true ->
  sync (spread object) = true -> readdir h this = Some names ->
  getFiles h this (Some (with_template (JRegExp test) (spread object)))
  = Effect (Returned (Envelope (Some (listed_files h this names test)) OK))
           [ExistsSync this; ReaddirSync this].
Proof.
  intros Hl He Hs Hr. unfold getFiles. cbn [spread sync with_template].
  rewrite Hs. unfold getAll.
  cbn [sync template with_template]. rewrite Hl, He, Hs, Hr. cbn [negb].
  rewrite getAll_processData_passes by reflexivity.
  unfold kind_filtered, with_data, passes.
  cbn [result calls st data option_map status_eqb].
  rewrite files_of_children. reflexivity.
Qed.

Lemma typed_sync_files h this object test names :
  localMode h = true -> exists_ h this = true ->
  sync (spread object) = true -> readdir h this = Some names ->
  exists l,
    getFiles h this (Some (with_template (JRegExp test) (spread object)))
    = Effect (Returned (Envelope (Some l) OK))
             [ExistsSync this; ReaddirSync this] /\
    files_named h this names test l.
Proof.
  intros Hl He Hs Hr. unfold getFiles. cbn [spread sync with_template].
  rewrite Hs. unfold getAll.
  cbn [sync template with_template]. rewrite Hl, He, Hs, Hr. cbn [negb].
  rewrite getAll_processData_passes by reflexivity.
  unfold kind_filtered. cbn.
  eexists. split; [reflexivity|].
  intros e. rewrite !filter_In, in_children. split.
  - intros [[(n & Hin & Hcase) Hp] Hf].
    destruct Hcase as [[Hst ->] | [Hst ->]]; [|discriminate].
    exists n. unfold getFullName in Hp. cbn in Hp.
    rewrite getFullName_child in Hp. auto.
  - intros (n & Hin & Ht & Hst & ->). repeat split.
    + exists n. auto.
    + unfold getFullName. cbn. rewrite getFullName_child. exact Ht.
Qed.

(** X13.  The typed getters return the files whose name their pattern
    matches.  In local mode, on an existing path whose listing the host
    gives, synchronous getAudioFiles, getJsonFiles, getTxtFiles,
    getImageFiles and getVideoFiles return OK with exactly the listed names
    that are files and match the pattern, whatever template the caller
    passed. *)
Theorem typed_getters_select_by_pattern h this object names :
  localMode h = true -> exists_ h this = true ->
  sync (spread object) = true -> readdir h this = Some names ->
  exists audio json txt image video,
    result (getAudioFiles h this object)
    = Returned (Envelope (Some audio) OK) /\
    result (getJsonFiles h this object)
    = Returned (Envelope (Some json) OK) /\
    result (getTxtFiles h this object)
    = Returned (Envelope (Some txt) OK) /\
    result (getImageFiles h this object)
    = Returned (Envelope (Some image) OK) /\
    result (getVideoFiles h this object)
    = Returned (Envelope (Some video) OK) /\
    files_named h this names (pattern_of audio_template) audio /\
    files_named h this names (pattern_of json_template) json /\
    files_named h this names (pattern_of txt_template) txt /\
    files_named h this names (pattern_of image_template) image /\
    files_named h this names (pattern_of video_template) video.
Proof.
  intros Hl He Hs Hr.
  destruct (typed_sync_files h this object (pattern_of audio_template)
              names Hl He Hs Hr) as (audio & Ha & Ha').
  destruct (typed_sync_files h this object (pattern_of json_template)
              names Hl He Hs Hr) as (json & Hj & Hj').
  destruct (typed_sync_files h this object (pattern_of txt_template)
              names Hl He Hs Hr) as (txt & Ht & Ht').
  destruct (typed_sync_files h this object (pattern_of image_template)
              names Hl He Hs Hr) as (image & Hi & Hi').
  destruct (typed_sync_files h this object (pattern_of video_template)
              names Hl He Hs Hr) as (video & Hv & Hv').
  exists audio, json, txt, image, video.
  unfold getAudioFiles, getJsonFiles, getTxtFiles, getImageFiles,
    getVideoFiles.
  change audio_template with (JRegExp (pattern_of audio_template)).
  change json_template with (JRegExp (pattern_of json_template)).
  change txt_template with (JRegExp (pattern_of txt_template)).
  change image_template with (JRegExp (pattern_of image_template)).
  change video_template with (JRegExp (pattern_of video_template)).
  rewrite Ha, Hj, Ht, Hi, Hv. repeat split; auto; apply Ha' || apply Hj'
    || apply Ht' || apply Hi' || apply Hv'.
Qed.

Lemma typed_sync_member h this o test names n :
  localMode h = true -> exists_ h this = true ->
  sync o = true -> readdir h this = Some names ->
  In n names -> stat h (this ++ [n]) = Some KFile -> test n = true ->
  exists l,
    result (getFiles h this (Some (with_template (JRegExp test) o)))
    = Returned (Envelope (Some l) OK) /\
    In (File (this ++ [n])) l.
Proof.
  intros Hl He Hs Hr Hin Hst Ht.
  destruct (typed_sync_files h this (Some o) test names Hl He Hs Hr)
    as (l & Hres & Hl').
  exists l. cbn [spread] in Hres. rewrite Hres. split; [reflexivity|].
  apply Hl'. exists n. auto.
Qed.

(** X14.  The patterns of the typed getters are not anchored and their
    dot is a wildcard.  A listed file is returned by synchronous
    getAudioFiles when its name has ogg or rpgmvo after any character other
    than a line terminator, anywhere in the name; likewise getImageFiles
    for png and rpgmvp, getJsonFiles for json, getTxtFiles for txt and
    getVideoFiles for webm.  So song.ogg and song.rpgmvo are both audio
    files, and so is song.ogg.bak. *)
Theorem typed_getters_match_anywhere h this o names pre c post :
  localMode h = true -> exists_ h this = true ->
  sync o = true -> readdir h this = Some names ->
  is_line_terminator c = false ->
  forall (getter : Host -> path -> option options -> effect envelope)
         (literal : string),
    (getter = getAudioFiles /\ (literal = "ogg" \/ literal = "rpgmvo")) \/
    (getter = getImageFiles /\ (literal = "png" \/ literal = "rpgmvp")) \/
    (getter = getJsonFiles /\ literal = "json") \/
    (getter = getTxtFiles /\ literal = "txt") \/
    (getter = getVideoFiles /\ literal = "webm") ->
    let name :=
      String.append pre (String c (String.append literal post)) in
    In name names -> stat h (this ++ [name]) = Some KFile ->
    exists l,
      result (getter h this (Some o)) = Returned (Envelope (Some l) OK) /\
      In (File (this ++ [name])) l.
Proof.
  intros Hl He Hs Hr Hc getter literal Hcase name Hin Hst.
  pose proof (dot_then_inside literal pre c post Hc) as Hdot.
  fold name in Hdot.
  destruct Hcase as [[-> Hlit] | [[-> Hlit] | [[-> ->] | [[-> ->] | [-> ->]]]]].
  - apply (typed_sync_member h this o (pattern_of audio_template) names name);
      try assumption.
    cbn. destruct Hlit as [-> | ->]; rewrite Hdot; auto using orb_true_r.
  - apply (typed_sync_member h this o (pattern_of image_template) names name);
      try assumption.
    cbn. destruct Hlit as [-> | ->]; rewrite Hdot; auto using orb_true_r.
  - apply (typed_sync_member h this o (pattern_of json_template) names name);
      assumption.
  - apply (typed_sync_member h this o (pattern_of txt_template) names name);
      assumption.
  - apply (typed_sync_member h this o (pattern_of video_template) names name);
      assumption.
Qed.

Lemma typed_getters_match_anywhere_witness :
  exists l,
    result (getTxtFiles Examples.tree_abc ["root"%string]
                        (Some Examples.find_default))
    = Returned (Envelope (Some l) OK) /\
    In Examples.a_txt l.
Proof.
  apply (typed_getters_match_anywhere Examples.tree_abc ["root"%string]
           Examples.find_default ["a.txt"; "b.png"; "sub"]%string
           "a"%string "."%char EmptyString eq_refl eq_refl eq_refl eq_refl
           eq_refl getTxtFiles "txt"%string).
  - right. right. right. left. split; reflexivity.
  - left. reflexivity.
  - reflexivity.
Defined.

Lemma typed_getters_select_by_pattern_witness :
  exists audio json txt image video,
    result (getTxtFiles Examples.tree_abc ["root"%string]
                        (Some Examples.find_default))
    = Returned (Envelope (Some txt) OK) /\
    result (getImageFiles Examples.tree_abc ["root"%string]
                          (Some Examples.find_default))
    = Returned (Envelope (Some image) OK) /\
    files_named Examples.tree_abc ["root"%string]
                ["a.txt"; "b.png"; "sub"]%string
                (pattern_of audio_template) audio /\
    files_named Examples.tree_abc ["root"%string]
                ["a.txt"; "b.png"; "sub"]%string
                (pattern_of json_template) json /\
    files_named Examples.tree_abc ["root"%string]
                ["a.txt"; "b.png"; "sub"]%string
                (pattern_of video_template) video.
Proof.
  destruct (typed_getters_select_by_pattern Examples.tree_abc
              ["root"%string] (Some Examples.find_default)
              ["a.txt"; "b.png"; "sub"]%string eq_refl eq_refl eq_refl
              eq_refl)
    as (audio & json & txt & image & video & _ & _ & Ht & Hi & _ & Ha & Hj
        & _ & _ & Hv).
  exists audio, json, txt, image, video. auto.
Defined.

(** X15.  loadAudioFiles, loadBitmaps and reserveBitmaps give the empty
    array, not an error, outside local mode or on a path that does not
    exist.  In local mode on an existing path whose listing the host gives
    they return one loaded resource per audio file, respectively image
    file: the loader applied to each listed name that the pattern matches
    and that is a file, once for each and in the order of the listing.
    When the host fails to list the path they throw its error. *)
Theorem loaders_follow_typed_getters {A : Type} (loader : entity -> A)
    h this :
  (localMode h = false \/ exists_ h this = false ->
   loadAudioFiles loader h this = Returned [] /\
   loadBitmaps loader h this = Returned [] /\
   reserveBitmaps loader h this = Returned []) /\
  (localMode h = true -> exists_ h this = true ->
   forall names, readdir h this = Some names ->
   let audio := listed_files h this names (pattern_of audio_template) in
   let image := listed_files h this names (pattern_of image_template) in
   loadAudioFiles loader h this = Returned (map loader audio) /\
   loadBitmaps loader h this = Returned (map loader image) /\
   reserveBitmaps loader h this = Returned (map loader image)) /\
  (localMode h = true -> exists_ h this = true -> readdir h this = None ->
   loadAudioFiles loader h this = Threw (HostError (ReaddirSync this)) /\
   loadBitmaps loader h this = Threw (HostError (ReaddirSync this)) /\
   reserveBitmaps loader h this = Threw (HostError (ReaddirSync this))).
Proof.
  split; [|split].
  - intros Hcase.
    assert (HA : forall t, exists e,
              getFiles h this (Some (with_template t sync_request))
              = Effect (Returned (failure e)) (calls (getAll h this
                  (Some (with_template t sync_request)))) /\
              status_eqb e OK = false).
    { intros t. unfold getFiles, kind_filtered, getAll.
      cbn [sync with_template sync_request].
      destruct (localMode h) eqn:Hl; cbn [negb].
      - destruct Hcase as [Hc | Hc]; [discriminate|]. rewrite Hc. cbn.
        eexists. split; reflexivity.
      - cbn. eexists. split; reflexivity. }
    unfold loadAudioFiles, loadBitmaps, reserveBitmaps, load_each,
      getAudioFiles, getImageFiles. cbn [spread].
    destruct (HA audio_template) as (e1 & -> & He1).
    destruct (HA image_template) as (e2 & -> & He2).
    cbn [result st failure]. rewrite He1, He2. auto.
  - intros Hl He names Hr audio image.
    pose proof (typed_sync_list h this (Some sync_request)
                  (pattern_of audio_template) names Hl He eq_refl Hr) as Ha.
    pose proof (typed_sync_list h this (Some sync_request)
                  (pattern_of image_template) names Hl He eq_refl Hr) as Hi.
    unfold loadAudioFiles, loadBitmaps, reserveBitmaps, load_each,
      getAudioFiles, getImageFiles.
    change audio_template with (JRegExp (pattern_of audio_template)).
    change image_template with (JRegExp (pattern_of image_template)).
    rewrite Ha, Hi. cbn. auto.
  - intros Hl He Hr.
    unfold loadAudioFiles, loadBitmaps, reserveBitmaps, load_each,
      getAudioFiles, getImageFiles, getFiles, kind_filtered, getAll.
    cbn [spread sync with_template sync_request].
    rewrite Hl, He, Hr. cbn. auto.
Qed.

Lemma loaders_follow_typed_getters_witness :
  loadBitmaps getFullName Examples.sandboxed ["root"%string] = Returned [] /\
  loadBitmaps getFullName Examples.tree_abc ["root"%string]
  = Returned ["b.png"%string].
Proof.
  destruct (loaders_follow_typed_getters getFullName Examples.sandboxed
              ["root"%string]) as (H1 & _).
  destruct (loaders_follow_typed_getters getFullName Examples.tree_abc
              ["root"%string]) as (_ & H2 & _).
  split.
  - apply H1. left. reflexivity.
  - destruct (H2 eq_refl eq_refl ["a.txt"; "b.png"; "sub"]%string eq_refl)
      as (_ & Hb & _).
    exact Hb.
Defined.

(** *** The promise wrappers *)

Lemma bridge_getAll_agrees h this t :
  agree (result (getAll h this (Some (sync_with t))))
        (bridge (getAll h this (Some (Options false t true true None)))
                (getAll_completed h this (Options false t true true None))).
Proof.
  unfold bridge, getAll, getAll_completed. cbn [sync template onSuccess sync_with].
  destruct (localMode h); cbn; [|reflexivity].
  destruct (exists_ h this); cbn; [|reflexivity].
  destruct (readdir h this); cbn; auto.
Qed.

Lemma agree_kind keep r p :
  agree (result r) p ->
  agree (result (kind_filtered keep r)) (then_kind keep p).
Proof.
  unfold kind_filtered, then_kind.
  destruct (result r) as [env|e] eqn:Hr, p as [|env'|e']; cbn; try tauto.
  - intros <-. destruct (status_eqb (st env) OK); cbn; [reflexivity|].
    rewrite Hr. reflexivity.
  - intros _. rewrite Hr. exact I.
Qed.

(** getAllAsync, getFilesAsync and getDirectoriesAsync against the
    synchronous calls. *)
Lemma untyped_wrappers_agree h this object :
  let t := template (spread object) in
  agree (result (getAll h this (Some (sync_with t))))
        (getAllAsync h this object) /\
  agree (result (getFiles h this (Some (sync_with t))))
        (getFilesAsync h this object) /\
  agree (result (getDirectories h this (Some (sync_with t))))
        (getDirectoriesAsync h this object).
Proof.
  cbn zeta.
  assert (HA : agree (result (getAll h this
                        (Some (sync_with (template (spread object))))))
                     (getAllAsync h this object)).
  { unfold getAllAsync, bridge_request.
    destruct object as [[sy t cb er lim]|]; cbn [spread template searchLimit].
    - pose proof (bridge_getAll_agrees h this t) as H.
      unfold bridge, getAll, getAll_completed in *.
      cbn [sync template onSuccess sync_with] in *. exact H.
    - apply (bridge_getAll_agrees h this JUndefined). }
  split; [exact HA|]. split.
  - unfold getFiles, getFilesAsync. cbn [spread sync sync_with].
    apply agree_kind. exact HA.
  - unfold getDirectories, getDirectoriesAsync. cbn [sync sync_with].
    apply agree_kind. exact HA.
Qed.

Lemma removeAync_agrees this w :
  agree (fst (remove this (Some sync_request) w)) (fst (removeAync this w)) /\
  host (snd (removeAync this w))
  = host (snd (remove this (Some sync_request) w)).
Proof.
  unfold removeAync, remove, remove_completed.
  cbn [sync onSuccess sync_request].
  destruct (localMode (host w)); cbn; [|auto].
  destruct (exists_ (host w) this); cbn; [|auto].
  destruct (result (isEmpty (host w) this)) as [[|]|e]; cbn; auto.
  destruct (host_rmdir (host w) this); cbn; auto.
Qed.

Lemma createAsync_settles this w :
  localMode (host w) = true ->
  host (snd (createAsync this w)) = host (snd (create this w)) /\
  match fst (create this w) with
  | Returned s => fst (createAsync this w) = Some (Resolved s)
  | Threw _ => exists e, fst (createAsync this w) = Some (Rejected e)
  end.
Proof.
  intros Hl. unfold createAsync, create. rewrite Hl. cbn [negb].
  unfold host_mkdir.
  destruct (exists_ (host w) this); cbn; [auto|].
  destruct (stat (host w) (removelast this)) as [[| |]|]; cbn; eauto.
Qed.

(** X16.  The promises of removeAync and createAsync settle as the
    synchronous calls return.  removeAync is fulfilled with the status
    synchronous remove returns, and broken when remove throws, and the
    host file system is the same afterwards.  In local mode createAsync
    resolves with the status create returns, is rejected when create
    throws the host's error, and leaves the same host file system. *)
Theorem mutating_wrappers_settle_like_sync this w :
  (agree (fst (remove this (Some sync_request) w))
         (fst (removeAync this w)) /\
   host (snd (removeAync this w))
   = host (snd (remove this (Some sync_request) w))) /\
  (localMode (host w) = true ->
   host (snd (createAsync this w)) = host (snd (create this w)) /\
   match fst (create this w) with
   | Returned s => fst (createAsync this w) = Some (Resolved s)
   | Threw _ => exists e, fst (createAsync this w) = Some (Rejected e)
   end).
Proof.
  split; [apply removeAync_agrees | apply createAsync_settles].
Qed.

Lemma mutating_wrappers_settle_like_sync_witness :
  fst (createAsync ["root"; "new"]%string (World Examples.tree_abc []))
  = Some (Resolved OK).
Proof.
  destruct (proj2 (mutating_wrappers_settle_like_sync ["root"; "new"]%string
                     (World Examples.tree_abc [])) eq_refl) as [_ H].
  exact H.
Defined.

(** X17.  isEmpty is true whenever getAll gives no data, that is outside
    local mode and on a path that does not exist; on an existing path in
    local mode whose listing the host gives it is true exactly when no
    listed name is a file or a directory. *)
Theorem isEmpty_without_entities h this :
  (localMode h = false \/ exists_ h this = false ->
   result (isEmpty h this) = Returned true) /\
  (localMode h = true -> exists_ h this = true ->
   forall names, readdir h this = Some names ->
   result (isEmpty h this) = Returned true <->
   (forall n, In n names ->
      stat h (this ++ [n]) <> Some KFile /\
      stat h (this ++ [n]) <> Some KDirectory)).
Proof.
  split.
  - intros Hcase. unfold isEmpty, getAll. cbn [sync sync_request].
    destruct (localMode h); cbn; [|reflexivity].
    destruct Hcase as [Hc | Hc]; [discriminate|]. rewrite Hc. reflexivity.
  - intros Hl He names Hr. unfold isEmpty.
    rewrite getAll_sync_listing by assumption. rewrite Hr. cbn.
    split.
    + intros H n Hin.
      destruct (children h this names) as [|e l] eqn:Hch; [|discriminate].
      assert (Hno : forall e, ~ In e (children h this names))
        by (rewrite Hch; auto).
      split; intros Hst.
      * apply (Hno (File (this ++ [n]))). apply in_children. eauto.
      * apply (Hno (Directory (this ++ [n]))). apply in_children. eauto.
    + intros H. destruct (children h this names) as [|e l] eqn:Hch;
        [reflexivity|].
      exfalso. assert (Hin : In e (children h this names))
        by (rewrite Hch; left; reflexivity).
      apply in_children in Hin.
      destruct Hin as (n & Hn & [[Hst _] | [Hst _]]);
        destruct (H n Hn); contradiction.
Qed.

Lemma typed_async_agrees t h this object :
  agree (result (getFiles h this
                   (Some (with_template t
                            (sync_with (template (spread object)))))))
        (bridge (getFiles h this
                   (Some (with_template t (bridge_request object))))
                (getFiles_completed h this
                   (with_template t (bridge_request object)))).
Proof.
  unfold getFiles, getFiles_completed, kind_completed, bridge, kind_filtered,
    getAll, getAll_completed, bridge_request.
  cbn [sync template onSuccess sync_with with_template spread].
  destruct (localMode h); cbn; [|reflexivity].
  destruct (exists_ h this); cbn; [|reflexivity].
  destruct (readdir h this); cbn; auto.
Qed.

(** X18.  The promise wrappers settle as the synchronous calls return.
    On the same host and path and with the same template, getAllAsync is
    fulfilled with exactly the envelope synchronous getAll returns,
    errors of the preconditions included, and is broken exactly when
    synchronous getAll throws the host's error; the same holds for
    getFilesAsync with getFiles, for getDirectoriesAsync with
    getDirectories, and for getAudioFilesAsync, getJsonFilesAsync,
    getTxtFilesAsync, getImageFilesAsync and getVideoFilesAsync with their
    synchronous getters.  None of them stays pending. *)
Theorem promise_wrappers_agree_with_sync h this object :
  let request := Some (sync_with (template (spread object))) in
  agree (result (getAll h this request)) (getAllAsync h this object) /\
  agree (result (getFiles h this request)) (getFilesAsync h this object) /\
  agree (result (getDirectories h this request))
        (getDirectoriesAsync h this object) /\
  agree (result (getAudioFiles h this request))
        (getAudioFilesAsync h this object) /\
  agree (result (getJsonFiles h this request))
        (getJsonFilesAsync h this object) /\
  agree (result (getTxtFiles h this request))
        (getTxtFilesAsync h this object) /\
  agree (result (getImageFiles h this request))
        (getImageFilesAsync h this object) /\
  agree (result (getVideoFiles h this request))
        (getVideoFilesAsync h this object).
Proof.
  cbn zeta.
  destruct (untyped_wrappers_agree h this object) as (HA & HF & HD).
  split; [exact HA|]. split; [exact HF|]. split; [exact HD|].
  repeat split; apply typed_async_agrees.
Qed.

(** *** Guards and compositions of the mutating operations *)

Lemma path_eqb_eq p q : path_eqb p q = true <-> p = q.
Proof.
  revert q. induction p as [|a p IH]; intros [|b q]; simpl;
    try (split; [discriminate | discriminate]); [tauto|].
  rewrite andb_true_iff, String.eqb_eq, IH. split.
  - intros [-> ->]. reflexivity.
  - intros H. inversion H. auto.
Qed.

Lemma path_eqb_refl p : path_eqb p p = true.
Proof. apply path_eqb_eq. reflexivity. Qed.

Lemma path_eqb_neq p q : p <> q -> path_eqb p q = false.
Proof.
  intros H. destruct (path_eqb p q) eqn:E; [|reflexivity].
  apply path_eqb_eq in E. contradiction.
Qed.

(** X19.  create and remove that fail leave the host alone.  Whenever
    create or remove returns an error status, the calls it made are no
    mutations and the host file system is as before; the host is also as
    before when they throw.  The pending status of asynchronous remove is
    no such failure: remove made fs.rmdir its last call, on a path that
    exists, after calls that are no mutations, and when the host completes
    that call with success the directory is gone. *)
Theorem failed_mutations_leave_host this object w :
  (fst (create this w) <> Returned OK ->
   host (snd (create this w)) = host w) /\
  (fst (remove this object w) <> Returned OK ->
   fst (remove this object w) <> Returned WAIT_FOR_ASYNC_OPERATION ->
   host (snd (remove this object w)) = host w) /\
  (fst (remove this object w) = Returned WAIT_FOR_ASYNC_OPERATION ->
   exists_ (host w) this = true /\
   (exists cs, trace (snd (remove this object w))
               = trace w ++ cs ++ [Rmdir this] /\
               Forall (fun c => mutates c = false) cs) /\
   forall h', host_rmdir (host (snd (remove this object w))) this = Some h' ->
     host (snd (remove_completed this object (snd (remove this object w))))
     = h' /\
     exists_ h' this = false) /\
  (forall e, fst (create this w) = Returned e -> e <> OK ->
     exists cs, trace (snd (create this w)) = trace w ++ cs /\
                Forall (fun c => mutates c = false) cs) /\
  (forall e, fst (remove this object w) = Returned e ->
     e <> OK -> e <> WAIT_FOR_ASYNC_OPERATION ->
     exists cs, trace (snd (remove this object w)) = trace w ++ cs /\
                Forall (fun c => mutates c = false) cs).
Proof.
  assert (Hnil : forall l : list hostcall, l = l ++ [])
    by (intros; symmetry; apply app_nil_r).
  assert (Hcalls : Forall (fun c => mutates c = false)
                     (calls (isEmpty (host w) this))).
  { unfold isEmpty, getAll. cbn [sync sync_request].
    destruct (negb (localMode (host w))); [constructor|].
    destruct (negb (exists_ (host w) this)); [repeat constructor|].
    destruct (readdir (host w) this); cbn; repeat constructor. }
  split; [|split; [|split; [|split]]].
  - unfold create. destruct (negb (localMode (host w))); [auto|].
    destruct (exists_ (host w) this); [auto|].
    destruct (host_mkdir (host w) this); cbn; [congruence | auto].
  - unfold remove. destruct (negb (localMode (host w))); [auto|].
    destruct (negb (exists_ (host w) this)); [auto|].
    destruct (result (isEmpty (host w) this)) as [[|]|x]; [|auto|auto].
    destruct (sync _); [|auto].
    destruct (host_rmdir (host w) this); cbn; [congruence | auto].
  - unfold remove. destruct (negb (localMode (host w))); [discriminate|].
    destruct (exists_ (host w) this) eqn:He; cbn [negb]; [|discriminate].
    destruct (result (isEmpty (host w) this)) as [[|]|x];
      [|discriminate|discriminate].
    destruct (sync _).
    { destruct (host_rmdir (host w) this); discriminate. }
    intros _. split; [reflexivity|]. split.
    + exists (ExistsSync this :: calls (isEmpty (host w) this)).
      cbn. rewrite <- !app_assoc. split; [reflexivity|].
      constructor; [reflexivity | exact Hcalls].
    + intros h' Hh. unfold remove_completed.
      cbn [snd host called] in *. rewrite Hh. cbn [snd host].
      split; [reflexivity|].
      unfold host_rmdir in Hh.
      destruct (stat (host w) this) as [[| |]|]; try discriminate.
      destruct (readdir (host w) this) as [[|n l]|]; try discriminate.
      inversion Hh. unfold exists_. cbn. rewrite path_eqb_refl. reflexivity.
  - intros e. unfold create.
    destruct (negb (localMode (host w)));
      [intros _ _; exists []; split; [apply Hnil | constructor]|].
    destruct (exists_ (host w) this).
    + intros _ _. exists [ExistsSync this]. split; [reflexivity|].
      repeat constructor.
    + destruct (host_mkdir (host w) this); cbn; [congruence | discriminate].
  - intros e. unfold remove.
    destruct (negb (localMode (host w)));
      [intros _ _ _; exists []; split; [apply Hnil | constructor]|].
    destruct (negb (exists_ (host w) this)).
    + intros _ _ _. exists [ExistsSync this]. split; [reflexivity|].
      repeat constructor.
    + destruct (result (isEmpty (host w) this)) as [[|]|x].
      * destruct (sync _).
        -- destruct (host_rmdir (host w) this); cbn;
             [congruence | discriminate].
        -- cbn. congruence.
      * intros _ _ _. exists (ExistsSync this :: calls (isEmpty (host w) this)).
        cbn. rewrite <- app_assoc. split; [reflexivity|].
        constructor; [reflexivity | exact Hcalls].
      * discriminate.
Qed.

Lemma failed_mutations_leave_host_witness :
  host (snd (remove ["root"]%string (Some sync_request)
               (World Examples.tree_abc [])))
  = Examples.tree_abc /\
  exists cs,
    trace (snd (create ["root"; "sub"]%string (World Examples.tree_abc [])))
    = [] ++ cs /\
    Forall (fun c => mutates c = false) cs.
Proof.
  split.
  - apply (proj1 (proj2 (failed_mutations_leave_host ["root"]%string
                           (Some sync_request)
                           (World Examples.tree_abc [])))).
    + vm_compute. discriminate.
    + vm_compute. discriminate.
  - apply (proj1 (proj2 (proj2 (proj2 (failed_mutations_leave_host
                                         ["root"; "sub"]%string None
                                         (World Examples.tree_abc [])))))
             ERROR_DIRECTORY_ALREADY_EXISTS).
    + reflexivity.
    + discriminate.
Defined.

Lemma create_ok_host this w w1 :
  create this w = (Returned OK, w1) ->
  localMode (host w) = true /\
  exists_ (host w) this = false /\
  stat (host w) (removelast this) = Some KDirectory /\
  host_mkdir (host w) this = Some (host w1).
Proof.
  unfold create. destruct (localMode (host w)); cbn [negb]; [|discriminate].
  destruct (exists_ (host w) this) eqn:He; [discriminate|].
  destruct (host_mkdir (host w) this) as [h'|] eqn:Hm; [|discriminate].
  intros H. inversion H; subst w1. cbn [host].
  repeat split; try reflexivity.
  unfold host_mkdir in Hm. rewrite He in Hm.
  destruct (stat (host w) (removelast this)) as [[]|]; congruence.
Qed.

(** X20.  A directory that create has made is there, refuses a second
    create, is empty, and synchronous remove takes it away again: when
    create returns OK, the path exists afterwards, creating it again returns
    ERROR_DIRECTORY_ALREADY_EXISTS, isEmpty is true, and remove returns OK
    and leaves every path of the host with the kind it had before create. *)
Theorem create_then_remove this w w1 :
  create this w = (Returned OK, w1) ->
  exists_ (host w1) this = true /\
  fst (create this w1) = Returned ERROR_DIRECTORY_ALREADY_EXISTS /\
  result (isEmpty (host w1) this) = Returned true /\
  exists w2,
    remove this (Some sync_request) w1 = (Returned OK, w2) /\
    exists_ (host w2) this = false /\
    forall q, stat (host w2) q = stat (host w) q.
Proof.
  intros H. apply create_ok_host in H.
  destruct H as (Hl & He & Hp & Hm).
  unfold host_mkdir in Hm. rewrite He, Hp in Hm.
  destruct w1 as [h0 t1]. cbn [host] in *. inversion Hm as [Hh]. clear Hm.
  subst h0. set (h1 := MkHost _ _ _) in *.
  assert (Hl1 : localMode h1 = true) by exact Hl.
  assert (He1 : exists_ h1 this = true).
  { unfold exists_, h1. cbn. rewrite path_eqb_refl. reflexivity. }
  assert (Hr1 : readdir h1 this = Some []).
  { unfold h1. cbn. rewrite path_eqb_refl. reflexivity. }
  assert (Hs1 : stat h1 this = Some KDirectory).
  { unfold h1. cbn. rewrite path_eqb_refl. reflexivity. }
  assert (Hempty : isEmpty h1 this
                   = Effect (Returned true)
                            [ExistsSync this; ReaddirSync this]).
  { unfold isEmpty. rewrite getAll_sync_listing by assumption.
    rewrite Hr1. reflexivity. }
  split; [exact He1|]. split.
  { unfold create. cbn [host]. rewrite Hl1, He1. reflexivity. }
  split; [rewrite Hempty; reflexivity|].
  unfold remove. cbn [host sync sync_request]. rewrite Hl1, He1, Hempty.
  cbn [negb result calls]. unfold host_rmdir. rewrite Hs1, Hr1.
  eexists. split; [reflexivity|]. cbn [host]. split.
  - unfold exists_. cbn. rewrite path_eqb_refl. reflexivity.
  - intros q. cbn. destruct (path_eqb q this) eqn:E; [|reflexivity].
    apply path_eqb_eq in E. subst q. unfold exists_ in He.
    destruct (stat (host w) this); [discriminate | reflexivity].
Qed.

Lemma create_then_remove_witness :
  exists w2,
    remove ["root"; "new"]%string (Some sync_request)
      (snd (create ["root"; "new"]%string (World Examples.tree_abc [])))
    = (Returned OK, w2) /\
    exists_ (host w2) ["root"; "new"]%string = false /\
    forall q, stat (host w2) q = stat Examples.tree_abc q.
Proof.
  destruct (create_then_remove ["root"; "new"]%string
              (World Examples.tree_abc [])
              (snd (create ["root"; "new"]%string
                      (World Examples.tree_abc [])))
              eq_refl) as (_ & _ & _ & H).
  exact H.
Defined.

Lemma path_not_own_child (this : path) name : this <> this ++ [name].
Proof.
  intros H. apply (f_equal (@length string)) in H.
  rewrite length_app in H. simpl in H. lia.
Qed.

(** X21.  A child that createDirectory has made is listed.  When the
    name is one segment, so that the normalized path is the path of the
    directory extended by the name, and createDirectory returns OK on a
    directory whose names the host can enumerate: synchronous
    getDirectories and getAll of that directory return OK with the new
    directory among their data and getFiles returns OK without it, isEmpty
    of the directory is false, and a second createDirectory with the same
    name returns ERROR_DIRECTORY_ALREADY_EXISTS and leaves the host as it
    is. *)
Theorem createDirectory_is_listed normalizePath this name w w1 names :
    normalizePath this name = this ++ [name] ->
    createDirectory normalizePath this name w = (Returned OK, w1) ->
    readdir (host w) this = Some names ->
    (exists ds all fs,
       result (getDirectories (host w1) this (Some sync_request))
       = Returned (Envelope (Some ds) OK) /\
       result (getAll (host w1) this (Some sync_request))
       = Returned (Envelope (Some all) OK) /\
       result (getFiles (host w1) this (Some sync_request))
       = Returned (Envelope (Some fs) OK) /\
       In (Directory (this ++ [name])) ds /\
       In (Directory (this ++ [name])) all /\
       ~ In (Directory (this ++ [name])) fs) /\
    result (isEmpty (host w1) this) = Returned false /\
    fst (createDirectory normalizePath this name w1)
    = Returned ERROR_DIRECTORY_ALREADY_EXISTS /\
    host (snd (createDirectory normalizePath this name w1)) = host w1.
Proof.
  intros Hnorm H Hr. unfold createDirectory in *. cbn zeta in *.
  rewrite Hnorm in *.
  apply create_ok_host in H. destruct H as (Hl & He & Hp & Hm).
  unfold host_mkdir in Hm. rewrite He, Hp in Hm.
  rewrite removelast_last in Hp.
  destruct w1 as [h0 t1]. cbn [host] in *. inversion Hm as [Hh]. clear Hm.
  subst h0. set (h1 := MkHost _ _ _) in *.
  assert (Hl1 : localMode h1 = true) by exact Hl.
  assert (Hne : path_eqb this (this ++ [name]) = false)
    by (apply path_eqb_neq, path_not_own_child).
  assert (He1 : exists_ h1 this = true).
  { unfold exists_, h1. cbn. rewrite Hne, Hp. reflexivity. }
  assert (Hr1 : readdir h1 this = Some (names ++ [name])).
  { unfold h1. cbn. rewrite Hne, removelast_last, path_eqb_refl, Hr.
    cbn. rewrite last_last. reflexivity. }
  assert (Hs1 : stat h1 (this ++ [name]) = Some KDirectory).
  { unfold h1. cbn. rewrite path_eqb_refl. reflexivity. }
  assert (Hin : In (Directory (this ++ [name]))
                   (children h1 this (names ++ [name]))).
  { unfold children. apply in_flat_map. exists name. split.
    - apply in_or_app. right. left. reflexivity.
    - rewrite Hs1. left. reflexivity. }
  split; [|split; [|split]].
  - unfold getFiles. cbn [sync sync_request].
    rewrite getDirectories_sync_listing, getAll_sync_listing by assumption.
    rewrite Hr1. unfold kind_filtered. cbn [result st status_eqb calls].
    do 3 eexists. split; [reflexivity|]. split; [reflexivity|].
    split; [reflexivity|]. split; [|split; [exact Hin|]].
    + apply filter_In. split; [exact Hin | reflexivity].
    + cbn [with_data data option_map]. intros Hf.
      apply filter_In in Hf. destruct Hf as [_ Hf]. discriminate Hf.
  - unfold isEmpty. rewrite getAll_sync_listing by assumption.
    rewrite Hr1. cbn [result data]. f_equal.
    destruct (children h1 this (names ++ [name])); [destruct Hin | reflexivity].
  - unfold create. cbn [host]. rewrite Hl1. cbn [negb].
    unfold exists_. rewrite Hs1. reflexivity.
  - unfold create. cbn [host]. rewrite Hl1. cbn [negb].
    unfold exists_. rewrite Hs1. reflexivity.
Qed.

Lemma createDirectory_is_listed_witness :
  (exists ds all fs,
     result (getDirectories
               (host (snd (createDirectory Examples.normalizePath
                             ["root"]%string "new"
                             (World Examples.tree_abc []))))
               ["root"]%string (Some sync_request))
     = Returned (Envelope (Some ds) OK) /\
     result (getAll
               (host (snd (createDirectory Examples.normalizePath
                             ["root"]%string "new"
                             (World Examples.tree_abc []))))
               ["root"]%string (Some sync_request))
     = Returned (Envelope (Some all) OK) /\
     result (getFiles
               (host (snd (createDirectory Examples.normalizePath
                             ["root"]%string "new"
                             (World Examples.tree_abc []))))
               ["root"]%string (Some sync_request))
     = Returned (Envelope (Some fs) OK) /\
     In (Directory ["root"; "new"]%string) ds /\
     In (Directory ["root"; "new"]%string) all /\
     ~ In (Directory ["root"; "new"]%string) fs) /\
  Examples.normalizePath ["root"]%string "sub/deep"
  = ["root"; "sub"; "deep"]%string.
Proof.
  split; [|reflexivity].
  apply (createDirectory_is_listed Examples.normalizePath
           ["root"]%string "new"%string
           (World Examples.tree_abc [])
           (snd (createDirectory Examples.normalizePath ["root"]%string "new"
                   (World Examples.tree_abc [])))
           ["a.txt"; "b.png"; "sub"]%string);
    reflexivity.
Defined.

(** *** Invariants of the searches *)

Lemma forEach_ends (P Q : search -> Prop) (E : exn -> Prop)
    (ok : entity -> Prop) (dir : path -> Prop) visit rec :
  (forall e s, ok e -> P s ->
     match snd (visit e s) with
     | None => P (fst (visit e s))
     | Some p => dir p /\ Q (fst (visit e s))
     end) ->
  (forall p s, dir p -> Q s -> ends P E (rec p s)) ->
  forall data s, Forall ok data -> P s ->
    ends P E (forEach visit rec data s).
Proof.
  intros Hv Hrec data. induction data as [|e rest IH]; intros s Hok HP; simpl.
  - exact HP.
  - inversion Hok as [|? ? Hoke Hokr]; subst.
    specialize (Hv e s Hoke HP).
    destruct (visit e s) as [s1 [p|]]; simpl in Hv.
    + destruct Hv as [Hd HQ]. specialize (Hrec p s1 Hd HQ).
      destruct (rec p s1) as [s2|x s2|]; simpl in Hrec |- *.
      * apply IH; assumption.
      * exact Hrec.
      * exact I.
    + apply IH; assumption.
Qed.

Lemma processDirectory_sync_ends (P Q : search -> Prop) (E : exn -> Prop)
    (ok : entity -> Prop) (dir : path -> Prop) enumerate visit :
  (forall e s, ok e -> P s ->
     match snd (visit e s) with
     | None => P (fst (visit e s))
     | Some p => dir p /\ Q (fst (visit e s))
     end) ->
  (forall p s, dir p -> Q s ->
     P (record_calls (calls (enumerate p (Some sync_request))) s) /\
     match result (enumerate p (Some sync_request)) with
     | Returned env => Forall ok (data_of env)
     | Threw e => E e
     end) ->
  forall fuel p s, dir p -> Q s ->
    ends P E (processDirectory_sync enumerate visit fuel p s).
Proof.
  intros Hv He. induction fuel as [|fuel IH]; intros p s Hd HQ; simpl;
    [exact I|].
  destruct (He p s Hd HQ) as [HP Hres].
  destruct (result (enumerate p (Some sync_request))) as [env|e].
  - apply (forEach_ends P Q E ok dir); assumption.
  - split; assumption.
Qed.

Lemma step_keeps (P Q : search -> Prop) (ok : entity -> Prop)
    (dir : path -> Prop) completed enumerate visit o s s' :
  (forall e s, ok e -> P s ->
     match snd (visit e s) with
     | None => P (fst (visit e s))
     | Some p => dir p /\ Q (fst (visit e s))
     end) ->
  (forall p s, dir p -> Q s ->
     P (record_calls (calls (enumerate p (Some (async_request o)))) s)) ->
  (forall s before d after, P s -> pending s = before ++ d :: after ->
     dir d /\ P (set_pending (before ++ after) s)) ->
  (forall s e, P s -> P (fail e s)) ->
  (forall s, P s -> P (incr_processed s)) ->
  (forall s, P s -> P (deliver (Envelope (Some (collected s)) OK) s)) ->
  (forall d env, dir d -> completed d (async_request o) = CallSuccess env ->
     Forall ok (data_of env)) ->
  step completed enumerate visit o s s' -> P s -> P s'.
Proof.
  intros Hv Hcalls Hset Hfail Hincr Hdel Hdata Hstep HP.
  destruct Hstep as [s before d after s' Hp Hc].
  destruct (Hset s before d after HP Hp) as [Hd HP1].
  unfold complete in Hc.
  destruct (completed d (async_request o)) as [e|env] eqn:Hcomp.
  - inversion Hc. apply Hfail. exact HP1.
  - unfold onSuccess_closure in Hc.
    assert (Hends : ends P (fun _ => True)
              (forEach visit (processDirectory_async enumerate o)
                 (data_of env)
                 (incr_processed (set_pending (before ++ after) s)))).
    { apply (forEach_ends P Q (fun _ => True) ok dir).
      - exact Hv.
      - intros p x Hdp HQ. unfold processDirectory_async.
        specialize (Hcalls p x Hdp HQ).
        destruct (result (enumerate p (Some (async_request o))));
          simpl; auto.
      - eapply Hdata; eassumption.
      - apply Hincr. exact HP1. }
    destruct (forEach visit (processDirectory_async enumerate o)
                (data_of env) _) as [s2|x s2|]; try discriminate.
    simpl in Hends.
    destruct (total s2 =? processed s2); inversion Hc; subst; auto.
Qed.

Lemma rtc_keeps (P : search -> Prop) (R : search -> search -> Prop) s s' :
  (forall a b, R a b -> P a -> P b) -> rtc R s s' -> P s -> P s'.
Proof. intros HR Hr. induction Hr; eauto. Qed.

(** Where a find call leaves the search: in a state with [P], whichever
    branch returned. *)
Lemma find_with_keeps (P Q : search -> Prop) (ok : entity -> Prop)
    (dir : path -> Prop) enumerate visit h this o r :
  (forall e s, ok e -> P s ->
     match snd (visit o e s) with
     | None => P (fst (visit o e s))
     | Some p => dir p /\ Q (fst (visit o e s))
     end) ->
  (forall p s, dir p -> Q s ->
     P (record_calls (calls (enumerate p (Some sync_request))) s) /\
     match result (enumerate p (Some sync_request)) with
     | Returned env => Forall ok (data_of env)
     | Threw e => True
     end) ->
  (forall p s, dir p -> Q s ->
     P (record_calls (calls (enumerate p (Some (async_request o)))) s)) ->
  P (idle []) -> P (idle [ExistsSync this]) ->
  dir this -> Q (initial [ExistsSync this]) ->
  find_with enumerate visit h this (Some o) = Some r -> P (state r).
Proof.
  intros Hv Hsync Hasync Hi0 Hi1 Hd HQ. unfold find_with.
  destruct (negb (localMode h)); [intros H; inversion H; exact Hi0|].
  destruct (negb (sync o) && negb (onSuccess o));
    [intros H; inversion H; exact Hi0|].
  destruct (negb (exists_ h this)); [intros H; inversion H; exact Hi1|].
  destruct (sync o).
  - pose proof (processDirectory_sync_ends P Q (fun _ => True) ok dir
                  enumerate (visit o) Hv Hsync
                  (Z.to_nat (Z.max 1 (limit_ceiling o))) this
                  (initial [ExistsSync this]) Hd HQ) as Hends.
    destruct (processDirectory_sync _ _ _ _ _) as [s|e s|];
      intros H; inversion H; simpl in *; tauto.
  - unfold processDirectory_async.
    specialize (Hasync this (initial [ExistsSync this]) Hd HQ).
    destruct (result (enumerate this (Some (async_request o))));
      intros H; inversion H; exact Hasync.
Qed.

Lemma calls_of_app a b : calls_of (a ++ b) = calls_of a ++ calls_of b.
Proof. unfold calls_of. apply flat_map_app. Qed.

Lemma calls_of_map_Call cs : calls_of (map Call cs) = cs.
Proof.
  induction cs as [|c cs IH]; simpl; [reflexivity|]. rewrite IH. reflexivity.
Qed.

Lemma enumerations_record_calls cs s :
  enumerations (record_calls cs s)
  = enumerations s + Z.of_nat (length (enumerated cs)).
Proof.
  unfold enumerations. simpl. rewrite calls_of_app, calls_of_map_Call.
  unfold enumerated. rewrite flat_map_app, length_app. lia.
Qed.

Lemma enumerations_counters s t p :
  Z.of_nat (length (enumerated (calls_of (history s ++ [Counters t p]))))
  = enumerations s.
Proof.
  unfold enumerations. rewrite calls_of_app. simpl. rewrite app_nil_r.
  reflexivity.
Qed.

Lemma getAll_enumerates_once h p o :
  (length (enumerated (calls (getAll h p (Some o)))) <= 1)%nat.
Proof.
  unfold getAll. destruct (localMode h); simpl; [|lia].
  destruct (exists_ h p); simpl; [|lia].
  destruct (sync o); simpl.
  - destruct (readdir h p); simpl; lia.
  - destruct (onSuccess o); simpl; lia.
Qed.

Lemma getDirectories_calls h p o :
  sync o = true \/ onSuccess o = true ->
  calls (getDirectories h p (Some o)) = calls (getAll h p (Some o)).
Proof.
  intros Hm. unfold getDirectories.
  destruct (sync o); [apply kind_filtered_calls|].
  destruct Hm as [Hm | Hm]; [discriminate|]. rewrite Hm. reflexivity.
Qed.

Lemma visit_ok_reads limit visit :
  (forall e s, visit_ok limit e s (fst (visit e s)) (snd (visit e s))) ->
  forall (e : entity) s, True ->
    enumerations s <= total s /\ total s <= Z.max 1 limit ->
    match snd (visit e s) with
    | None => enumerations (fst (visit e s)) <= total (fst (visit e s)) /\
              total (fst (visit e s)) <= Z.max 1 limit
    | Some p => True /\
                (enumerations (fst (visit e s)) + 1 <= total (fst (visit e s))
                 /\ total (fst (visit e s)) <= Z.max 1 limit)
    end.
Proof.
  intros Hv e s _ [H1 H2]. specialize (Hv e s).
  destruct (visit e s) as [s1 d]. simpl in *.
  destruct Hv as (q & s0 & Hs0 & Hcase).
  assert (H0 : enumerations s0 = enumerations s /\ total s0 = total s)
    by (destruct Hs0 as [-> | ->]; split; reflexivity).
  destruct H0 as [He0 Ht0].
  destruct Hcase as [[-> ->] | (-> & Hlt & ->)]; cbn beta iota.
  - lia.
  - split; [exact I|].
    assert (Hen : enumerations (incr_total s0) = enumerations s0)
      by apply enumerations_counters.
    rewrite Hen. cbn [incr_total total]. lia.
Qed.

Lemma find_with_reads enumerate completed visit h this o r s :
  (forall o e s, visit_ok (limit_ceiling o) e s
                          (fst (visit o e s)) (snd (visit o e s))) ->
  (forall p o', (length (enumerated (calls (enumerate p (Some o')))) <= 1)%nat) ->
  find_with enumerate visit h this (Some o) = Some r ->
  rtc (step completed enumerate (visit o) o) (state r) s ->
  enumerations s <= total s /\ total s <= Z.max 1 (limit_ceiling o).
Proof.
  intros Hv Hen Hfind Hr.
  set (P := fun s => enumerations s <= total s /\
                     total s <= Z.max 1 (limit_ceiling o)).
  set (Q := fun s => enumerations s + 1 <= total s /\
                     total s <= Z.max 1 (limit_ceiling o)).
  assert (Hcalls : forall o' p x, True -> Q x ->
            P (record_calls (calls (enumerate p (Some o'))) x)).
  { intros o' p x _ [H1 H2]. unfold P.
    rewrite enumerations_record_calls. specialize (Hen p o').
    cbn [record_calls total]. lia. }
  apply (rtc_keeps P (step completed enumerate (visit o) o) (state r) s);
    [| exact Hr |].
  - intros a b Hstep Ha.
    apply (step_keeps P Q (fun _ => True) (fun _ => True)
             completed enumerate (visit o) o a b); try assumption.
    + apply visit_ok_reads. apply Hv.
    + apply Hcalls.
    + intros x before d after Hx _. split; [exact I | exact Hx].
    + intros x e Hx. exact Hx.
    + intros x [H1 H2]. unfold P.
      assert (Hen' : enumerations (incr_processed x) = enumerations x)
        by apply enumerations_counters.
      rewrite Hen'. cbn [incr_processed total]. lia.
    + intros x Hx. exact Hx.
    + intros d env _ _. apply List.Forall_forall. auto.
  - apply (find_with_keeps P Q (fun _ => True) (fun _ => True)
             enumerate visit h this o r); try assumption.
    + apply visit_ok_reads. apply Hv.
    + intros p x Hd HQ. split; [apply Hcalls; assumption|].
      destruct (result _); [apply List.Forall_forall; auto | exact I].
    + apply Hcalls.
    + unfold P. change (enumerations (idle [])) with 0.
      cbn [idle total]. lia.
    + unfold P. change (enumerations (idle [ExistsSync this])) with 0.
      cbn [idle total]. lia.
    + exact I.
    + unfold Q. change (enumerations (initial [ExistsSync this])) with 0.
      cbn [initial total]. lia.
Qed.

(** X22.  A search reads no more directories than its budget.  In the
    state a findFiles or findDirectories call leaves, and in every state
    its asynchronous run reaches, the number of directory enumerations
    asked of the host (readdirSync and readdir calls) is at most [total],
    and [total] is at most the greater of 1 and searchLimit rounded up to
    a whole number, for any finite searchLimit. *)
Theorem find_reads_within_budget h this o r s :
  (findFiles h this (Some o) = Some r /\
   rtc (findFiles_step h o) (state r) s) \/
  (findDirectories h this (Some o) = Some r /\
   rtc (findDirectories_step h o) (state r) s) ->
  enumerations s <= total s /\ total s <= Z.max 1 (limit_ceiling o).
Proof.
  intros [[Hf Hr] | [Hf Hr]].
  - apply (find_with_reads (getAll h) (getAll_completed h) findFiles_visit
             h this o r s); try assumption.
    + intros o' e x. apply findFiles_visit_ok.
    + intros p o'. apply getAll_enumerates_once.
  - apply (find_with_reads (getDirectories h) (getDirectories_completed h)
             findDirectories_visit h this o r s); try assumption.
    + intros o' e x. apply findDirectories_visit_ok.
    + intros p o'. unfold getDirectories.
      destruct (sync o'); [rewrite kind_filtered_calls;
                            apply getAll_enumerates_once|].
      destruct (negb (onSuccess o')); [simpl; lia|].
      apply getAll_enumerates_once.
Qed.

Lemma find_reads_within_budget_witness :
  exists r,
    findFiles Examples.tree_abc ["root"]%string (Some Examples.find_txt_sync)
    = Some r /\
    enumerations (state r) = 2 /\
    enumerations (state r) <= total (state r) /\
    total (state r) <= Z.max 1 (limit_ceiling Examples.find_txt_sync).
Proof.
  eexists. split; [reflexivity|]. split; [reflexivity|].
  eapply (find_reads_within_budget Examples.tree_abc ["root"]%string
            Examples.find_txt_sync).
  left. split; [reflexivity | apply rtc_refl].
Defined.

(** *** What a search collects *)

Lemma below_within root p : below root p -> within root p.
Proof. intros (q & _ & ->). exists q. reflexivity. Qed.

Lemma within_root root : within root root.
Proof. exists []. symmetry. apply app_nil_r. Qed.

Lemma children_candidates h root p names :
  within root p ->
  Forall (candidate h root (fun _ => true)) (children h p names).
Proof.
  intros [q ->].
  pose proof (children_classified h (root ++ q) names) as Hc.
  pose proof (children_full_name h (root ++ q) names) as Hn.
  rewrite List.Forall_forall in *. intros e Hin.
  destruct (Hn e Hin) as (n & _ & Hp & _).
  split; [reflexivity|]. split; [|apply Hc; exact Hin].
  exists (q ++ [n]). split; [destruct q; discriminate|].
  rewrite Hp. symmetry. apply app_assoc.
Qed.

Lemma directories_candidates h root p names :
  within root p ->
  Forall (candidate h root isDirectory)
         (List.filter isDirectory (children h p names)).
Proof.
  intros Hw. pose proof (children_candidates h root p names Hw) as Hc.
  rewrite List.Forall_forall in *. intros e Hin.
  apply filter_In in Hin. destruct Hin as [Hin Hd].
  destruct (Hc e Hin) as (_ & Hb & Hs). split; [exact Hd|]. split; assumption.
Qed.

Lemma getAll_sync_candidates h root p env :
  within root p ->
  result (getAll h p (Some sync_request)) = Returned env ->
  Forall (candidate h root (fun _ => true)) (data_of env).
Proof.
  intros Hw. unfold getAll.
  destruct (localMode h); simpl;
    [|intros H; inversion H; constructor].
  destruct (exists_ h p); simpl; [|intros H; inversion H; constructor].
  destruct (readdir h p) as [names|]; simpl; [|discriminate].
  rewrite getAll_processData_unfiltered by reflexivity.
  intros H. inversion H. apply children_candidates. exact Hw.
Qed.

Lemma getDirectories_sync_candidates h root p env :
  within root p ->
  result (getDirectories h p (Some sync_request)) = Returned env ->
  Forall (candidate h root isDirectory) (data_of env).
Proof.
  intros Hw.
  change (getDirectories h p (Some sync_request))
    with (kind_filtered isDirectory (getAll h p (Some sync_request))).
  unfold getAll.
  destruct (localMode h); simpl;
    [|intros H; inversion H; constructor].
  destruct (exists_ h p); simpl; [|intros H; inversion H; constructor].
  destruct (readdir h p) as [names|]; simpl; [|discriminate].
  rewrite getAll_processData_unfiltered by reflexivity.
  intros H. inversion H. apply directories_candidates. exact Hw.
Qed.

Lemma getAll_async_started_own h p o q :
  In q (started (calls (getAll h p (Some (async_request o))))) -> q = p.
Proof.
  unfold getAll. destruct (localMode h); simpl; [|contradiction].
  destruct (exists_ h p); simpl; [|contradiction].
  intros [H | []]. symmetry. exact H.
Qed.

Lemma collects_record_calls sel root p cs s :
  within root p -> (forall q, In q (started cs) -> q = p) ->
  collects sel root s -> collects sel root (record_calls cs s).
Proof.
  intros Hw Hs (Hc & Hd & Hp). repeat split; try assumption.
  cbn [record_calls pending]. apply Forall_app. split; [exact Hp|].
  apply List.Forall_forall. intros q Hq. rewrite (Hs q Hq). exact Hw.
Qed.

Lemma findFiles_visit_collects h root o e s :
  candidate h root (fun _ => true) e ->
  collects (selected h root (template o) isFile KFile) root s ->
  match snd (findFiles_visit o e s) with
  | None => collects (selected h root (template o) isFile KFile) root
                     (fst (findFiles_visit o e s))
  | Some p => within root p /\
              collects (selected h root (template o) isFile KFile) root
                       (fst (findFiles_visit o e s))
  end.
Proof.
  intros (_ & Hb & Hst) (Hc & Hd & Hp). unfold findFiles_visit. rewrite ?below_limit_ceiling.
  destruct (isFile e) eqn:Hf.
  - destruct (selects (template o) (position s) (getFullName e))
      as [[|] q] eqn:Hsel; simpl.
    + repeat split; try assumption.
      apply Forall_app. split; [exact Hc|].
      constructor; [|constructor]. repeat split; try assumption.
      exists (position s). rewrite Hsel. reflexivity.
    + repeat split; assumption.
  - destruct ((total s <? limit_ceiling o) && isDirectory e); simpl.
    + split; [apply below_within; exact Hb|]. repeat split; assumption.
    + repeat split; assumption.
Qed.

Lemma findDirectories_visit_collects h root o e s :
  candidate h root isDirectory e ->
  collects (selected h root (template o) isDirectory KDirectory) root s ->
  match snd (findDirectories_visit o e s) with
  | None => collects (selected h root (template o) isDirectory KDirectory)
                     root (fst (findDirectories_visit o e s))
  | Some p => within root p /\
              collects (selected h root (template o) isDirectory KDirectory)
                       root (fst (findDirectories_visit o e s))
  end.
Proof.
  intros (Hk & Hb & Hst) (Hc & Hd & Hp). unfold findDirectories_visit. rewrite ?below_limit_ceiling.
  assert (Hf : isFile e = false) by (destruct e; [discriminate | reflexivity]).
  rewrite Hf in Hst.
  cbn zeta.
  set (s1 := if fst (selects (template o) (position s) (getFullName e))
             then push e _ else _).
  assert (H1 : collects (selected h root (template o) isDirectory KDirectory)
                        root s1).
  { subst s1.
    destruct (selects (template o) (position s) (getFullName e))
      as [[|] q] eqn:Hsel; simpl.
    - repeat split; try assumption.
      apply Forall_app. split; [exact Hc|].
      constructor; [|constructor]. repeat split; try assumption.
      exists (position s). rewrite Hsel. reflexivity.
    - repeat split; assumption. }
  destruct (total s1 <? limit_ceiling o); simpl.
  - split; [apply below_within; exact Hb|].
    destruct H1 as (A & B & C). repeat split; assumption.
  - exact H1.
Qed.

Lemma find_with_collects (sel : entity -> Prop) (inkind : entity -> bool)
    enumerate completed visit h this o r s :
  (forall e x, candidate h this inkind e -> collects sel this x ->
     match snd (visit o e x) with
     | None => collects sel this (fst (visit o e x))
     | Some p => within this p /\ collects sel this (fst (visit o e x))
     end) ->
  (forall p env, within this p ->
     result (enumerate p (Some sync_request)) = Returned env ->
     Forall (candidate h this inkind) (data_of env)) ->
  (forall p, started (calls (enumerate p (Some sync_request))) = []) ->
  (forall p q, In q (started (calls (enumerate p (Some (async_request o)))))
               -> q = p) ->
  (forall d env, within this d ->
     completed d (async_request o) = CallSuccess env ->
     Forall (candidate h this inkind) (data_of env)) ->
  find_with enumerate visit h this (Some o) = Some r ->
  rtc (step completed enumerate (visit o) o) (state r) s ->
  collects sel this s.
Proof.
  intros Hv Hdata Hsync Hasync Hcomp Hfind Hr.
  apply (rtc_keeps (collects sel this)
           (step completed enumerate (visit o) o) (state r) s);
    [| exact Hr |].
  - intros a b Hstep Ha.
    apply (step_keeps (collects sel this) (collects sel this)
             (candidate h this inkind) (within this)
             completed enumerate (visit o) o a b); try assumption.
    + intros p x Hw Hx.
      apply (collects_record_calls sel this p); auto.
    + intros x before d after (Hc & Hd & Hp) Heq.
      rewrite Heq in Hp. apply Forall_app in Hp. destruct Hp as [Hb Hda].
      inversion Hda; subst. split; [assumption|].
      repeat split; try assumption.
      cbn [set_pending pending]. apply Forall_app. split; assumption.
    + intros x e Hx. exact Hx.
    + intros x Hx. exact Hx.
    + intros x (Hc & Hd & Hp). repeat split; try assumption.
      cbn [deliver delivered]. apply Forall_app. split; [exact Hd|].
      constructor; [|constructor]. intros l Hl. inversion Hl; subst.
      exact Hc.
  - apply (find_with_keeps (collects sel this) (collects sel this)
             (candidate h this inkind) (within this)
             enumerate visit h this o r); try assumption.
    + intros p x Hw Hx. split.
      * apply (collects_record_calls sel this p); auto.
        rewrite Hsync. intros q [].
      * destruct (result (enumerate p (Some sync_request))) eqn:Hres;
          [|exact I].
        eapply Hdata; eassumption.
    + intros p x Hw Hx.
      apply (collects_record_calls sel this p); auto.
    + repeat split; constructor.
    + repeat split; constructor.
    + apply within_root.
    + repeat split; constructor.
Qed.

Lemma find_with_returned_data enumerate visit h this o r env l :
  find_with enumerate visit h this (Some o) = Some r ->
  returned r = Returned env -> data env = Some l ->
  l = collected (state r).
Proof.
  unfold find_with.
  destruct (negb (localMode h));
    [intros H; inversion H; subst; simpl; intros H1; inversion H1; subst;
     discriminate|].
  destruct (negb (sync o) && negb (onSuccess o));
    [intros H; inversion H; subst; simpl; intros H1; inversion H1; subst;
     discriminate|].
  destruct (negb (exists_ h this));
    [intros H; inversion H; subst; simpl; intros H1; inversion H1; subst;
     discriminate|].
  destruct (sync o).
  - destruct (processDirectory_sync _ _ _ _ _) as [x|e x|];
      intros H; inversion H; subst; simpl; intros H1; inversion H1; subst.
    simpl. congruence.
  - destruct (processDirectory_async _ _ _ _) as [x|e x|];
      intros H; inversion H; subst; simpl; intros H1; inversion H1; subst.
    discriminate.
Qed.

(** X23.  A search collects only what it is for.  Every entity in the
    data findFiles returns, in its collection in any state its
    asynchronous run reaches, and in the data of any envelope it delivers
    to the success callback, is a file whose full name the template
    selects, at a path strictly below the searched directory where the
    host has a file; for findDirectories the same holds with directories. *)
Theorem find_collects_only_selected h this o r s :
  (findFiles h this (Some o) = Some r ->
   rtc (findFiles_step h o) (state r) s ->
   (forall env l, returned r = Returned env -> data env = Some l ->
      Forall (selected h this (template o) isFile KFile) l) /\
   Forall (selected h this (template o) isFile KFile) (collected s) /\
   (forall env l, In env (delivered s) -> data env = Some l ->
      Forall (selected h this (template o) isFile KFile) l)) /\
  (findDirectories h this (Some o) = Some r ->
   rtc (findDirectories_step h o) (state r) s ->
   (forall env l, returned r = Returned env -> data env = Some l ->
      Forall (selected h this (template o) isDirectory KDirectory) l) /\
   Forall (selected h this (template o) isDirectory KDirectory)
          (collected s) /\
   (forall env l, In env (delivered s) -> data env = Some l ->
      Forall (selected h this (template o) isDirectory KDirectory) l)).
Proof.
  split; intros Hf Hr.
  - assert (Hall : forall x, rtc (findFiles_step h o) (state r) x ->
              collects (selected h this (template o) isFile KFile) this x).
    { intros x Hx.
      apply (find_with_collects _ (fun _ => true) (getAll h)
               (getAll_completed h) findFiles_visit h this o r x);
        try assumption.
      - intros e y. apply findFiles_visit_collects.
      - intros p env. apply getAll_sync_candidates.
      - intros p. apply getAll_sync_started.
      - intros p q. apply getAll_async_started_own.
      - intros d env Hw Hc. apply getAll_completed_data in Hc.
        destruct Hc as (names & _ & ->). apply children_candidates.
        exact Hw. }
    split; [|split].
    + intros env l Hret Hdata.
      rewrite (find_with_returned_data _ _ _ _ _ _ _ _ Hf Hret Hdata).
      apply (Hall (state r)). apply rtc_refl.
    + apply (Hall s Hr).
    + intros env l Hin Hdata. destruct (Hall s Hr) as (_ & Hd & _).
      rewrite List.Forall_forall in Hd. apply (Hd env Hin l Hdata).
  - assert (Hall : forall x, rtc (findDirectories_step h o) (state r) x ->
              collects (selected h this (template o) isDirectory KDirectory)
                       this x).
    { intros x Hx.
      apply (find_with_collects _ isDirectory (getDirectories h)
               (getDirectories_completed h) findDirectories_visit
               h this o r x); try assumption.
      - intros e y. apply findDirectories_visit_collects.
      - intros p env. apply getDirectories_sync_candidates.
      - intros p. apply getDirectories_sync_started.
      - intros p q. rewrite getDirectories_async.
        apply getAll_async_started_own.
      - intros d env Hw Hc. apply getDirectories_completed_data in Hc.
        destruct Hc as (names & _ & ->). apply directories_candidates.
        exact Hw. }
    split; [|split].
    + intros env l Hret Hdata.
      rewrite (find_with_returned_data _ _ _ _ _ _ _ _ Hf Hret Hdata).
      apply (Hall (state r)). apply rtc_refl.
    + apply (Hall s Hr).
    + intros env l Hin Hdata. destruct (Hall s Hr) as (_ & Hd & _).
      rewrite List.Forall_forall in Hd. apply (Hd env Hin l Hdata).
Qed.

Lemma find_collects_only_selected_witness :
  exists r,
    findFiles Examples.tree_abc ["root"]%string (Some Examples.find_txt_sync)
    = Some r /\
    collected (state r) = [Examples.a_txt; Examples.c_txt] /\
    Forall (selected Examples.tree_abc ["root"]%string Examples.txt
                     isFile KFile)
           (collected (state r)).
Proof.
  eexists. split; [reflexivity|]. split; [reflexivity|].
  pose proof (proj1 (find_collects_only_selected Examples.tree_abc
                       ["root"]%string Examples.find_txt_sync _ _)
                eq_refl (rtc_refl _ _)) as (_ & H & _).
  exact H.
Defined.

(** *** How a synchronous search ends *)








(** *** The template only filters the collection *)

Lemma restrict_push keep e s :
  restrict_search keep (push e s)
  = if keep e then push e (restrict_search keep s)
    else restrict_search keep s.
Proof.
  unfold restrict_search, push. simpl. rewrite List.filter_app. simpl.
  destruct (keep e); [reflexivity|]. rewrite app_nil_r. reflexivity.
Qed.

Lemma restrict_deliver keep env s :
  restrict_search keep (deliver env s)
  = deliver (restrict_envelope keep env) (restrict_search keep s).
Proof.
  unfold restrict_search, deliver. simpl. rewrite map_app. reflexivity.
Qed.

Lemma findFiles_visit_restrict o t e s :
  stateless t = true ->
  findFiles_visit (with_template t o) e
    (restrict_search (fun e => matches t (getFullName e)) s)
  = (restrict_search (fun e => matches t (getFullName e))
       (fst (findFiles_visit (with_template JUndefined o) e s)),
     snd (findFiles_visit (with_template JUndefined o) e s)).
Proof.
  intros Ht. unfold findFiles_visit. rewrite ?below_limit_ceiling.
  change (limit_ceiling (with_template t o)) with (limit_ceiling o).
  change (limit_ceiling (with_template JUndefined o))
    with (limit_ceiling o).
  cbn [template with_template]. cbv zeta.
  rewrite (selects_stateless t _ _ Ht).
  rewrite (selects_stateless JUndefined _ _ eq_refl).
  cbn [fst snd matches]. rewrite !set_position_same.
  destruct (isFile e).
  - cbn [fst snd]. rewrite restrict_push.
    destruct (matches t (getFullName e)); reflexivity.
  - change (total (restrict_search (fun e => matches t (getFullName e)) s))
      with (total s).
    destruct ((total s <? limit_ceiling o) && isDirectory e); reflexivity.
Qed.

Lemma findDirectories_visit_restrict o t e s :
  stateless t = true ->
  findDirectories_visit (with_template t o) e
    (restrict_search (fun e => matches t (getFullName e)) s)
  = (restrict_search (fun e => matches t (getFullName e))
       (fst (findDirectories_visit (with_template JUndefined o) e s)),
     snd (findDirectories_visit (with_template JUndefined o) e s)).
Proof.
  intros Ht. unfold findDirectories_visit. rewrite ?below_limit_ceiling.
  change (limit_ceiling (with_template t o)) with (limit_ceiling o).
  change (limit_ceiling (with_template JUndefined o))
    with (limit_ceiling o).
  cbn [template with_template]. cbv zeta.
  rewrite (selects_stateless t _ _ Ht).
  rewrite (selects_stateless JUndefined _ _ eq_refl).
  cbn [fst snd matches]. rewrite !set_position_same.
  set (keep := fun e => matches t (getFullName e)).
  assert (H1 : (if matches t (getFullName e)
                then push e (restrict_search keep s)
                else restrict_search keep s)
               = restrict_search keep (push e s)).
  { rewrite restrict_push. reflexivity. }
  rewrite H1.
  change (total (restrict_search keep (push e s))) with (total (push e s)).
  destruct (total (push e s) <? limit_ceiling o); reflexivity.
Qed.

Lemma forEach_restrict keep visit_t visit_u rec_t rec_u :
  (forall e s, visit_t e (restrict_search keep s)
               = (restrict_search keep (fst (visit_u e s)),
                  snd (visit_u e s))) ->
  (forall p s, rec_t p (restrict_search keep s)
               = map_completion (restrict_search keep) (rec_u p s)) ->
  forall data s,
    forEach visit_t rec_t data (restrict_search keep s)
    = map_completion (restrict_search keep) (forEach visit_u rec_u data s).
Proof.
  intros Hv Hrec data. induction data as [|e rest IH]; intros s; simpl.
  - reflexivity.
  - rewrite Hv. destruct (visit_u e s) as [s1 [p|]]; cbn [fst snd].
    + rewrite Hrec. destruct (rec_u p s1) as [s2|x s2|]; simpl.
      * apply IH.
      * reflexivity.
      * reflexivity.
    + apply IH.
Qed.

Lemma processDirectory_sync_restrict keep enumerate visit_t visit_u :
  (forall e s, visit_t e (restrict_search keep s)
               = (restrict_search keep (fst (visit_u e s)),
                  snd (visit_u e s))) ->
  forall fuel p s,
    processDirectory_sync enumerate visit_t fuel p (restrict_search keep s)
    = map_completion (restrict_search keep)
        (processDirectory_sync enumerate visit_u fuel p s).
Proof.
  intros Hv. induction fuel as [|fuel IH]; intros p s; simpl; [reflexivity|].
  destruct (result (enumerate p (Some sync_request))) as [env|e].
  - apply (forEach_restrict keep visit_t visit_u
             (processDirectory_sync enumerate visit_t fuel)
             (processDirectory_sync enumerate visit_u fuel) Hv IH
             (data_of env)
             (record_calls (calls (enumerate p (Some sync_request))) s)).
  - reflexivity.
Qed.

Lemma processDirectory_async_restrict keep enumerate o o' p s :
  async_request o = async_request o' ->
  processDirectory_async enumerate o p (restrict_search keep s)
  = map_completion (restrict_search keep)
      (processDirectory_async enumerate o' p s).
Proof.
  intros Ho. unfold processDirectory_async. rewrite Ho.
  destruct (result (enumerate p (Some (async_request o'))));
    reflexivity.
Qed.

Lemma find_with_restrict keep enumerate visit h this o t :
  (forall e s, visit (with_template t o) e (restrict_search keep s)
               = (restrict_search keep
                    (fst (visit (with_template JUndefined o) e s)),
                  snd (visit (with_template JUndefined o) e s))) ->
  find_with enumerate visit h this (Some (with_template t o))
  = option_map (restrict_found keep)
      (find_with enumerate visit h this (Some (with_template JUndefined o))).
Proof.
  intros Hv. unfold find_with.
  change (sync (with_template t o)) with (sync o).
  change (sync (with_template JUndefined o)) with (sync o).
  change (onSuccess (with_template t o)) with (onSuccess o).
  change (onSuccess (with_template JUndefined o)) with (onSuccess o).
  change (limit_ceiling (with_template t o)) with (limit_ceiling o).
  change (limit_ceiling (with_template JUndefined o))
    with (limit_ceiling o).
  destruct (negb (localMode h)); [reflexivity|].
  destruct (negb (sync o) && negb (onSuccess o)); [reflexivity|].
  destruct (negb (exists_ h this)); [reflexivity|].
  destruct (sync o).
  - change (initial [ExistsSync this])
      with (restrict_search keep (initial [ExistsSync this])) at 1.
    rewrite (processDirectory_sync_restrict keep enumerate _ _ Hv).
    destruct (processDirectory_sync enumerate
                (visit (with_template JUndefined o)) _ _ _);
      reflexivity.
  - change (initial [ExistsSync this])
      with (restrict_search keep (initial [ExistsSync this])) at 1.
    rewrite (processDirectory_async_restrict keep enumerate
               (with_template t o) (with_template JUndefined o))
      by reflexivity.
    destruct (processDirectory_async enumerate
                (with_template JUndefined o) _ _);
      reflexivity.
Qed.

Lemma step_restrict keep completed enumerate visit o t s s' :
  (forall e s, visit (with_template t o) e (restrict_search keep s)
               = (restrict_search keep
                    (fst (visit (with_template JUndefined o) e s)),
                  snd (visit (with_template JUndefined o) e s))) ->
  step completed enumerate (visit (with_template JUndefined o))
       (with_template JUndefined o) s s' ->
  step completed enumerate (visit (with_template t o)) (with_template t o)
       (restrict_search keep s) (restrict_search keep s').
Proof.
  intros Hv [x before d after y Hp Hc].
  apply (step_complete _ _ _ _ _ before d after).
  - exact Hp.
  - change (set_pending (before ++ after) (restrict_search keep x))
      with (restrict_search keep (set_pending (before ++ after) x)).
    revert Hc. generalize (set_pending (before ++ after) x). intros z.
    unfold complete.
    change (async_request (with_template t o))
      with (async_request (with_template JUndefined o)).
    destruct (completed d (async_request (with_template JUndefined o)))
      as [e|env].
    + intros H. inversion H. reflexivity.
    + unfold onSuccess_closure.
      change (incr_processed (restrict_search keep z))
        with (restrict_search keep (incr_processed z)).
      rewrite (forEach_restrict keep _
                 (visit (with_template JUndefined o)) _
                 (processDirectory_async enumerate
                    (with_template JUndefined o)) Hv).
      * destruct (forEach (visit (with_template JUndefined o)) _ _ _)
          as [s2|e s2|]; simpl; try discriminate.
        destruct (total s2 =? processed s2); intros H; inversion H;
          [rewrite restrict_deliver|]; reflexivity.
      * intros p a. apply processDirectory_async_restrict. reflexivity.
Qed.

(** X25.  The template of a search decides what is collected, and
    nothing else.  findFiles and findDirectories with a template that is
    no RegExp with the g or y flag return what the same call without
    template returns, with the collection, the data returned and the data
    delivered restricted to the entities whose full name matches the
    template: the same status or exception, the same host calls, the same
    counters.  A full name matches a RegExp whose pattern matches it, a
    string equal to it, and the falsy templates (undefined, null, false,
    0, the empty string); no name matches another template.  Each step of
    the asynchronous run without template is a step of the run with the
    template on the restricted states. *)
Theorem template_only_filters h this o t :
  stateless t = true ->
  let keep := fun e => matches t (getFullName e) in
  findFiles h this (Some (with_template t o))
  = option_map (restrict_found keep)
      (findFiles h this (Some (with_template JUndefined o))) /\
  findDirectories h this (Some (with_template t o))
  = option_map (restrict_found keep)
      (findDirectories h this (Some (with_template JUndefined o))) /\
  (forall s s', findFiles_step h (with_template JUndefined o) s s' ->
     findFiles_step h (with_template t o)
       (restrict_search keep s) (restrict_search keep s')) /\
  (forall s s', findDirectories_step h (with_template JUndefined o) s s' ->
     findDirectories_step h (with_template t o)
       (restrict_search keep s) (restrict_search keep s')).
Proof.
  intros Ht. cbn zeta. split; [|split; [|split]].
  - apply find_with_restrict. intros e s.
    apply findFiles_visit_restrict. exact Ht.
  - apply find_with_restrict. intros e s.
    apply findDirectories_visit_restrict. exact Ht.
  - intros s s'. apply step_restrict. intros e x.
    apply findFiles_visit_restrict. exact Ht.
  - intros s s'. apply step_restrict. intros e x.
    apply findDirectories_visit_restrict. exact Ht.
Qed.

Lemma template_only_filters_witness :
  findFiles Examples.tree_abc ["root"%string]
            (Some (with_template (JStr "a.txt") Examples.find_default))
  = option_map
      (restrict_found (fun e => matches (JStr "a.txt") (getFullName e)))
      (findFiles Examples.tree_abc ["root"%string]
                 (Some (with_template JUndefined Examples.find_default))).
Proof.
  apply (template_only_filters Examples.tree_abc ["root"%string]
           Examples.find_default (JStr "a.txt") eq_refl).
Defined.

(** *** The promises of the searches *)

Lemma visit_ok_failed limit visit (s0 : search) :
  (forall e s, visit_ok limit e s (fst (visit e s)) (snd (visit e s))) ->
  forall (e : entity) s, True ->
    (exists l, failed s = failed s0 ++ l) ->
    match snd (visit e s) with
    | None => exists l, failed (fst (visit e s)) = failed s0 ++ l
    | Some p => True /\ exists l, failed (fst (visit e s)) = failed s0 ++ l
    end.
Proof.
  intros Hv e s _ Hs. specialize (Hv e s).
  destruct (visit e s) as [s1 d]. simpl in *.
  destruct Hv as (q & x & Hx & Hcase).
  assert (H0 : failed x = failed s) by (destruct Hx as [-> | ->]; reflexivity).
  destruct Hcase as [[-> ->] | (-> & _ & ->)]; cbn beta iota.
  - rewrite H0. exact Hs.
  - split; [exact I|]. cbn [incr_total failed]. rewrite H0. exact Hs.
Qed.

Lemma rtc_failed_prefix limit completed enumerate visit o s s' :
  (forall e s, visit_ok limit e s (fst (visit e s)) (snd (visit e s))) ->
  rtc (step completed enumerate visit o) s s' ->
  exists l, failed s' = failed s ++ l.
Proof.
  intros Hv Hr.
  apply (rtc_keeps (fun x => exists l, failed x = failed s ++ l)
           (step completed enumerate visit o) s s'); [| exact Hr |].
  - intros a b Hstep Ha.
    apply (step_keeps (fun x => exists l, failed x = failed s ++ l)
             (fun x => exists l, failed x = failed s ++ l)
             (fun _ => True) (fun _ => True)
             completed enumerate visit o a b); try assumption.
    + apply (visit_ok_failed limit visit s Hv).
    + intros p x _ Hx. exact Hx.
    + intros x before d after Hx _. split; [exact I | exact Hx].
    + intros x e [l Hl]. exists (l ++ [e]). cbn [fail failed].
      rewrite Hl. symmetry. apply app_assoc.
    + intros x Hx. exact Hx.
    + intros x Hx. exact Hx.
    + intros d env _ _. apply List.Forall_forall. auto.
  - exists []. symmetry. apply app_nil_r.
Qed.

Lemma completes_once_settles limit completed enumerate visit o s0 :
  (forall e s, visit_ok limit e s (fst (visit e s)) (snd (visit e s))) ->
  completes_once (step completed enumerate visit o) limit s0 ->
  settles_once (step completed enumerate visit o)
    (Found (Returned (failure WAIT_FOR_ASYNC_OPERATION)) s0) s0.
Proof.
  intros Hv [Hco _] s Hr.
  destruct (Hco s Hr) as (Hd & Hdone & Hfailed & _).
  unfold find_promise. cbn [returned st failure status_eqb].
  change (status_eqb WAIT_FOR_ASYNC_OPERATION WAIT_FOR_ASYNC_OPERATION)
    with true. cbv iota.
  split; [|split; [|split]].
  - intros Hp Hf. rewrite Hf.
    destruct Hd as [-> | (_ & _ & Hp' & _)]; [reflexivity | contradiction].
  - intros Hp Hf. rewrite Hf, (Hdone Hp Hf). reflexivity.
  - intros e l Hf. rewrite Hf. reflexivity.
  - intros s' Hr' Hset.
    destruct (failed s) as [|e l] eqn:Hf.
    + destruct Hd as [Hd | (Hd & _ & Hp & _)].
      * rewrite Hd in Hset. contradiction.
      * apply rtc_stuck in Hr'; [|exact Hp]. subst s'. rewrite Hf.
        reflexivity.
    + destruct (rtc_failed_prefix limit completed enumerate visit o s s'
                  Hv Hr') as [l' Hl'].
      rewrite Hl', Hf. reflexivity.
Qed.

Lemma find_with_promise enumerate completed visit h this object r :
  (forall o e s, visit_ok (limit_ceiling o) e s
                          (fst (visit o e s)) (snd (visit o e s))) ->
  (forall d, exists env,
      result (enumerate d (Some (async_request (bridge_request object))))
      = Returned env) ->
  (localMode h = true -> exists_ h this = true ->
   completes_once
     (step completed enumerate (visit (bridge_request object))
           (bridge_request object))
     (limit_ceiling (bridge_request object))
     (launched enumerate this (bridge_request object))) ->
  find_with enumerate visit h this (Some (bridge_request object)) = Some r ->
  (forall e, spec_precondition h this (Some (bridge_request object)) = Some e ->
     (e = ERROR_NOT_LOCAL_MODE \/ e = ERROR_PATH_DOES_NOT_EXIST) /\
     forall s, find_promise r s = Fulfilled (failure e)) /\
  (spec_precondition h this (Some (bridge_request object)) = None ->
   settles_once
     (step completed enumerate (visit (bridge_request object))
           (bridge_request object)) r (state r)).
Proof.
  intros Hv Hret Hco. unfold find_with, spec_precondition.
  cbn [sync onSuccess bridge_request negb andb].
  destruct (localMode h) eqn:Hl; cbn [negb].
  - destruct (exists_ h this) eqn:He; cbn [negb].
    + unfold processDirectory_async. destruct (Hret this) as [env Henv].
      rewrite Henv. intros H. inversion H. subst r. clear H.
      split; [discriminate|]. intros _. cbn [state].
      apply (completes_once_settles
               (limit_ceiling (bridge_request object))).
      * apply Hv.
      * apply Hco; reflexivity.
    + intros H. inversion H. subst r. clear H. split; [|discriminate].
      intros e He'. inversion He'. subst e. split; [auto|]. reflexivity.
  - intros H. inversion H. subst r. clear H. split; [|discriminate].
    intros e He'. inversion He'. subst e. split; [auto|]. reflexivity.
Qed.

(** X26.  The promises of findFilesAsync and findDirectoriesAsync settle
    once.  The find call of the executor always returns.  When a
    precondition fails, which can only be the mode or the path, the
    promise is fulfilled at once with that error envelope.  Otherwise, in
    every state of the run: the promise is pending while enumerations are
    pending and none has failed; it is fulfilled with the collection and OK
    when none is pending and none has failed; it is broken with the first
    failure of the host; and once settled it never changes. *)
Theorem find_promises_settle_once h this object :
  (exists r, findFilesAsync h this object = Some r /\
     (forall e,
        spec_precondition h this (Some (bridge_request object)) = Some e ->
        (e = ERROR_NOT_LOCAL_MODE \/ e = ERROR_PATH_DOES_NOT_EXIST) /\
        forall s, find_promise r s = Fulfilled (failure e)) /\
     (spec_precondition h this (Some (bridge_request object)) = None ->
      settles_once (findFiles_step h (bridge_request object)) r (state r))) /\
  (exists r, findDirectoriesAsync h this object = Some r /\
     (forall e,
        spec_precondition h this (Some (bridge_request object)) = Some e ->
        (e = ERROR_NOT_LOCAL_MODE \/ e = ERROR_PATH_DOES_NOT_EXIST) /\
        forall s, find_promise r s = Fulfilled (failure e)) /\
     (spec_precondition h this (Some (bridge_request object)) = None ->
      settles_once (findDirectories_step h (bridge_request object))
                   r (state r))).
Proof.
  split.
  - destruct (findFiles_total h this (Some (bridge_request object)))
      as [r Hr].
    exists r. split; [exact Hr|].
    apply (find_with_promise (getAll h) (getAll_completed h) findFiles_visit
             h this object r).
    + intros o e s. apply findFiles_visit_ok.
    + intros d. apply getAll_async_returns.
    + intros Hl He. apply findFiles_completes_once; assumption.
    + exact Hr.
  - destruct (findDirectories_total h this (Some (bridge_request object)))
      as [r Hr].
    exists r. split; [exact Hr|].
    apply (find_with_promise (getDirectories h) (getDirectories_completed h)
             findDirectories_visit h this object r).
    + intros o e s. apply findDirectories_visit_ok.
    + intros d. rewrite getDirectories_async. apply getAll_async_returns.
    + intros Hl He. apply findDirectories_completes_once; assumption.
    + exact Hr.
Qed.

Lemma find_promises_settle_once_witness :
  exists r,
    findFilesAsync Examples.tree_abc ["root"]%string
      (Some Examples.find_txt_sync) = Some r /\
    find_promise r (state r) = Pending.
Proof.
  destruct (find_promises_settle_once Examples.tree_abc ["root"]%string
              (Some Examples.find_txt_sync)) as [(r & Hr & _ & Hs) _].
  exists r. split; [exact Hr|].
  destruct (Hs eq_refl (state r) (rtc_refl _ _)) as (Hpend & _).
  unfold findFilesAsync, findFiles, find_with in Hr. cbn in Hr.
  inversion Hr. subst r.
  apply Hpend; [discriminate | reflexivity].
Defined.

(** *** What a synchronous search always finds *)

Lemma forEach_collects (keep : entity -> bool) visit rec :
  (forall e s, incl (collected s) (collected (fst (visit e s))) /\
               (keep e = true -> In e (collected (fst (visit e s))))) ->
  (forall p s s', rec p s = Normal s' ->
                  incl (collected s) (collected s')) ->
  forall data s s', forEach visit rec data s = Normal s' ->
    incl (collected s) (collected s') /\
    (forall e, In e data -> keep e = true -> In e (collected s')).
Proof.
  intros Hv Hrec data. induction data as [|e rest IH]; intros s s'; simpl.
  - intros H. inversion H. subst. split; [apply incl_refl | contradiction].
  - destruct (Hv e s) as [Hi Hk].
    destruct (visit e s) as [s1 [p|]]; cbn [fst] in Hi, Hk.
    + destruct (rec p s1) as [s2|x s2|] eqn:Hr; try discriminate.
      intros H. destruct (IH s2 s' H) as [Hi2 Hall].
      pose proof (Hrec p s1 s2 Hr) as Hi1.
      split.
      * eapply incl_tran; [exact Hi|]. eapply incl_tran; eassumption.
      * intros e' [<- | Hin] Hke; [|apply Hall; assumption].
        apply Hi2, Hi1, Hk, Hke.
    + intros H. destruct (IH s1 s' H) as [Hi2 Hall]. split.
      * eapply incl_tran; eassumption.
      * intros e' [<- | Hin] Hke; [|apply Hall; assumption].
        apply Hi2, Hk, Hke.
Qed.

Lemma processDirectory_sync_incl enumerate visit :
  (forall e s, incl (collected s) (collected (fst (visit e s)))) ->
  forall fuel p s s',
    processDirectory_sync enumerate visit fuel p s = Normal s' ->
    incl (collected s) (collected s').
Proof.
  intros Hv. induction fuel as [|fuel IH]; intros p s s'; simpl;
    [discriminate|].
  destruct (result (enumerate p (Some sync_request))) as [env|e];
    [|discriminate].
  intros H.
  apply (forEach_collects (fun _ => false) visit
           (processDirectory_sync enumerate visit fuel)) in H.
  - destruct H as [H _]. exact H.
  - intros e x. split; [apply Hv | discriminate].
  - exact IH.
Qed.

Lemma find_with_direct (keep : entity -> bool) enumerate visit h this o
    listing cs r env :
  (forall e s, incl (collected s) (collected (fst (visit o e s))) /\
               (keep e = true -> In e (collected (fst (visit o e s))))) ->
  enumerate this (Some sync_request)
  = Effect (Returned (Envelope (Some listing) OK)) cs ->
  sync o = true -> localMode h = true -> exists_ h this = true ->
  find_with enumerate visit h this (Some o) = Some r ->
  returned r = Returned env ->
  data env = Some (collected (state r)) /\
  forall e, In e listing -> keep e = true -> In e (collected (state r)).
Proof.
  intros Hv Hen Hs Hl He. unfold find_with. rewrite Hs, Hl, He.
  cbn [negb andb].
  destruct (Z.to_nat (Z.max 1 (limit_ceiling o))) as [|fuel];
    [discriminate|].
  cbn [processDirectory_sync]. rewrite Hen. cbn [result calls data_of data].
  destruct (forEach _ _ _ _) as [s'|x s'|] eqn:Hf; intros H; inversion H;
    subst; cbn; intros H1; inversion H1; subst.
  split; [reflexivity|].
  apply (forEach_collects keep (visit o)
           (processDirectory_sync enumerate (visit o) fuel)) in Hf.
  - destruct Hf as [_ Hf]. exact Hf.
  - exact Hv.
  - apply processDirectory_sync_incl. intros e x. apply Hv.
Qed.

Lemma findFiles_visit_keeps o e s :
  stateless (template o) = true ->
  incl (collected s) (collected (fst (findFiles_visit o e s))) /\
  (isFile e && matches (template o) (getFullName e) = true ->
   In e (collected (fst (findFiles_visit o e s)))).
Proof.
  intros Ht. unfold findFiles_visit. rewrite ?below_limit_ceiling.
  cbv zeta. rewrite (selects_stateless _ _ _ Ht). cbn [fst snd].
  rewrite set_position_same.
  destruct (isFile e); cbn [andb].
  - destruct (matches (template o) (getFullName e)); cbn [fst push collected].
    + split; [apply incl_appl, incl_refl|].
      intros _. apply in_or_app. right. left. reflexivity.
    + split; [apply incl_refl | discriminate].
  - destruct ((total s <? limit_ceiling o) && isDirectory e);
      cbn [fst incr_total collected];
      (split; [apply incl_refl | discriminate]).
Qed.

Lemma findDirectories_visit_keeps o e s :
  stateless (template o) = true ->
  incl (collected s) (collected (fst (findDirectories_visit o e s))) /\
  (matches (template o) (getFullName e) = true ->
   In e (collected (fst (findDirectories_visit o e s)))).
Proof.
  intros Ht. unfold findDirectories_visit. rewrite ?below_limit_ceiling.
  cbv zeta. rewrite (selects_stateless _ _ _ Ht). cbn [fst snd].
  rewrite set_position_same.
  destruct (matches (template o) (getFullName e)).
  - destruct (total (push e s) <? limit_ceiling o);
      cbn [fst incr_total push collected];
      (split; [apply incl_appl, incl_refl|];
       intros _; apply in_or_app; right; left; reflexivity).
  - destruct (total s <? limit_ceiling o);
      cbn [fst incr_total collected];
      (split; [apply incl_refl | discriminate]).
Qed.

(** X27.  A synchronous search that returns has found every match in the
    searched directory itself, whatever its budget.  In local mode, on an
    existing path whose names the host enumerates, and with a template
    that is no RegExp with the g or y flag, the data that synchronous
    findFiles returns is its collection and holds every file directly in
    the directory whose full name matches the template; synchronous
    findDirectories likewise holds every directory directly in it that
    matches.  A full name matches a RegExp whose pattern matches it, a
    string equal to it, and the falsy templates; no name matches another
    template. *)
Theorem sync_find_holds_direct_matches h this o names :
  sync o = true -> localMode h = true -> exists_ h this = true ->
  readdir h this = Some names ->
  stateless (template o) = true ->
  (forall r env, findFiles h this (Some o) = Some r ->
     returned r = Returned env ->
     data env = Some (collected (state r)) /\
     forall e, In e (direct_matches isFile h this (template o) names) ->
               In e (collected (state r))) /\
  (forall r env, findDirectories h this (Some o) = Some r ->
     returned r = Returned env ->
     data env = Some (collected (state r)) /\
     forall e, In e (direct_matches isDirectory h this (template o) names) ->
               In e (collected (state r))).
Proof.
  intros Hs Hl He Hn Ht. split; intros r env Hf Hret.
  - pose proof (getAll_sync_listing h this Hl He) as Hen. rewrite Hn in Hen.
    destruct (find_with_direct
                (fun e => isFile e && matches (template o) (getFullName e))
                (getAll h) findFiles_visit h this o _ _ r env
                (fun e s => findFiles_visit_keeps o e s Ht)
                Hen Hs Hl He Hf Hret)
      as [Hd Hall].
    split; [exact Hd|]. intros e Hin. unfold direct_matches in Hin.
    apply filter_In in Hin. destruct Hin as [Hin Hk]. apply Hall; assumption.
  - pose proof (getDirectories_sync_listing h this Hl He) as Hen.
    rewrite Hn in Hen.
    destruct (find_with_direct
                (fun e => matches (template o) (getFullName e))
                (getDirectories h) findDirectories_visit h this o _ _ r env
                (fun e s => findDirectories_visit_keeps o e s Ht)
                Hen Hs Hl He Hf Hret)
      as [Hd Hall].
    split; [exact Hd|]. intros e Hin. unfold direct_matches in Hin.
    apply filter_In in Hin. destruct Hin as [Hin Hk].
    apply andb_prop in Hk. destruct Hk as [Hk1 Hk2].
    apply Hall; [|exact Hk2]. apply filter_In. split; assumption.
Qed.

Lemma sync_find_holds_direct_matches_witness :
  In Examples.a_txt
     (direct_matches isFile Examples.tree_abc ["root"]%string
        (template Examples.find_txt_sync)
        ["a.txt"; "b.png"; "sub"]%string) /\
  forall r env,
    findFiles Examples.tree_abc ["root"]%string (Some Examples.find_txt_sync)
    = Some r ->
    returned r = Returned env ->
    data env = Some (collected (state r)) /\
    forall e,
      In e (direct_matches isFile Examples.tree_abc ["root"]%string
              (template Examples.find_txt_sync)
              ["a.txt"; "b.png"; "sub"]%string) ->
      In e (collected (state r)).
Proof.
  split; [left; reflexivity|].
  apply (proj1 (sync_find_holds_direct_matches Examples.tree_abc
                  ["root"]%string Examples.find_txt_sync
                  ["a.txt"; "b.png"; "sub"]%string
                  eq_refl eq_refl eq_refl eq_refl eq_refl)).
Defined.

End DirectoryExtra.

(** ** DKTools.Sprite.Arrow *)

Module ArrowExtra.
Import Arrow.

Lemma strict_eq_eq a b : strict_eq a b = true <-> a = b.
Proof.
  destruct a as [| |s], b as [| |s']; simpl;
    try (split; [discriminate | discriminate]); try tauto.
  rewrite String.eqb_eq. split; [intros ->; reflexivity|].
  intros H. inversion H. reflexivity.
Qed.

Lemma strict_eq_refl a : strict_eq a a = true.
Proof. apply strict_eq_eq. reflexivity. Qed.

Lemma setup_fixed type :
  strict_eq (if truthy type then type else standardArrowType) type = false ->
  truthy type = false.
Proof.
  destruct (truthy type); [|reflexivity].
  rewrite strict_eq_refl. discriminate.
Qed.

(** X28.  setArrowType reports exactly the changes of the type and redraws
    only then.  It returns true exactly when the stored type is another
    one afterwards; the stored type is then the given type, or null when
    the given type is falsy; the arrow is redrawn (the inherited
    refreshAll, then setFrame with the frame of the new type) exactly when
    it returns true and is not blocked, and nothing is called otherwise.
    Repeating the call returns false and changes nothing.  setAll adds one
    to the count it is given exactly when the type changes, never redraws,
    and calls start exactly when the count is positive and start is not
    blocked. *)
Theorem setArrowType_reports_change type block sp :
  let r := setArrowType type block sp in
  (fst r = true <-> arrowType (snd r) <> arrowType sp) /\
  (fst r = true ->
   arrowType (snd r) = (if truthy type then type else Null)) /\
  log (snd r)
  = log sp ++ (if fst r && negb block
               then [ButtonRefreshAll; SetFrame (getRect (arrowType (snd r)))]
               else []) /\
  setArrowType type block (snd r) = (false, snd r) /\
  (forall n bs act,
     fst (setAll n type bs act sp) = (if fst r then n + 1 else n) /\
     arrowType (snd (setAll n type bs act sp)) = arrowType (snd r) /\
     log (snd (setAll n type bs act sp))
     = log sp
       ++ (if (fst (setAll n type bs act sp) >? 0) && negb bs
           then [Start] else [])
       ++ (if (fst (setAll n type bs act sp) >? 0) && act
           then [Activate] else [])).
Proof.
  cbn zeta. destruct sp as [cur lg].
  assert (Hset : forall b,
    setArrowType type b (Sprite cur lg)
    = if strict_eq cur type then (false, Sprite cur lg)
      else if strict_eq (if truthy type then type else Null) cur
           then (false, Sprite (if truthy type then type else Null) lg)
           else (true,
                 if negb b
                 then Sprite (if truthy type then type else Null)
                        (lg ++ [ButtonRefreshAll]
                            ++ [SetFrame (getRect (if truthy type then type
                                                   else Null))])
                 else Sprite (if truthy type then type else Null) lg)).
  { intros b. unfold setArrowType, setupArrowType, refreshAll, refreshArrow,
      called, standardArrowType. cbn [arrowType log].
    destruct (strict_eq cur type); [reflexivity|].
    destruct (strict_eq _ cur); [reflexivity|].
    destruct b; cbn [negb]; [reflexivity|].
    rewrite <- app_assoc. reflexivity. }
  assert (Hagain : forall l,
    strict_eq cur type = false ->
    setArrowType type block (Sprite (if truthy type then type else Null) l)
    = (false, Sprite (if truthy type then type else Null) l)).
  { intros l Hne. unfold setArrowType, setupArrowType, standardArrowType.
    cbn [arrowType log].
    destruct (strict_eq (if truthy type then type else Null) type) eqn:E;
      [reflexivity|].
    rewrite (setup_fixed type E). rewrite strict_eq_refl. reflexivity. }
  split; [|split; [|split; [|split]]].
  - rewrite Hset.
    destruct (strict_eq cur type) eqn:E1; cbn [fst snd arrowType].
    + split; [discriminate | congruence].
    + destruct (strict_eq (if truthy type then type else Null) cur) eqn:E2;
        cbn [fst snd arrowType].
      * apply strict_eq_eq in E2. split; [discriminate | congruence].
      * split; [|reflexivity]. intros _ H.
        assert (E3 : strict_eq (if truthy type then type else Null) cur
                     = true).
        { apply strict_eq_eq. destruct block; exact H. }
        congruence.
  - rewrite Hset.
    destruct (strict_eq cur type); cbn [fst snd]; [discriminate|].
    destruct (strict_eq _ cur); cbn [fst snd]; [discriminate|].
    intros _. destruct block; reflexivity.
  - rewrite Hset.
    destruct (strict_eq cur type); cbn [fst snd log andb];
      [symmetry; apply app_nil_r|].
    destruct (strict_eq _ cur); cbn [fst snd log andb];
      [symmetry; apply app_nil_r|].
    destruct block; cbn [negb log arrowType];
      [symmetry; apply app_nil_r | reflexivity].
  - rewrite (Hset block).
    destruct (strict_eq cur type) eqn:E1; cbn [snd].
    + unfold setArrowType. cbn [arrowType]. rewrite E1. reflexivity.
    + destruct (strict_eq (if truthy type then type else Null) cur) eqn:E2;
        cbn [snd].
      * apply Hagain. reflexivity.
      * destruct block; cbn [negb]; apply Hagain; reflexivity.
  - intros n bs act. unfold setAll. cbn zeta. rewrite !(Hset true).
    cbn [negb].
    assert (Hsame : arrowType (snd (setArrowType type block (Sprite cur lg)))
                    = arrowType
                        (snd (if strict_eq cur type
                              then (false, Sprite cur lg)
                              else if strict_eq
                                        (if truthy type then type else Null)
                                        cur
                                   then (false,
                                         Sprite (if truthy type then type
                                                 else Null) lg)
                                   else (true,
                                         Sprite (if truthy type then type
                                                 else Null) lg))) /\
                    fst (setArrowType type block (Sprite cur lg))
                    = fst (if strict_eq cur type
                           then (false, Sprite cur lg)
                           else if strict_eq
                                     (if truthy type then type else Null)
                                     cur
                                then (false,
                                      Sprite (if truthy type then type
                                              else Null) lg)
                                else (true,
                                      Sprite (if truthy type then type
                                              else Null) lg))).
    { rewrite (Hset block).
      destruct (strict_eq cur type); [split; reflexivity|].
      destruct (strict_eq _ cur); [split; reflexivity|].
      destruct block; split; reflexivity. }
    destruct Hsame as [Ha Hf]. rewrite Ha, Hf. clear Ha Hf.
    set (r := if strict_eq cur type then (false, Sprite cur lg)
              else if strict_eq (if truthy type then type else Null) cur
                   then (false, Sprite (if truthy type then type else Null) lg)
                   else (true, Sprite (if truthy type then type else Null) lg)).
    assert (Hlog : log (snd r) = lg).
    { subst r. destruct (strict_eq cur type); [reflexivity|].
      destruct (strict_eq _ cur); reflexivity. }
    destruct ((if fst r then n + 1 else n) >? 0) eqn:Hpos;
      cbn [fst snd andb].
    + rewrite Hpos. cbn [andb].
      destruct bs, act; cbn [negb called log arrowType];
        rewrite ?Hlog, ?app_nil_r, <- ?app_assoc; auto.
    + rewrite Hpos. cbn [andb]. rewrite Hlog, !app_nil_r. auto.
Qed.

(** X29.  getRect gives a frame for the types up, down, left and right and
    for no other type.  The four frames lie in the square of side 48 at
    (120, 24), and no two of them share a point. *)
Theorem getRect_frames t :
  (getRect t <> None <->
   t = Name "up"%string \/ t = Name "down"%string \/ t = Name "left"%string \/ t = Name "right"%string) /\
  (forall x y w h, getRect t = Some (x, y, w, h) ->
     120 <= x /\ x + w <= 168 /\ 24 <= y /\ y + h <= 72 /\ 0 < w /\ 0 < h) /\
  (forall t' a b, getRect t = Some a -> getRect t' = Some b -> t <> t' ->
     disjoint a b).
Proof.
  assert (Hcases : forall u f, getRect u = Some f ->
    (u = Name "up"%string /\ f = (132, 24, 24, 12)) \/
    (u = Name "down"%string /\ f = (132, 60, 24, 12)) \/
    (u = Name "left"%string /\ f = (120, 36, 12, 24)) \/
    (u = Name "right"%string /\ f = (156, 36, 12, 24))).
  { intros [| |s] f; try discriminate. unfold getRect. cbn zeta.
    destruct (String.eqb s "up"%string) eqn:E1;
      [apply String.eqb_eq in E1; subst; intros H; inversion H; auto|].
    destruct (String.eqb s "down"%string) eqn:E2;
      [apply String.eqb_eq in E2; subst; intros H; inversion H; auto|].
    destruct (String.eqb s "left"%string) eqn:E3;
      [apply String.eqb_eq in E3; subst; intros H; inversion H; auto 6|].
    destruct (String.eqb s "right"%string) eqn:E4;
      [apply String.eqb_eq in E4; subst; intros H; inversion H; auto 6|].
    discriminate. }
  split; [|split].
  - split.
    + destruct (getRect t) as [f|] eqn:E; [|congruence]. intros _.
      destruct (Hcases t f E) as [[-> _] | [[-> _] | [[-> _] | [-> _]]]];
        auto.
    + intros [-> | [-> | [-> | ->]]]; discriminate.
  - intros x y w h E.
    destruct (Hcases t _ E) as [[_ H] | [[_ H] | [[_ H] | [_ H]]]];
      inversion H; subst; lia.
  - intros t' a b Ea Eb Hne.
    destruct (Hcases t a Ea) as [[-> ->] | [[-> ->] | [[-> ->] | [-> ->]]]];
      destruct (Hcases t' b Eb)
        as [[-> ->] | [[-> ->] | [[-> ->] | [-> ->]]]];
      try congruence; unfold disjoint; lia.
Qed.

End ArrowExtra.

(** ** DKTools.Scene.Preloader *)

Module PreloaderExtra.
Import Preloader.

Lemma fold_onError promises p :
  fold_left (fun p f => if rejects f then onError p else p) promises p
  = MkPreloader (queue p) (finished p)
      (errors p + Z.of_nat (length (List.filter rejects promises))).
Proof.
  revert p. induction promises as [|f l IH]; intros p; simpl.
  - rewrite Z.add_0_r. destruct p; reflexivity.
  - rewrite IH. destruct (rejects f); simpl; [|reflexivity].
    f_equal. lia.
Qed.

Lemma addMany_queue rs p :
  addMany rs p
  = MkPreloader (queue p ++ promises_of rs) (finished p) (errors p).
Proof.
  unfold addMany. revert p. induction rs as [|r rs IH]; intros p; simpl.
  - rewrite app_nil_r. destruct p; reflexivity.
  - rewrite IH. destruct r; simpl; rewrite <- ?app_assoc; reflexivity.
Qed.

Lemma forallb_fulfils l :
  forallb fulfils l = true <-> Forall (fun f => f = Fulfils) l.
Proof.
  rewrite forallb_forall, List.Forall_forall. split; intros H f Hin.
  - specialize (H f Hin). destruct f; [reflexivity | discriminate..].
  - rewrite (H f Hin). reflexivity.
Qed.

Lemma rejected_count l :
  (0 < Z.of_nat (length (List.filter rejects l))) <-> In Rejects l.
Proof.
  induction l as [|f l IH]; simpl; [split; [lia | contradiction]|].
  destruct f; simpl.
  - rewrite IH. split; [auto|]. intros [H | H]; [discriminate | exact H].
  - split; [auto | lia].
  - rewrite IH. split; [auto|]. intros [H | H]; [discriminate | exact H].
Qed.

Lemma fulfilled_none_rejected l :
  Forall (fun f => f = Fulfils) l -> List.filter rejects l = [].
Proof.
  induction 1 as [|f l Hf _ IH]; simpl; [reflexivity|].
  rewrite Hf. exact IH.
Qed.

Lemma start_unfold p :
  start p
  = if forallb fulfils (queue p)
    then MkPreloader [] true
           (errors p + Z.of_nat (length (List.filter rejects (queue p))))
    else MkPreloader (queue p) (finished p)
           (errors p + Z.of_nat (length (List.filter rejects (queue p)))).
Proof.
  unfold start. cbn zeta. rewrite fold_onError.
  destruct (forallb fulfils (queue p)); reflexivity.
Qed.

(** X30.  The preloader is ready once every promise of its queue is
    fulfilled, and counts the rejected ones.  When all that start sets
    going has happened, the error count has grown by the number of
    rejected promises of the queue; the preloader is ready exactly when it
    was before or every promise of the queue was fulfilled; when every
    promise was fulfilled it is as after finish; with a promise rejected
    or never settled the queue and the ready flag are as before, so that a second start counts every
    rejected promise again.  addMany appends the promises of its
    resources in order and ignores what is no promise, bitmap or audio. *)
Theorem start_waits_for_every_promise p :
  0 <= errors p ->
  errors (start p)
  = errors p + Z.of_nat (length (List.filter rejects (queue p))) /\
  (hasErrors (start p) = true <->
   hasErrors p = true \/ In Rejects (queue p)) /\
  (isReady (start p) = true <->
   isReady p = true \/ Forall (fun f => f = Fulfils) (queue p)) /\
  (Forall (fun f => f = Fulfils) (queue p) -> start p = finish p) /\
  (~ Forall (fun f => f = Fulfils) (queue p) ->
   queue (start p) = queue p /\ isReady (start p) = isReady p /\
   errors (start (start p))
   = errors p + 2 * Z.of_nat (length (List.filter rejects (queue p)))) /\
  (forall rs,
     queue (addMany rs p) = queue p ++ promises_of rs /\
     isReady (addMany rs p) = isReady p /\
     errors (addMany rs p) = errors p).
Proof.
  intros Hpos.
  assert (Herr : errors (start p)
                 = errors p
                   + Z.of_nat (length (List.filter rejects (queue p)))).
  { rewrite start_unfold. destruct (forallb fulfils (queue p)); reflexivity. }
  split; [exact Herr|]. split; [|split; [|split; [|split]]].
  - unfold hasErrors. rewrite Herr, !Z.gtb_ltb, !Z.ltb_lt.
    rewrite <- rejected_count. lia.
  - unfold isReady. rewrite start_unfold, <- forallb_fulfils.
    destruct (forallb fulfils (queue p)); cbn [finished].
    + split; auto.
    + split; [auto|]. intros [H | H]; [exact H | discriminate].
  - intros Hall. rewrite start_unfold.
    rewrite (proj2 (forallb_fulfils (queue p)) Hall).
    rewrite (fulfilled_none_rejected _ Hall). unfold finish. simpl.
    rewrite Z.add_0_r. reflexivity.
  - intros Hnot.
    assert (Hf : forallb fulfils (queue p) = false).
    { destruct (forallb fulfils (queue p)) eqn:E; [|reflexivity].
      exfalso. apply Hnot, forallb_fulfils, E. }
    rewrite (start_unfold (start p)). rewrite (start_unfold p). rewrite Hf.
    cbn [queue finished errors isReady]. rewrite Hf.
    cbn [queue finished errors]. repeat split. lia.
  - intros rs. rewrite addMany_queue. repeat split.
Qed.

Lemma start_waits_for_every_promise_witness :
  errors (start (addMany [APromise Fulfils; Other; ABitmap Rejects;
                          AWebAudio Rejects] initialize))
  = 2 /\
  isReady (start (addMany [APromise Fulfils; Other; ABitmap Rejects;
                           AWebAudio Rejects] initialize))
  = false.
Proof.
  destruct (start_waits_for_every_promise
              (addMany [APromise Fulfils; Other; ABitmap Rejects;
                        AWebAudio Rejects] initialize))
    as (He & _ & _ & _ & Hn & _).
  - vm_compute. discriminate.
  - split; [exact He|].
    destruct Hn as (_ & Hr & _); [|exact Hr].
    intros H. apply (proj2 (forallb_fulfils _)) in H.
    vm_compute in H. discriminate.
Defined.

End PreloaderExtra.
